(** * Regieleki: DNS wire codec, record store, query dispatch and management API

    A shallow embedding of the Go sources [dns.go], [store.go], [web.go] and
    [auth.go]:
    - Go [string] is [string] (a sequence of 8-bit characters), [[]byte] is
      [list byte];
    - Go [int] is [Z]; the places where a 64-bit [int] or a [uint16] can wrap
      spell the wrap-around out ([wrap64], [wrap16]);
    - [map[string][]Record] is a [gmap string (list Record)];
    - a run-time panic (index out of range) and the exhaustion of the fuel of
      a loop are explicit outcomes ([Panic], [OutOfFuel]);
    - the functions of Go's [strings] package are modelled byte by byte on
      ASCII text, as the package does; where the package turns to the
      Unicode tables, the model calls the fields of the class [GoUnicode]. *)

From Stdlib Require Import ZArith List Strings.String Strings.Ascii Strings.Byte Lia Bool.
From Stdlib Require Import DecimalString DecimalZ DecimalPos.
From stdpp Require Import base gmap strings list.

Local Open Scope Z_scope.

(** ** Go primitives *)

(** Outcome of running a piece of Go code. *)
Inductive run (A : Type) : Type :=
| Done (a : A)
| Panic
| OutOfFuel.
Arguments Done {A} a.
Arguments Panic {A}.
Arguments OutOfFuel {A}.

(** [int(b)] for a byte [b]. *)
Definition byte_val (b : byte) : Z := Z.of_N (Byte.to_N b).

(** [byte(z)]: conversion of an integer to a byte keeps the low 8 bits. *)
Definition byte_of_Z (z : Z) : byte :=
  match Byte.of_N (Z.to_N (z mod 256)) with
  | Some b => b
  | None => x00
  end.

(** [len(l)] as a Go [int]. *)
Definition len {A : Type} (l : list A) : Z := Z.of_nat (length l).

(** [len(s)] for a Go string. *)
Definition slen (s : string) : Z := Z.of_nat (String.length s).

(** [buf[i]]: [None] stands for the index-out-of-range panic. *)
Definition index_at (buf : list byte) (i : Z) : option byte :=
  if i <? 0 then None else buf !! Z.to_nat i.

(** [buf[lo:hi]] for [0 <= lo <= hi <= len(buf)]. *)
Definition slice (buf : list byte) (lo hi : Z) : list byte :=
  take (Z.to_nat (hi - lo)) (drop (Z.to_nat lo) buf).

(** Wrap-around of a 64-bit signed [int] and of a [uint16]. *)
Definition wrap64 (z : Z) : Z := (z + 2 ^ 63) mod 2 ^ 64 - 2 ^ 63.
Definition wrap16 (z : Z) : Z := z mod 2 ^ 16.

(** [binary.BigEndian.Uint16] on two bytes. *)
Definition Uint16 (hi lo : byte) : Z :=
  Z.lor (Z.shiftl (byte_val hi) 8) (byte_val lo).

(** [strings.Split(s, sep)] for a one-character separator. *)
Fixpoint Split (s : string) (sep : ascii) : list string :=
  match s with
  | EmptyString => [EmptyString]
  | String c s' =>
      if Ascii.eqb c sep then EmptyString :: Split s' sep
      else match Split s' sep with
           | [] => [String c EmptyString]
           | p :: ps => String c p :: ps
           end
  end.

(** [strings.Join(parts, sep)]. *)
Definition Join (parts : list string) (sep : string) : string :=
  String.concat sep parts.

(** [strings.TrimRight(s, cutset)] for a one-character cutset. *)
Fixpoint TrimRight (s : string) (c : ascii) : string :=
  match s with
  | EmptyString => EmptyString
  | String a s' =>
      match TrimRight s' c with
      | EmptyString => if Ascii.eqb a c then EmptyString else String a EmptyString
      | t => String a t
      end
  end.

(** ** The Unicode side of Go's [strings] package

    On a string whose bytes are all below 128, [strings.ToLower],
    [strings.ToUpper], [strings.TrimSpace] and [strings.Fields] work on the
    bytes, and that path is modelled below.  For any other string they call
    functions that consult the Unicode tables of the standard library.
    These are not modelled; they are the fields of this class:
    - [Map_ToLower s] is [Map(unicode.ToLower, s)],
    - [Map_ToUpper s] is [Map(unicode.ToUpper, s)],
    - [TrimFunc_IsSpace s] is [TrimFunc(s, unicode.IsSpace)],
    - [TrimRightFunc_IsSpace s] is [TrimRightFunc(s, unicode.IsSpace)],
    - [FieldsFunc_IsSpace s] is [FieldsFunc(s, unicode.IsSpace)]. *)
Class GoUnicode : Type := {
  Map_ToLower : string -> string;
  Map_ToUpper : string -> string;
  TrimFunc_IsSpace : string -> string;
  TrimRightFunc_IsSpace : string -> string;
  FieldsFunc_IsSpace : string -> list string
}.

(** The sample data at the end of the file is ASCII text, for which the
    fields of [GoUnicode] are never called.  This instance, which leaves a
    string as it is, is the one the samples are stated with. *)
Definition unicode_untouched : GoUnicode :=
  {| Map_ToLower := fun s => s;
     Map_ToUpper := fun s => s;
     TrimFunc_IsSpace := fun s => s;
     TrimRightFunc_IsSpace := fun s => s;
     FieldsFunc_IsSpace := fun s => [s] |}.

Section WithUnicode.

Context {U : GoUnicode}.

(** The test [c >= utf8.RuneSelf] of the loops that look for a byte outside
    ASCII. *)
Definition is_ascii_byte (c : ascii) : bool := (N_of_ascii c <? 128)%N.

Fixpoint isASCII (s : string) : bool :=
  match s with
  | EmptyString => true
  | String c s' => is_ascii_byte c && isASCII s'
  end.

(** The byte maps of the ASCII paths of [strings.ToLower] and
    [strings.ToUpper]: the letters A-Z, or a-z, are moved and every other
    byte is kept. *)
Definition lower_ascii (c : ascii) : ascii :=
  let n := N_of_ascii c in
  if ((65 <=? n) && (n <=? 90))%N then ascii_of_N (n + 32) else c.

Definition upper_ascii (c : ascii) : ascii :=
  let n := N_of_ascii c in
  if ((97 <=? n) && (n <=? 122))%N then ascii_of_N (n - 32) else c.

Fixpoint lower_bytes (s : string) : string :=
  match s with
  | EmptyString => EmptyString
  | String c s' => String (lower_ascii c) (lower_bytes s')
  end.

Fixpoint upper_bytes (s : string) : string :=
  match s with
  | EmptyString => EmptyString
  | String c s' => String (upper_ascii c) (upper_bytes s')
  end.

(** [strings.ToLower] and [strings.ToUpper]: the byte map when every byte
    of the string is below 128, [Map] with the Unicode case mapping
    otherwise. *)
Definition ToLower (s : string) : string :=
  if isASCII s then lower_bytes s else Map_ToLower s.

Definition ToUpper (s : string) : string :=
  if isASCII s then upper_bytes s else Map_ToUpper s.

(** [strconv.Itoa]. *)
Definition Itoa (z : Z) : string := NilEmpty.string_of_int (Z.to_int z).

(** [strconv.Atoi]: an optional sign, at least one decimal digit, and a value
    that fits a 64-bit [int]; [None] is the error. *)
Definition digit_of (c : ascii) : option Z :=
  let n := Z.of_N (N_of_ascii c) in
  if (48 <=? n) && (n <=? 57) then Some (n - 48) else None.

Fixpoint parse_digits (s : string) (acc : Z) : option Z :=
  match s with
  | EmptyString => Some acc
  | String c s' =>
      match digit_of c with
      | None => None
      | Some d => parse_digits s' (acc * 10 + d)
      end
  end.

Definition Atoi (s : string) : option Z :=
  let '(neg, body) :=
    match s with
    | String "-" s' => (true, s')
    | String "+" s' => (false, s')
    | _ => (false, s)
    end in
  match body with
  | EmptyString => None
  | _ =>
      match parse_digits body 0 with
      | None => None
      | Some n =>
          let v := if neg : bool then - n else n in
          if (- 2 ^ 63 <=? v) && (v <=? 2 ^ 63 - 1) then Some v else None
      end
  end.

(** ** store.go: the record type *)

Record Record : Type := mkRecord {
  ID : Z;
  Domain : string;
  Type_ : string;
  Value : string
}.

(** ** dns.go: the wire codec *)

(** The local variables of the loop of [parseDNSName]. *)
Record pstate : Type := mkP {
  parts : list string;
  jumped : bool;
  returnOffset : Z;
  maxJumps : Z;
  offset : Z
}.

(** What one pass through the loop body does. *)
Inductive iter_result : Type :=
| Next (st : pstate)      (* reached the end of the body, or [continue] *)
| Break (st : pstate)     (* [break] *)
| Return_err              (* return of the error pair *)
| Index_panic.            (* an index expression out of range *)

Definition parse_iter (buf : list byte) (st : pstate) : iter_result :=
  if len buf <=? offset st then Return_err
  else
    match index_at buf (offset st) with
    | None => Index_panic
    | Some b =>
        let length := byte_val b in
        if length =? 0 then
          Break {| parts := parts st; jumped := jumped st;
                   returnOffset := if jumped st then returnOffset st
                                   else offset st + 1;
                   maxJumps := maxJumps st; offset := offset st |}
        else if Z.land length 192 =? 192 then
          if len buf <=? offset st + 1 then Return_err
          else
            match index_at buf (offset st + 1) with
            | None => Index_panic
            | Some b1 =>
                let ptr := Z.lor (Z.shiftl (Z.land (byte_val b) 63) 8)
                                 (byte_val b1) in
                Next {| parts := parts st; jumped := true;
                        returnOffset := if jumped st then returnOffset st
                                        else offset st + 2;
                        maxJumps := maxJumps st - 1; offset := ptr |}
            end
        else
          let off1 := offset st + 1 in
          if len buf <? off1 + length then Return_err
          else
            Next {| parts := parts st ++
                      [string_of_list_byte (slice buf off1 (off1 + length))];
                    jumped := jumped st; returnOffset := returnOffset st;
                    maxJumps := maxJumps st; offset := off1 + length |}
    end.

(** The loop [for maxJumps > 0 { ... }]: [Done (Some st)] when the loop is
    left (by its condition or by [break]) in state [st], [Done None] when the
    body returned the error pair. *)
Fixpoint parse_loop (fuel : nat) (buf : list byte) (st : pstate)
  : run (option pstate) :=
  match fuel with
  | O => if maxJumps st <=? 0 then Done (Some st) else OutOfFuel
  | S f =>
      if maxJumps st <=? 0 then Done (Some st)
      else
        match parse_iter buf st with
        | Next st' => parse_loop f buf st'
        | Break st' => Done (Some st')
        | Return_err => Done None
        | Index_panic => Panic
        end
  end.

Definition parse_init (off : Z) : pstate :=
  {| parts := []; jumped := false; returnOffset := off;
     maxJumps := 10; offset := off |}.

Definition parse_finish (r : run (option pstate)) : run (string * Z) :=
  match r with
  | Done (Some st) =>
      if maxJumps st =? 0 then Done (EmptyString, -1)
      else Done (Join (parts st) ".", returnOffset st)
  | Done None => Done (EmptyString, -1)
  | Panic => Panic
  | OutOfFuel => OutOfFuel
  end.

Definition parseDNSName_fuel (fuel : nat) (buf : list byte) (off : Z)
  : run (string * Z) :=
  parse_finish (parse_loop fuel buf (parse_init off)).

(** Fuel that is enough for every buffer (see [parse_init_enough_fuel]). *)
Definition parse_fuel (buf : list byte) : nat := (11 * (length buf + 2))%nat.

Definition parseDNSName (buf : list byte) (off : Z) : run (string * Z) :=
  parseDNSName_fuel (parse_fuel buf) buf off.

Definition encodeDNSName (name : string) : list byte :=
  fold_left
    (fun buf part =>
       if slen part =? 0 then buf
       else (buf ++ [byte_of_Z (slen part)]) ++ list_byte_of_string part)
    (Split name ".") [] ++ [x00].

(** [net.IP] is a byte slice; [None] is the nil slice.  [To4] and [To16] are
    the methods of Go's [net] package. *)
Definition isZeros (p : list byte) : bool :=
  forallb (fun b => byte_val b =? 0) p.

Definition To4 (ip : option (list byte)) : option (list byte) :=
  match ip with
  | None => None
  | Some p =>
      if len p =? 4 then Some p
      else
        match p with
        | [b0; b1; b2; b3; b4; b5; b6; b7; b8; b9; b10; b11; c0; c1; c2; c3] =>
            if isZeros [b0; b1; b2; b3; b4; b5; b6; b7; b8; b9]
               && (byte_val b10 =? 255) && (byte_val b11 =? 255)
            then Some [c0; c1; c2; c3]
            else None
        | _ => None
        end
  end.

Definition v4InV6Prefix : list byte :=
  [x00; x00; x00; x00; x00; x00; x00; x00; x00; x00; xff; xff].

Definition To16 (ip : option (list byte)) : option (list byte) :=
  match ip with
  | None => None
  | Some p =>
      match p with
      | [a; b; c; d] => Some (v4InV6Prefix ++ [a; b; c; d])
      | _ => if len p =? 16 then Some p else None
      end
  end.

Definition namePtr : list byte := [xc0; x0c].

Section ResponseBuilder.

(** [net.ParseIP], of Go's standard library: the parsed address, or nil. *)
Variable ParseIP : string -> option (list byte).

(** The [switch r.Type] of [buildDNSResponse]: the type code and the RDATA
    of the answer, or [None] where the source says [continue]. *)
Definition answer_data (r : Record) : option (Z * list byte) :=
  if String.eqb (Type_ r) "A" then
    match To4 (ParseIP (Value r)) with
    | None => None
    | Some ip => Some (1, ip)
    end
  else if String.eqb (Type_ r) "AAAA" then
    match ParseIP (Value r) with
    | None => None
    | Some p =>
        match To4 (Some p) with
        | Some _ => None
        | None => Some (28, default [] (To16 (Some p)))
        end
    end
  else if String.eqb (Type_ r) "CNAME" then
    Some (5, encodeDNSName (Value r))
  else None.

(** One pass through the loop over the records: the answer bytes so far and
    the [uint16] counter. *)
Definition answer_step (acc : list byte * Z) (r : Record) : list byte * Z :=
  match answer_data r with
  | None => acc
  | Some (rtype, rdata) =>
      let answers := fst acc ++ namePtr in
      let answers :=
        answers ++ [byte_of_Z (Z.shiftr rtype 8); byte_of_Z rtype] in
      let answers := answers ++ [x00; x01] in
      let answers := answers ++ [x00; x00; x00; x3c] in
      let answers :=
        answers ++ [byte_of_Z (Z.shiftr (len rdata) 8);
                    byte_of_Z (len rdata)] in
      let answers := answers ++ rdata in
      (answers, wrap16 (snd acc + 1))
  end.

Definition build_answers (records : list Record) : list byte * Z :=
  fold_left answer_step records ([], 0).

(** [None] is a panic: an index or a slice bound out of range.  [None] is
    also the result when [questionEnd] is beyond the length of [query]; there
    Go panics only beyond the capacity of the slice, and below it copies
    bytes that lie after the length.  [handleQuery] calls with [questionEnd]
    within the length. *)
Definition buildDNSResponse (query : list byte) (questionEnd : Z)
           (records : list Record) : option (list byte) :=
  let '(answers, ancount) := build_answers records in
  if questionEnd <? 12 then None
  else
    match index_at query 0, index_at query 1, index_at query 2 with
    | Some q0, Some q1, Some q2 =>
        if len query <? questionEnd then None
        else
          let resp := [q0; q1] in
          let resp :=
            resp ++ [byte_of_Z (Z.lor 132 (Z.land (byte_val q2) 1)); x80] in
          let resp := resp ++ [x00; x01] in
          let resp :=
            resp ++ [byte_of_Z (Z.shiftr ancount 8); byte_of_Z ancount] in
          let resp := resp ++ [x00; x00] in
          let resp := resp ++ [x00; x00] in
          let resp := resp ++ slice query 12 questionEnd in
          let resp := resp ++ answers in
          Some resp
    | _, _, _ => None
    end.

End ResponseBuilder.

(** [None] as for [buildDNSResponse]. *)
Definition buildServFail (query : list byte) (questionEnd : Z)
  : option (list byte) :=
  if questionEnd <? 0 then None
  else
    match index_at query 0, index_at query 1, index_at query 2 with
    | Some q0, Some q1, Some q2 =>
        if (questionEnd <? 12) || (len query <? questionEnd) then None
        else
          let resp := [q0; q1] in
          let resp :=
            resp ++ [byte_of_Z (Z.lor 128 (Z.land (byte_val q2) 1)); x82] in
          let resp := resp ++ [x00; x01] in
          let resp := resp ++ [x00; x00] in
          let resp := resp ++ [x00; x00] in
          let resp := resp ++ [x00; x00] in
          let resp := resp ++ slice query 12 questionEnd in
          Some resp
    | _, _, _ => None
    end.

(** ** store.go: the record store *)

Record Store : Type := mkStore {
  records : list Record;
  nextID : Z;
  index : gmap string (list Record)
}.

Definition rebuildIndex (rs : list Record) : gmap string (list Record) :=
  fold_left
    (fun idx r =>
       let key := ToLower (Domain r) in
       <[key := default [] (idx !! key) ++ [r]]> idx)
    rs ∅.

(** What [os.ReadFile] finds at the path of the store. *)
Inductive file_state : Type :=
| NotExist
| ReadError
| Contents (data : string).

(** The body of the loop of [load] on one line: the record to append, or
    [None] where the source says [continue]. *)
Definition load_line (line : string) : option Record :=
  let line := TrimRight line "013" in
  if String.eqb line EmptyString then None
  else
    match Split line "009" with
    | [f0; f1; f2; f3] =>
        match Atoi f0 with
        | None => None
        | Some id =>
            let rtype := f2 in
            if negb (String.eqb rtype "A") && negb (String.eqb rtype "AAAA")
               && negb (String.eqb rtype "CNAME")
            then None
            else Some {| ID := id; Domain := f1; Type_ := rtype; Value := f3 |}
        end
    | _ => None
    end.

Definition load_step (acc : list Record * Z) (line : string)
  : list Record * Z :=
  match load_line line with
  | None => acc
  | Some r => (fst acc ++ [r], if snd acc <? ID r then ID r else snd acc)
  end.

(** [load]: [None] is the error return. *)
Definition load (s : Store) (f : file_state) : option Store :=
  match f with
  | NotExist => Some {| records := []; nextID := 1; index := index s |}
  | ReadError => None
  | Contents data =>
      if slen data =? 0 then
        Some {| records := []; nextID := 1; index := index s |}
      else
        let acc := fold_left load_step
                     (Split (TrimRight data "010") "010") ([], 0) in
        Some {| records := fst acc; nextID := wrap64 (snd acc + 1);
                index := rebuildIndex (fst acc) |}
  end.

Definition NewStore (f : file_state) : option Store :=
  load {| records := []; nextID := 0; index := ∅ |} f.

(** The buffer that [save] builds and writes to the backing file. *)
Definition save_line (r : Record) : string :=
  Itoa (ID r) +:+ String "009" (Domain r +:+ String "009"
    (Type_ r +:+ String "009" (Value r +:+ String "010" EmptyString))).

Definition save_buf (rs : list Record) : string :=
  fold_left (fun buf r => buf +:+ save_line r) rs EmptyString.

(** [save]: the file after the call and whether the call succeeded.  Whether
    the temporary file can be written and renamed is an input ([io_ok]). *)
Definition save (s : Store) (io_ok : bool) (f : file_state)
  : file_state * bool :=
  if io_ok then (Contents (save_buf (records s)), true) else (f, false).

Definition matchType (rtype : string) (qtype : Z) : bool :=
  if qtype =? 1 then String.eqb rtype "A"
  else if qtype =? 28 then String.eqb rtype "AAAA"
  else if qtype =? 5 then String.eqb rtype "CNAME"
  else false.

(** The fallback loop of [Resolve]: the first CNAME record, if any. *)
Fixpoint first_cname (all : list Record) : list Record :=
  match all with
  | [] => []
  | r :: rest =>
      if String.eqb (Type_ r) "CNAME" then [r] else first_cname rest
  end.

Definition Resolve (s : Store) (domain : string) (qtype : Z)
  : list Record * bool :=
  let key := ToLower domain in
  let all := default [] (index s !! key) in
  if len all =? 0 then ([], false)
  else if qtype =? 255 then (all, true)
  else
    let result := List.filter (fun r => matchType (Type_ r) qtype) all in
    let result := if len result =? 0 then first_cname all else result in
    (result, true).

(** The in-memory part of [Add], [Update] and [Delete]; each of them then
    returns the error of [save], if any. *)
Definition Add (s : Store) (r : Record) : Store * Record :=
  let r' := {| ID := nextID s; Domain := ToLower (Domain r);
               Type_ := ToUpper (Type_ r); Value := Value r |} in
  let rs := records s ++ [r'] in
  ({| records := rs; nextID := wrap64 (nextID s + 1);
      index := rebuildIndex rs |}, r').

(** The loop of [Update]: the list with the first record of that id replaced,
    and the replaced record. *)
Fixpoint update_first (rs : list Record) (id : Z) (domain rtype value : string)
  : option (list Record * Record) :=
  match rs with
  | [] => None
  | r :: rest =>
      if ID r =? id then
        let r' := {| ID := ID r; Domain := ToLower domain;
                     Type_ := ToUpper rtype; Value := value |} in
        Some (r' :: rest, r')
      else
        match update_first rest id domain rtype value with
        | None => None
        | Some (rest', r') => Some (r :: rest', r')
        end
  end.

(** [None] is [os.ErrNotExist]. *)
Definition Update (s : Store) (id : Z) (domain rtype value : string)
  : option (Store * Record) :=
  match update_first (records s) id domain rtype value with
  | None => None
  | Some (rs, r') =>
      Some ({| records := rs; nextID := nextID s; index := rebuildIndex rs |},
            r')
  end.

(** The loop of [Delete]: the list without the first record of that id. *)
Fixpoint delete_first (rs : list Record) (id : Z) : option (list Record) :=
  match rs with
  | [] => None
  | r :: rest =>
      if ID r =? id then Some rest
      else
        match delete_first rest id with
        | None => None
        | Some rest' => Some (r :: rest')
        end
  end.

Definition Delete (s : Store) (id : Z) : option Store :=
  match delete_first (records s) id with
  | None => None
  | Some rs =>
      Some {| records := rs; nextID := nextID s; index := rebuildIndex rs |}
  end.

(** A mutation requested by the management layer. *)
Inductive op : Type :=
| OpAdd (r : Record)
| OpUpdate (id : Z) (domain rtype value : string)
| OpDelete (id : Z).

(** The store after a mutation; a mutation that reports "not found" leaves
    the store as it is. *)
Definition apply_op (s : Store) (o : op) : Store :=
  match o with
  | OpAdd r => fst (Add s r)
  | OpUpdate id d t v =>
      match Update s id d t v with
      | Some (s', _) => s'
      | None => s
      end
  | OpDelete id =>
      match Delete s id with
      | Some s' => s'
      | None => s
      end
  end.

Definition apply_ops (s : Store) (ops : list op) : Store :=
  fold_left apply_op ops s.

(** The store together with its backing file. *)
Record World : Type := mkWorld {
  store : Store;
  disk : file_state
}.

(** [Add] with its call of [save]. *)
Definition AddAndSave (w : World) (r : Record) (io_ok : bool)
  : World * Record * bool :=
  let '(s', r') := Add (store w) r in
  let '(d', ok) := save s' io_ok (disk w) in
  ({| store := s'; disk := d' |}, r', ok).

(** ** dns.go: the query dispatcher *)

Section Dispatcher.

Variable ParseIP : string -> option (list byte).

(** [forwardQuery]: the datagram of the first upstream that answers, or
    nil. *)
Variable forwardQuery : list byte -> option (list byte).

(** [handleQuery] from "Parse first question" on: the datagram written to
    the client, if any. *)
Definition answerQuestion (s : Store) (buf : list byte)
  : run (option (list byte)) :=
  let n := len buf in
  match parseDNSName buf 12 with
  | Panic => Panic
  | OutOfFuel => OutOfFuel
  | Done (qname, offset) =>
      if (offset <? 0) || (n <? offset + 4) then Done None
      else
        match index_at buf offset, index_at buf (offset + 1) with
        | Some h, Some l =>
            let qtype := Uint16 h l in
            let questionEnd := offset + 4 in
            let '(records, authoritative) := Resolve s qname qtype in
            if authoritative : bool then
              match buildDNSResponse ParseIP buf questionEnd records with
              | Some resp => Done (Some resp)
              | None => Panic
              end
            else
              match forwardQuery buf with
              | Some resp => Done (Some resp)
              | None =>
                  match buildServFail buf questionEnd with
                  | Some resp => Done (Some resp)
                  | None => Panic
                  end
              end
        | _, _ => Panic
        end
  end.

Definition handleQuery (s : Store) (buf : list byte)
  : run (option (list byte)) :=
  let n := len buf in
  if n <? 12 then Done None
  else
    match index_at buf 2 with
    | None => Panic
    | Some b2 =>
        if negb (Z.land (byte_val b2) 128 =? 0) then Done None
        else
          match index_at buf 4, index_at buf 5 with
          | Some b4, Some b5 =>
              let qdcount := Uint16 b4 b5 in
              if qdcount =? 0 then Done None
              else answerQuestion s buf
          | _, _ => Panic
          end
    end.

End Dispatcher.

(** ** Wire format of a name, for the statements about [parseDNSName] *)

(** The offset that a compression pointer made of the bytes [b] and [b1]
    designates. *)
Definition pointer_target (b b1 : byte) : Z :=
  Z.lor (Z.shiftl (Z.land (byte_val b) 63) 8) (byte_val b1).

(** [name_at buf off j ps e]: a well-formed name starts at [off] in [buf];
    reading it to its terminating zero byte follows [j] compression pointers
    and meets the labels [ps]; its first occurrence ends just before [e]. *)
Inductive name_at (buf : list byte) : Z -> nat -> list string -> Z -> Prop :=
| name_end (off : Z) (b : byte) :
    index_at buf off = Some b ->
    byte_val b = 0 ->
    name_at buf off 0 [] (off + 1)
| name_label (off : Z) (b : byte) (j : nat) (ps : list string) (e : Z) :
    index_at buf off = Some b ->
    byte_val b <> 0 ->
    Z.land (byte_val b) 192 <> 192 ->
    off + 1 + byte_val b <= len buf ->
    name_at buf (off + 1 + byte_val b) j ps e ->
    name_at buf off j
      (string_of_list_byte (slice buf (off + 1) (off + 1 + byte_val b)) :: ps)
      e
| name_pointer (off : Z) (b b1 : byte) (j : nat) (ps : list string) (e : Z) :
    index_at buf off = Some b ->
    Z.land (byte_val b) 192 = 192 ->
    index_at buf (off + 1) = Some b1 ->
    name_at buf (pointer_target b b1) j ps e ->
    name_at buf off (S j) ps (off + 2).

(** Where the loop of [parseDNSName] goes next from offset [off], when it
    goes on at all (over a label or through a pointer). *)
Definition next_offset (buf : list byte) (off : Z) : option Z :=
  match parse_iter buf {| parts := []; jumped := false; returnOffset := off;
                          maxJumps := 1; offset := off |} with
  | Next st' => Some (offset st')
  | _ => None
  end.

(** The offset reached from [off] after [n] labels or pointers. *)
Fixpoint follow (buf : list byte) (n : nat) (off : Z) : option Z :=
  match n with
  | O => Some off
  | S k =>
      match next_offset buf off with
      | None => None
      | Some off' => follow buf k off'
      end
  end.

(** The name that starts at [off] runs into a chain of pointers (and labels)
    that leads back to one of its own offsets. *)
Definition points_to_itself (buf : list byte) (off : Z) : Prop :=
  exists (n k : nat) (o : Z),
    follow buf n off = Some o /\ follow buf (S k) o = Some o.

(** The character [c] occurs in [s]. *)
Fixpoint has_char (c : ascii) (s : string) : bool :=
  match s with
  | EmptyString => false
  | String a s' => Ascii.eqb a c || has_char c s'
  end.

(** A label of a domain name: 1 to 63 bytes, none of them a dot. *)
Definition is_label (l : string) : Prop :=
  1 <= slen l <= 63 /\ has_char "." l = false.

(** A buffer in which ten pointers in a row lead to an empty name:
    the pointer at offset [2 i] designates offset [2 i + 2]. *)
Definition ten_pointers : list byte :=
  [xc0; x02; xc0; x04; xc0; x06; xc0; x08; xc0; x0a;
   xc0; x0c; xc0; x0e; xc0; x10; xc0; x12; xc0; x14; x00].

(** The wire form of a sequence of labels, without the final zero byte. *)
Definition encode_labels (ls : list string) : list byte :=
  flat_map (fun l => byte_of_Z (slen l) :: list_byte_of_string l) ls.

(** The loop always makes progress: a jump uses up one of the ten allowed
    jumps, a label moves the offset towards the end of the buffer. *)
Definition parse_measure (buf : list byte) (st : pstate) : Z :=
  maxJumps st * (len buf + 2) + Z.max 0 (len buf - offset st).


(** ** Vocabulary for the statements about the store *)

(** The records that the store holds for a domain, compared without regard
    to case, in store order. *)
Definition records_for (s : Store) (domain : string) : list Record :=
  List.filter (fun r => String.eqb (ToLower (Domain r)) (ToLower domain))
              (records s).

(** The largest id of a list of records, 0 when there is none. *)
Definition max_id (rs : list Record) : Z :=
  fold_right (fun r m => Z.max (ID r) m) 0 rs.

Definition is_add (o : op) : bool :=
  match o with OpAdd _ => true | _ => false end.


(** How many of the operations are [Add]s. *)
Definition count_adds (ops : list op) : Z :=
  len (List.filter is_add ops).

(** The store made from a missing backing file. *)
Definition empty_store : Store :=
  {| records := []; nextID := 1; index := ∅ |}.

(** The record types that [load] accepts. *)
Definition supported_type (t : string) : Prop :=
  t = "A"%string \/ t = "AAAA"%string \/ t = "CNAME"%string.





(** A string with neither a tab nor a line feed. *)
Definition no_tab_nl (s : string) : Prop :=
  has_char "009" s = false /\ has_char "010" s = false.

(** A record that the tab-separated file can hold: once in upper case its
    type is one that [load] accepts, its domain once in lower case and its
    value have no tab and no line feed, and its value has no carriage return
    at its end. *)
Definition storable (r : Record) : Prop :=
  supported_type (ToUpper (Type_ r)) /\
  no_tab_nl (ToLower (Domain r)) /\
  no_tab_nl (Value r) /\
  TrimRight (Value r) "013" = Value r.

(** A fresh store on a path where there is no file yet. *)
Definition new_world : World :=
  {| store := empty_store; disk := NotExist |}.

(** [Add] of each record in turn, every [save] succeeding. *)
Definition add_all (w : World) (rs : list Record) : World :=
  fold_left (fun w r => fst (fst (AddAndSave w r true))) rs w.

(** The records that [Add] makes of [rs] when the counter is at [k]. *)
Fixpoint stored_from (k : Z) (rs : list Record) : list Record :=
  match rs with
  | [] => []
  | r :: rest =>
      {| ID := k; Domain := ToLower (Domain r);
         Type_ := ToUpper (Type_ r); Value := Value r |}
        :: stored_from (k + 1) rest
  end.

(** The line of a record in the backing file, without its line feed. *)
Definition line_of (r : Record) : string :=
  Itoa (ID r) +:+ String "009" (Domain r +:+ String "009"
    (Type_ r +:+ String "009" (Value r))).

(** A record as the store holds it after [Add] of a storable record. *)
Definition clean (r : Record) : Prop :=
  - 2 ^ 63 <= ID r < 2 ^ 63 /\
  supported_type (Type_ r) /\
  no_tab_nl (Domain r) /\
  no_tab_nl (Value r) /\
  TrimRight (Value r) "013" = Value r.


(** ** Sample data *)

(** A record as the management layer hands it to [Add]. *)
Definition example_record : Record :=
  mkRecord 0 "app.my.local" "A" "10.0.0.1".

(** A record whose domain has a tab inside. *)
Definition tabbed_record : Record :=
  mkRecord 0 (String "a" (String "009" "b.local")) "A" "10.0.0.1".

(** The two records of the persistence test. *)
Definition two_records : list Record :=
  [mkRecord 0 "app.my.local" "A" "10.0.0.1";
   mkRecord 0 "db.my.local" "A" "10.0.0.2"].


(** ** Vocabulary for the statements about messages *)

(** The 16-bit field at bytes [i] and [i + 1] of a message. *)
Definition field16 (msg : list byte) (i : Z) : option Z :=
  match index_at msg i, index_at msg (i + 1) with
  | Some h, Some l => Some (256 * byte_val h + byte_val l)
  | _, _ => None
  end.

(** Bit [bit] (0 is the least significant) of byte [i] of a message. *)
Definition flag_bit (msg : list byte) (i bit : Z) : option bool :=
  match index_at msg i with
  | Some b => Some (Z.testbit (byte_val b) bit)
  | None => None
  end.

(** The response code: the low four bits of byte 3. *)
Definition rcode (msg : list byte) : option Z :=
  match index_at msg 3 with
  | Some b => Some (byte_val b mod 16)
  | None => None
  end.

Section AnswerVocabulary.

Variable ParseIP : string -> option (list byte).


(** The bytes that [buildDNSResponse] emits for one record. *)
Definition answer_bytes (r : Record) : list byte :=
  match answer_data ParseIP r with
  | None => []
  | Some (rtype, rdata) =>
      namePtr ++ [byte_of_Z (Z.shiftr rtype 8); byte_of_Z rtype]
        ++ [x00; x01] ++ [x00; x00; x00; x3c]
        ++ [byte_of_Z (Z.shiftr (len rdata) 8); byte_of_Z (len rdata)]
        ++ rdata
  end.

(** The number of answers emitted for a list of records. *)
Definition emitted (rs : list Record) : Z :=
  len (List.filter
         (fun r => match answer_data ParseIP r with
                   | Some _ => true
                   | None => false
                   end) rs).

End AnswerVocabulary.

(** The header says that the message is a response: bit 7 of byte 2. *)
Definition is_response (buf : list byte) : bool :=
  match index_at buf 2 with
  | Some b => Z.testbit (byte_val b) 7
  | None => false
  end.

(** The question count of the header, 0 when the header is cut short. *)
Definition question_count (buf : list byte) : Z :=
  default 0 (field16 buf 4).

(** ** Further vocabulary for the wire codec *)

(** The labels of a name: its segments between dots, the empty ones left
    out. *)
Definition labels_of (name : string) : list string :=
  List.filter (fun l => negb (slen l =? 0)) (Split name ".").


(** A query for the name "a", type CNAME, class IN. *)
Definition sample_query : list byte :=
  [x12; x34; x01; x00; x00; x01; x00; x00; x00; x00; x00; x00]
    ++ [x01; x61; x00; x00; x05; x00; x01].

(** ** dns.go: the upstream forwarder *)

Section Forwarder.

(** What the forwarder sees of the network, and [forwardTo]: one exchange
    with one upstream (dial, write the query, read one datagram within the
    deadline), which gives the datagram read, or nil on any error. *)
Variable Net : Type.
Variable forwardTo : Net -> list byte -> string -> Net * option (list byte).

Fixpoint forwardQuery (net : Net) (upstreams : list string)
         (query : list byte) : Net * option (list byte) :=
  match upstreams with
  | [] => (net, None)
  | upstream :: rest =>
      match forwardTo net query upstream with
      | (net', Some resp) => (net', Some resp)
      | (net', None) => forwardQuery net' rest query
      end
  end.

End Forwarder.

(** ** store.go: Update and Delete with their [save] *)

(** The errors of the mutating operations: [os.ErrNotExist], or the error
    of [save]. *)
Inductive store_error : Type :=
| ErrNotExist
| ErrSave.

(** [Update] with its call of [save]; [save] is not called when no record
    has the id, and the zero [Record] is returned then. *)
Definition UpdateAndSave (w : World) (id : Z) (domain rtype value : string)
           (io_ok : bool) : World * Record * option store_error :=
  match Update (store w) id domain rtype value with
  | None => (w, mkRecord 0 EmptyString EmptyString EmptyString,
             Some ErrNotExist)
  | Some (s', r') =>
      let '(d', ok) := save s' io_ok (disk w) in
      ({| store := s'; disk := d' |}, r',
       if ok : bool then None else Some ErrSave)
  end.

(** [Delete] with its call of [save]. *)
Definition DeleteAndSave (w : World) (id : Z) (io_ok : bool)
  : World * option store_error :=
  match Delete (store w) id with
  | None => (w, Some ErrNotExist)
  | Some s' =>
      let '(d', ok) := save s' io_ok (disk w) in
      ({| store := s'; disk := d' |},
       if ok : bool then None else Some ErrSave)
  end.

(** The store and its file after one mutation; [io_ok] tells whether the
    file can be written. *)
Definition apply_op_world (w : World) (o : op) (io_ok : bool) : World :=
  match o with
  | OpAdd r => fst (fst (AddAndSave w r io_ok))
  | OpUpdate id d t v => fst (fst (UpdateAndSave w id d t v io_ok))
  | OpDelete id => fst (DeleteAndSave w id io_ok)
  end.

Definition run_world (w : World) (steps : list (op * bool)) : World :=
  fold_left (fun w step => apply_op_world w (fst step) (snd step)) steps w.


(** The operation changes the records of the store. *)
Definition mutates (s : Store) (o : op) : bool :=
  match o with
  | OpAdd _ => true
  | OpUpdate id _ _ _ => existsb (fun r => ID r =? id) (records s)
  | OpDelete id => existsb (fun r => ID r =? id) (records s)
  end.

(** ** More of Go's [strings] package *)

(** The table [asciiSpace] of the package: tab, line feed, vertical tab,
    form feed, carriage return and space. *)
Definition is_space (c : ascii) : bool :=
  let n := Z.of_N (N_of_ascii c) in
  ((9 <=? n) && (n <=? 13)) || (n =? 32).

(** The second loop of [strings.TrimSpace] drops the bytes of [asciiSpace]
    from the end. *)
Fixpoint TrimRightSpace (s : string) : string :=
  match s with
  | EmptyString => EmptyString
  | String a s' =>
      match TrimRightSpace s' with
      | EmptyString => if is_space a then EmptyString else String a EmptyString
      | t => String a t
      end
  end.

(** The last byte of the string is 128 or more. *)
Fixpoint ends_outside_ascii (s : string) : bool :=
  match s with
  | EmptyString => false
  | String c EmptyString => negb (is_ascii_byte c)
  | String _ s' => ends_outside_ascii s'
  end.

(** Where that loop stops on a byte of 128 or more, it hands what is left
    to [TrimRightFunc]. *)
Definition trim_end (s : string) : string :=
  let t := TrimRightSpace s in
  if ends_outside_ascii t then TrimRightFunc_IsSpace t else t.

(** [strings.TrimSpace]: the first loop skips the bytes of [asciiSpace] at
    the start, and hands the rest to [TrimFunc] if it meets a byte of 128 or
    more; then comes the loop from the end. *)
Fixpoint TrimSpace (s : string) : string :=
  match s with
  | EmptyString => EmptyString
  | String c s' =>
      if negb (is_ascii_byte c) then TrimFunc_IsSpace s
      else if is_space c then TrimSpace s'
      else trim_end s
  end.

(** [strings.HasPrefix]. *)
Fixpoint HasPrefix (s prefix : string) {struct prefix} : bool :=
  match prefix with
  | EmptyString => true
  | String p prefix' =>
      match s with
      | EmptyString => false
      | String c s' => Ascii.eqb c p && HasPrefix s' prefix'
      end
  end.

(** [s[n:]] for [n] within the string. *)
Fixpoint string_from (n : nat) (s : string) : string :=
  match n, s with
  | O, _ => s
  | S n', String _ s' => string_from n' s'
  | S _, EmptyString => EmptyString
  end.

(** [strings.TrimPrefix]. *)
Definition TrimPrefix (s prefix : string) : string :=
  if HasPrefix s prefix then string_from (String.length prefix) s else s.

(** [strings.Fields]: on a string whose bytes are all below 128, the maximal
    runs of bytes that are not in [asciiSpace] ([cur] is the field being
    read, if any); [FieldsFunc] on any other string. *)
Fixpoint fields_go (s : string) (cur : option string) : list string :=
  match s with
  | EmptyString =>
      match cur with
      | None => []
      | Some f => [f]
      end
  | String c s' =>
      if is_space c then
        match cur with
        | None => fields_go s' None
        | Some f => f :: fields_go s' None
        end
      else
        fields_go s' (Some (default EmptyString cur +:+ String c EmptyString))
  end.

Definition Fields (s : string) : list string :=
  if isASCII s then fields_go s None else FieldsFunc_IsSpace s.

(** ** web.go: validation and the handlers of the management API *)

(** What a handler writes: the status code, the [Content-Type] header if it
    sets one, and the JSON value that it encodes, if any. *)
Inductive Body : Type :=
| NoBody
| ErrorBody (msg : string)
| RecordBody (r : Record)
| RecordsBody (rs : list Record).

Record Response : Type := mkResponse {
  status : Z;
  content_type : option string;
  body : Body
}.

Definition jsonError (msg : string) (code : Z) : Response :=
  {| status := code; content_type := Some "application/json"%string;
     body := ErrorBody msg |}.

(** [ip == nil] for a [net.IP]. *)
Definition is_nil (ip : option (list byte)) : bool :=
  match ip with
  | None => true
  | Some _ => false
  end.

Section Validation.

Variable ParseIP : string -> option (list byte).

(** [validateRecord] rewrites the fields of the record through its pointer
    and returns an error message, empty when the record is accepted. *)
Definition validateRecord (r : Record) : Record * string :=
  let r := {| ID := ID r;
              Domain := TrimSpace (Domain r);
              Type_ := ToUpper (TrimSpace (Type_ r));
              Value := TrimSpace (Value r) |} in
  if String.eqb (Domain r) EmptyString then (r, "domain is required"%string)
  else if String.eqb (Value r) EmptyString then
    (r, "value is required"%string)
  else if String.eqb (Type_ r) "A" then
    let ip := ParseIP (Value r) in
    if is_nil ip || is_nil (To4 ip)
    then (r, "invalid IPv4 address"%string)
    else (r, EmptyString)
  else if String.eqb (Type_ r) "AAAA" then
    let ip := ParseIP (Value r) in
    if is_nil ip || negb (is_nil (To4 ip))
    then (r, "invalid IPv6 address"%string)
    else (r, EmptyString)
  else if String.eqb (Type_ r) "CNAME" then
    if has_char " " (Value r) || has_char "009" (Value r)
    then (r, "invalid CNAME target"%string)
    else (r, EmptyString)
  else (r, "type must be A, AAAA, or CNAME"%string).

(** [Store.List]: a copy of the records. *)
Definition List (s : Store) : list Record := records s.

Definition handleList (w : World) : World * Response :=
  (w, {| status := 200; content_type := Some "application/json"%string;
         body := RecordsBody (List (store w)) |}).

(** [decoded] is the record that the JSON decoder makes of the body of
    the request, [None] when it reports an error; [io_ok] tells whether
    the backing file can be written. *)
Definition handleCreate (w : World) (decoded : option Record)
           (io_ok : bool) : World * Response :=
  match decoded with
  | None => (w, jsonError "invalid JSON" 400)
  | Some rec =>
      let '(rec, err) := validateRecord rec in
      if negb (String.eqb err EmptyString) then (w, jsonError err 400)
      else
        let '(w', created, ok) := AddAndSave w rec io_ok in
        if negb ok then (w', jsonError "failed to save" 500)
        else
          (w', {| status := 201;
                  content_type := Some "application/json"%string;
                  body := RecordBody created |})
  end.

(** [errors.Is(err, os.ErrNotExist)] on the error of [Update] or
    [Delete]: true for the error that reports a missing id, and for an
    error of [save] that wraps "no such file or directory", which
    [enoent] tells. *)
Definition is_not_exist (e : store_error) (enoent : bool) : bool :=
  match e with
  | ErrNotExist => true
  | ErrSave => enoent
  end.

(** [id_text] is the [{id}] segment of the path. *)
Definition handleUpdate (w : World) (id_text : string)
           (decoded : option Record) (io_ok enoent : bool)
  : World * Response :=
  match Atoi id_text with
  | None => (w, jsonError "invalid id" 400)
  | Some id =>
      match decoded with
      | None => (w, jsonError "invalid JSON" 400)
      | Some rec =>
          let '(rec, err) := validateRecord rec in
          if negb (String.eqb err EmptyString) then (w, jsonError err 400)
          else
            let '(w', updated, saveErr) :=
              UpdateAndSave w id (Domain rec) (Type_ rec) (Value rec)
                            io_ok in
            match saveErr with
            | Some e =>
                if is_not_exist e enoent
                then (w', jsonError "record not found" 404)
                else (w', jsonError "failed to save" 500)
            | None =>
                (w', {| status := 200;
                        content_type := Some "application/json"%string;
                        body := RecordBody updated |})
            end
      end
  end.

Definition handleDelete (w : World) (id_text : string)
           (io_ok enoent : bool) : World * Response :=
  match Atoi id_text with
  | None => (w, jsonError "invalid id" 400)
  | Some id =>
      match DeleteAndSave w id io_ok with
      | (w', Some e) =>
          if is_not_exist e enoent
          then (w', jsonError "record not found" 404)
          else (w', jsonError "failed to save" 500)
      | (w', None) =>
          (w', {| status := 204; content_type := None; body := NoBody |})
      end
  end.

(** A request to one of the three handlers that change the store. *)
Inductive api_call : Type :=
| CreateCall (decoded : option Record)
| UpdateCall (id_text : string) (decoded : option Record)
| DeleteCall (id_text : string).

Definition serve (w : World) (c : api_call) (io_ok enoent : bool)
  : World * Response :=
  match c with
  | CreateCall decoded => handleCreate w decoded io_ok
  | UpdateCall id_text decoded => handleUpdate w id_text decoded io_ok enoent
  | DeleteCall id_text => handleDelete w id_text io_ok enoent
  end.

End Validation.

(** ** auth.go: the bearer token *)

(** The parts of a request that [requireAuth] reads: the path of the URL
    and the value of the [Authorization] header, empty when there is none. *)
Record Request : Type := mkRequest {
  Path : string;
  Authorization : string
}.

Section Auth.

(** The state that the wrapped handler works on. *)
Variable State : Type.

Definition requireAuth (token : string)
           (next : Request -> State -> State * Response)
           (r : Request) (st : State) : State * Response :=
  if negb (HasPrefix (Path r) "/api/") then next r st
  else
    let auth := Authorization r in
    if negb (HasPrefix auth "Bearer ")
       || negb (String.eqb (TrimPrefix auth "Bearer ") token)
    then (st, {| status := 401;
                 content_type := Some "application/json"%string;
                 body := ErrorBody "unauthorized" |})
    else next r st.

End Auth.

(** [hex.EncodeToString]. *)
Definition hextable : string := "0123456789abcdef".

Definition hex_digit (n : Z) : ascii :=
  match String.get (Z.to_nat n) hextable with
  | Some c => c
  | None => "0"%char
  end.

Fixpoint EncodeToString (src : list byte) : string :=
  match src with
  | [] => EmptyString
  | v :: rest =>
      String (hex_digit (Z.shiftr (byte_val v) 4))
        (String (hex_digit (Z.land (byte_val v) 15)) (EncodeToString rest))
  end.

(** [loadOrCreateToken]: the token file after the call and the token, or
    [None] for the error return.  [random] is what [rand.Read] puts into
    the 32-byte buffer, [None] when it fails; [write_ok] tells whether the
    token file can be written. *)
Definition loadOrCreateToken (f : file_state) (random : option (list byte))
           (write_ok : bool) : option (file_state * string) :=
  let generate :=
    match random with
    | None => None
    | Some b =>
        let token := EncodeToString b in
        if write_ok
        then Some (Contents (token +:+ String "010" EmptyString), token)
        else None
    end in
  match f with
  | Contents data =>
      let token := TrimSpace data in
      if 0 <? slen token then Some (f, token) else generate
  | _ => generate
  end.

(** ** dns.go: the upstream servers *)

(** [net.JoinHostPort]: a host with a colon is put in brackets. *)
Definition JoinHostPort (host port : string) : string :=
  if has_char ":" host
  then String "[" (host +:+ String "]" (String ":" port))
  else host +:+ String ":" port.

(** [getLocalIPs]: [ifaces] is what [net.Interfaces] returns, [None] for
    its error; each interface gives the texts of its addresses, [None] when
    [Addrs] fails. *)
Definition getLocalIPs (ifaces : option (list (option (list string))))
  : gset string :=
  let ips : gset string := {[ "127.0.0.1"%string; "::1"%string ]} in
  match ifaces with
  | None => ips
  | Some ifaces =>
      fold_left
        (fun ips iface =>
           match iface with
           | None => ips
           | Some addrs => fold_left (fun ips a => ips ∪ {[ a ]}) addrs ips
           end)
        ifaces ips
  end.

(** The loop of [parseResolvConf] over the lines of one file. *)
Definition resolv_line (localIPs : gset string) (servers : list string)
           (line : string) : list string :=
  let line := TrimSpace line in
  if negb (HasPrefix line "nameserver") then servers
  else
    match Fields line with
    | _ :: ip :: _ =>
        if bool_decide (ip ∈ localIPs) then servers
        else servers ++ [JoinHostPort ip "53"]
    | _ => servers
    end.

(** The loop over the paths: [files] are the two configuration files, in
    the order of the source. *)
Fixpoint resolv_files (localIPs : gset string) (files : list file_state)
         (servers : list string) : list string :=
  match files with
  | [] => servers
  | f :: rest =>
      match f with
      | Contents data =>
          let servers :=
            fold_left (resolv_line localIPs) (Split data "010") servers in
          if 0 <? len servers then servers
          else resolv_files localIPs rest servers
      | _ => resolv_files localIPs rest servers
      end
  end.

Definition parseResolvConf (ifaces : option (list (option (list string))))
           (etc_resolv systemd_resolv : file_state) : list string :=
  let localIPs := getLocalIPs ifaces in
  let servers := resolv_files localIPs [etc_resolv; systemd_resolv] [] in
  if len servers =? 0 then ["8.8.8.8:53"%string; "1.1.1.1:53"%string]
  else servers.

(** * Properties *)

(** ** Bytes and slices *)

Lemma byte_val_range (b : byte) : 0 <= byte_val b < 256.
Proof.
  unfold byte_val. pose proof (Byte.to_N_bounded b). lia.
Qed.

Lemma byte_val_of_Z (z : Z) : byte_val (byte_of_Z z) = z mod 256.
Proof.
  unfold byte_val, byte_of_Z.
  assert (Hr : 0 <= z mod 256 < 256) by (apply Z.mod_pos_bound; lia).
  destruct (Byte.of_N (Z.to_N (z mod 256))) as [b|] eqn:E.
  - apply Byte.to_of_N in E. rewrite E. lia.
  - apply Byte.of_N_None_iff in E. lia.
Qed.

Lemma index_at_Some (buf : list byte) (i : Z) (b : byte) :
  index_at buf i = Some b -> 0 <= i < len buf.
Proof.
  unfold index_at, len. destruct (Z.ltb_spec i 0); [discriminate|].
  intros H0. apply lookup_lt_Some in H0. lia.
Qed.

Lemma index_at_app_r (pre suf : list byte) (i : Z) :
  0 <= i -> index_at (pre ++ suf) (len pre + i) = index_at suf i.
Proof.
  intros Hi. unfold index_at, len.
  destruct (Z.ltb_spec (Z.of_nat (length pre) + i) 0); [lia|].
  destruct (Z.ltb_spec i 0); [lia|].
  replace (Z.to_nat (Z.of_nat (length pre) + i))
    with (length pre + Z.to_nat i)%nat by lia.
  rewrite lookup_app_r by lia. f_equal. lia.
Qed.

Lemma slice_app_r (pre suf : list byte) (lo hi : Z) :
  0 <= lo -> slice (pre ++ suf) (len pre + lo) (len pre + hi) = slice suf lo hi.
Proof.
  intros Hlo. unfold slice, len.
  replace (Z.of_nat (length pre) + hi - (Z.of_nat (length pre) + lo))
    with (hi - lo) by lia.
  replace (Z.to_nat (Z.of_nat (length pre) + lo))
    with (length pre + Z.to_nat lo)%nat by lia.
  now rewrite drop_app_add.
Qed.

Lemma slice_prefix (l rest : list byte) :
  slice (l ++ rest) 0 (len l) = l.
Proof.
  unfold slice, len. rewrite Z.sub_0_r, Nat2Z.id.
  change (Z.to_nat 0) with 0%nat. rewrite drop_0.
  apply take_app_length.
Qed.

(** ** parseDNSName: termination *)

Lemma parse_iter_progress (buf : list byte) (st st' : pstate) :
  parse_iter buf st = Next st' ->
  (maxJumps st' = maxJumps st - 1 /\ 0 <= offset st') \/
  (maxJumps st' = maxJumps st /\ offset st < offset st' <= len buf).
Proof.
  unfold parse_iter.
  destruct (Z.leb_spec (len buf) (offset st)); [discriminate|].
  destruct (index_at buf (offset st)) as [b|] eqn:Eb; [|discriminate].
  pose proof (byte_val_range b) as Hb.
  destruct (Z.eqb_spec (byte_val b) 0); [discriminate|].
  destruct (Z.eqb_spec (Z.land (byte_val b) 192) 192).
  - destruct (Z.leb_spec (len buf) (offset st + 1)); [discriminate|].
    destruct (index_at buf (offset st + 1)) as [b1|]; [|discriminate].
    intros [= <-]. simpl. left. split; [reflexivity|].
    pose proof (byte_val_range b1).
    apply Z.lor_nonneg. split; [|lia].
    apply Z.shiftl_nonneg. apply Z.land_nonneg. lia.
  - destruct (Z.ltb_spec (len buf) (offset st + 1 + byte_val b)); [discriminate|].
    intros [= <-]. simpl. right. lia.
Qed.

Lemma parse_loop_enough_fuel (buf : list byte) (fuel : nat) (st : pstate) :
  0 <= maxJumps st ->
  parse_measure buf st < Z.of_nat fuel ->
  parse_loop fuel buf st <> OutOfFuel.
Proof.
  revert st. induction fuel as [|f IH]; intros st Hm Hlt.
  - simpl. destruct (Z.leb_spec (maxJumps st) 0); [discriminate|].
    unfold parse_measure, len in Hlt. nia.
  - simpl. destruct (Z.leb_spec (maxJumps st) 0); [discriminate|].
    destruct (parse_iter buf st) as [st'| | |] eqn:E; try discriminate.
    apply parse_iter_progress in E. apply IH.
    + lia.
    + unfold parse_measure, len in *. nia.
Qed.

Lemma parse_loop_more_fuel (buf : list byte) (n k : nat) (st : pstate) :
  parse_loop n buf st <> OutOfFuel ->
  parse_loop (n + k) buf st = parse_loop n buf st.
Proof.
  revert st. induction n as [|n IH]; intros st H.
  - simpl in *. destruct (Z.leb_spec (maxJumps st) 0); [|congruence].
    destruct k; simpl; destruct (Z.leb_spec (maxJumps st) 0); auto; lia.
  - simpl in *. destruct (maxJumps st <=? 0); [reflexivity|].
    destruct (parse_iter buf st); auto.
Qed.

Lemma parse_loop_fuel_irrelevant (buf : list byte) (n m : nat) (st : pstate) :
  parse_loop n buf st <> OutOfFuel ->
  parse_loop m buf st <> OutOfFuel ->
  parse_loop n buf st = parse_loop m buf st.
Proof.
  intros Hn Hm. destruct (Nat.le_ge_cases n m) as [Hle|Hle].
  - replace m with (n + (m - n))%nat by lia.
    symmetry. now apply parse_loop_more_fuel.
  - replace n with (m + (n - m))%nat by lia.
    now apply parse_loop_more_fuel.
Qed.

Lemma parse_init_enough_fuel (buf : list byte) (off : Z) (fuel : nat) :
  (parse_fuel buf <= fuel)%nat ->
  parse_loop fuel buf (parse_init off) <> OutOfFuel.
Proof.
  intros Hf. destruct (Z.ltb_spec off 0) as [Hneg|Hpos].
  - destruct fuel as [|f]; [unfold parse_fuel in Hf; lia|].
    simpl. unfold parse_iter. simpl.
    destruct (Z.leb_spec (len buf) off); [discriminate|].
    unfold index_at. destruct (Z.ltb_spec off 0); [discriminate|lia].
  - apply parse_loop_enough_fuel; simpl; [lia|].
    unfold parse_measure, parse_fuel, len in *. simpl. lia.
Qed.

Lemma parse_loop_no_panic (buf : list byte) (fuel : nat) (st : pstate) :
  0 <= offset st -> parse_loop fuel buf st <> Panic.
Proof.
  revert st. induction fuel as [|f IH]; intros st Hoff; simpl.
  - destruct (maxJumps st <=? 0); discriminate.
  - destruct (maxJumps st <=? 0); [discriminate|].
    destruct (parse_iter buf st) as [st'| | |] eqn:E; try discriminate.
    + apply IH. apply parse_iter_progress in E. lia.
    + exfalso. revert E. unfold parse_iter.
      destruct (Z.leb_spec (len buf) (offset st)); [discriminate|].
      unfold index_at at 1.
      destruct (Z.ltb_spec (offset st) 0); [lia|].
      destruct (buf !! Z.to_nat (offset st)) as [b|] eqn:Eb.
      2:{ apply lookup_ge_None in Eb. unfold len in *. lia. }
      destruct (byte_val b =? 0); [discriminate|].
      destruct (Z.land (byte_val b) 192 =? 192).
      * destruct (Z.leb_spec (len buf) (offset st + 1)); [discriminate|].
        unfold index_at.
        destruct (Z.ltb_spec (offset st + 1) 0); [lia|].
        destruct (buf !! Z.to_nat (offset st + 1)) as [b1|] eqn:Eb1;
          [discriminate|].
        apply lookup_ge_None in Eb1. unfold len in *. lia.
      * destruct (len buf <? offset st + 1 + byte_val b); discriminate.
Qed.

(** The counter only goes down, one jump at a time, and never below zero. *)
Lemma parse_loop_jumps_bounded (buf : list byte) (fuel : nat)
      (st st' : pstate) :
  0 <= maxJumps st ->
  parse_loop fuel buf st = Done (Some st') ->
  0 <= maxJumps st' <= maxJumps st.
Proof.
  revert st. induction fuel as [|f IH]; intros st Hm; simpl.
  - destruct (maxJumps st <=? 0); [|discriminate]. intros [= <-]. lia.
  - destruct (Z.leb_spec (maxJumps st) 0); [intros [= <-]; lia|].
    destruct (parse_iter buf st) as [st1|st1| |] eqn:E; try discriminate.
    + intros Hrun. apply parse_iter_progress in E.
      apply IH in Hrun; lia.
    + intros [= <-]. revert E. unfold parse_iter.
      destruct (len buf <=? offset st); [discriminate|].
      destruct (index_at buf (offset st)) as [b|]; [|discriminate].
      destruct (byte_val b =? 0); [intros [= <-]; simpl; lia|].
      destruct (Z.land (byte_val b) 192 =? 192).
      * destruct (len buf <=? offset st + 1); [discriminate|].
        destruct (index_at buf (offset st + 1)); discriminate.
      * destruct (len buf <? offset st + 1 + byte_val b); discriminate.
Qed.

(** ** parseDNSName on a well-formed name *)

Lemma parse_iter_end (buf : list byte) (st : pstate) (b : byte) :
  index_at buf (offset st) = Some b ->
  byte_val b = 0 ->
  parse_iter buf st =
    Break {| parts := parts st; jumped := jumped st;
             returnOffset := if jumped st then returnOffset st
                             else offset st + 1;
             maxJumps := maxJumps st; offset := offset st |}.
Proof.
  intros Hb H0. unfold parse_iter.
  pose proof (index_at_Some _ _ _ Hb).
  destruct (Z.leb_spec (len buf) (offset st)); [lia|].
  rewrite Hb, H0. reflexivity.
Qed.

Lemma parse_iter_label (buf : list byte) (st : pstate) (b : byte) :
  index_at buf (offset st) = Some b ->
  byte_val b <> 0 ->
  Z.land (byte_val b) 192 <> 192 ->
  offset st + 1 + byte_val b <= len buf ->
  parse_iter buf st =
    Next {| parts := parts st ++
              [string_of_list_byte
                 (slice buf (offset st + 1) (offset st + 1 + byte_val b))];
            jumped := jumped st; returnOffset := returnOffset st;
            maxJumps := maxJumps st;
            offset := offset st + 1 + byte_val b |}.
Proof.
  intros Hb H0 Hp Hle. unfold parse_iter.
  pose proof (index_at_Some _ _ _ Hb).
  destruct (Z.leb_spec (len buf) (offset st)); [lia|].
  rewrite Hb.
  destruct (Z.eqb_spec (byte_val b) 0); [lia|].
  destruct (Z.eqb_spec (Z.land (byte_val b) 192) 192); [lia|].
  destruct (Z.ltb_spec (len buf) (offset st + 1 + byte_val b)); [lia|].
  reflexivity.
Qed.

Lemma parse_iter_pointer (buf : list byte) (st : pstate) (b b1 : byte) :
  index_at buf (offset st) = Some b ->
  Z.land (byte_val b) 192 = 192 ->
  index_at buf (offset st + 1) = Some b1 ->
  parse_iter buf st =
    Next {| parts := parts st; jumped := true;
            returnOffset := if jumped st then returnOffset st
                            else offset st + 2;
            maxJumps := maxJumps st - 1;
            offset := pointer_target b b1 |}.
Proof.
  intros Hb Hp Hb1. unfold parse_iter.
  pose proof (index_at_Some _ _ _ Hb).
  pose proof (index_at_Some _ _ _ Hb1).
  destruct (Z.leb_spec (len buf) (offset st)); [lia|].
  rewrite Hb.
  destruct (Z.eqb_spec (byte_val b) 0) as [E|E].
  { rewrite E in Hp. discriminate Hp. }
  destruct (Z.eqb_spec (Z.land (byte_val b) 192) 192); [|lia].
  destruct (Z.leb_spec (len buf) (offset st + 1)); [lia|].
  rewrite Hb1. reflexivity.
Qed.

(** With jumps to spare, the loop reads the whole name. *)
Lemma parse_loop_name (buf : list byte) (off : Z) (j : nat)
      (ps : list string) (e : Z) :
  name_at buf off j ps e ->
  forall st : pstate,
    offset st = off ->
    Z.of_nat j < maxJumps st ->
    exists (n : nat) (st' : pstate),
      parse_loop n buf st = Done (Some st') /\
      parts st' = parts st ++ ps /\
      maxJumps st' = maxJumps st - Z.of_nat j /\
      returnOffset st' = if jumped st then returnOffset st else e.
Proof.
  induction 1 as [off b Hb H0
                 |off b j ps e Hb H0 Hp Hle Hrest IH
                 |off b b1 j ps e Hb Hp Hb1 Hrest IH];
    intros st Hoff Hj; subst off.
  - exists 1%nat. eexists. simpl.
    destruct (Z.leb_spec (maxJumps st) 0); [lia|].
    rewrite (parse_iter_end _ _ _ Hb H0).
    split; [reflexivity|]. simpl.
    rewrite app_nil_r. repeat split; lia.
  - pose proof (parse_iter_label _ _ _ Hb H0 Hp Hle) as Hit.
    match type of Hit with _ = Next ?s1 =>
      destruct (IH s1) as (n & st' & Hrun & Hparts & Hmax & Hret);
        [reflexivity|simpl; lia|]
    end.
    exists (S n), st'. simpl.
    destruct (Z.leb_spec (maxJumps st) 0); [lia|].
    rewrite Hit. split; [exact Hrun|].
    rewrite Hparts, Hmax, Hret. simpl.
    rewrite <- app_assoc. auto.
  - pose proof (parse_iter_pointer _ _ _ _ Hb Hp Hb1) as Hit.
    match type of Hit with _ = Next ?s1 =>
      destruct (IH s1) as (n & st' & Hrun & Hparts & Hmax & Hret);
        [reflexivity|simpl; lia|]
    end.
    exists (S n), st'. simpl.
    destruct (Z.leb_spec (maxJumps st) 0); [lia|].
    rewrite Hit. split; [exact Hrun|].
    rewrite Hparts, Hmax, Hret. simpl.
    split; [reflexivity|split; [lia|now destruct (jumped st)]].
Qed.

(** Without, the loop stops on its condition with the counter at zero. *)
Lemma parse_loop_exhausted (buf : list byte) (off : Z) (j : nat)
      (ps : list string) (e : Z) :
  name_at buf off j ps e ->
  forall st : pstate,
    offset st = off ->
    0 <= maxJumps st <= Z.of_nat j ->
    exists (n : nat) (st' : pstate),
      parse_loop n buf st = Done (Some st') /\ maxJumps st' = 0.
Proof.
  assert (Hstop : forall st : pstate, maxJumps st <= 0 -> 0 <= maxJumps st ->
            exists (n : nat) (st' : pstate),
              parse_loop n buf st = Done (Some st') /\ maxJumps st' = 0).
  { intros st Hz Hm. exists 0%nat, st. simpl.
    destruct (Z.leb_spec (maxJumps st) 0); [|lia]. split; [reflexivity|lia]. }
  induction 1 as [off b Hb H0
                 |off b j ps e Hb H0 Hp Hle Hrest IH
                 |off b b1 j ps e Hb Hp Hb1 Hrest IH];
    intros st Hoff Hj; subst off.
  - apply Hstop; lia.
  - destruct (Z.leb_spec (maxJumps st) 0) as [Hz|Hz]; [apply Hstop; lia|].
    pose proof (parse_iter_label _ _ _ Hb H0 Hp Hle) as Hit.
    match type of Hit with _ = Next ?s1 =>
      destruct (IH s1) as (n & st' & Hrun & Hmax); [reflexivity|simpl; lia|]
    end.
    exists (S n), st'. simpl.
    destruct (Z.leb_spec (maxJumps st) 0); [lia|].
    rewrite Hit. auto.
  - destruct (Z.leb_spec (maxJumps st) 0) as [Hz|Hz]; [apply Hstop; lia|].
    pose proof (parse_iter_pointer _ _ _ _ Hb Hp Hb1) as Hit.
    match type of Hit with _ = Next ?s1 =>
      destruct (IH s1) as (n & st' & Hrun & Hmax); [reflexivity|simpl; lia|]
    end.
    exists (S n), st'. simpl.
    destruct (Z.leb_spec (maxJumps st) 0); [lia|].
    rewrite Hit. auto.
Qed.

(** Any run of the loop that ends settles what [parseDNSName] returns. *)
Lemma parseDNSName_of_run (buf : list byte) (off : Z) (n : nat)
      (r : option pstate) :
  parse_loop n buf (parse_init off) = Done r ->
  parseDNSName buf off = parse_finish (Done r).
Proof.
  intros Hrun. unfold parseDNSName, parseDNSName_fuel. f_equal.
  rewrite <- Hrun. apply parse_loop_fuel_irrelevant.
  - now apply parse_init_enough_fuel.
  - rewrite Hrun. discriminate.
Qed.

Lemma parseDNSName_name (buf : list byte) (off : Z) (j : nat)
      (ps : list string) (e : Z) :
  name_at buf off j ps e ->
  (j < 10)%nat ->
  parseDNSName buf off = Done (Join ps ".", e).
Proof.
  intros Hname Hj.
  destruct (parse_loop_name _ _ _ _ _ Hname (parse_init off))
    as (n & st' & Hrun & Hparts & Hmax & Hret); [reflexivity|simpl; lia|].
  rewrite (parseDNSName_of_run _ _ _ _ Hrun). simpl in *.
  destruct (Z.eqb_spec (maxJumps st') 0); [lia|].
  now rewrite Hparts, Hret.
Qed.

Lemma parseDNSName_too_many_jumps (buf : list byte) (off : Z) (j : nat)
      (ps : list string) (e : Z) :
  name_at buf off j ps e ->
  (10 <= j)%nat ->
  parseDNSName buf off = Done (EmptyString, -1).
Proof.
  intros Hname Hj.
  destruct (parse_loop_exhausted _ _ _ _ _ Hname (parse_init off))
    as (n & st' & Hrun & Hmax); [reflexivity|simpl; lia|].
  rewrite (parseDNSName_of_run _ _ _ _ Hrun). simpl.
  now rewrite Hmax.
Qed.

(** ** parseDNSName on a pointer chain that points to itself *)

Lemma follow_add (buf : list byte) (a b : nat) (off : Z) :
  follow buf (a + b) off =
    match follow buf a off with
    | None => None
    | Some o => follow buf b o
    end.
Proof.
  revert off. induction a as [|a IH]; intros off; simpl; [reflexivity|].
  destruct (next_offset buf off); [apply IH|reflexivity].
Qed.

Lemma follow_cycle_endless (buf : list byte) (k : nat) (o : Z) :
  follow buf (S k) o = Some o ->
  forall m : nat, follow buf m o <> None.
Proof.
  intros Hcyc m. induction m as [m IH] using lt_wf_ind.
  destruct (Nat.le_gt_cases m (S k)) as [Hle|Hgt].
  - intros Hnone. replace (S k) with (m + (S k - m))%nat in Hcyc by lia.
    rewrite follow_add, Hnone in Hcyc. discriminate.
  - replace m with (S k + (m - S k))%nat by lia.
    rewrite follow_add, Hcyc. apply IH. lia.
Qed.

Lemma follow_reach_endless (buf : list byte) (n : nat) (off o : Z) :
  follow buf n off = Some o ->
  (forall m : nat, follow buf m o <> None) ->
  forall m : nat, follow buf m off <> None.
Proof.
  intros Hreach Hend m.
  destruct (Nat.le_gt_cases m n) as [Hle|Hgt].
  - intros Hnone. replace n with (m + (n - m))%nat in Hreach by lia.
    rewrite follow_add, Hnone in Hreach. discriminate.
  - replace m with (n + (m - n))%nat by lia.
    rewrite follow_add, Hreach. apply Hend.
Qed.

(** The next offset does not depend on the other variables of the loop. *)
Lemma parse_iter_next_offset (buf : list byte) (st : pstate) (o : Z) :
  next_offset buf (offset st) = Some o ->
  exists st' : pstate,
    parse_iter buf st = Next st' /\ offset st' = o /\
    maxJumps st - 1 <= maxJumps st' <= maxJumps st.
Proof.
  unfold next_offset, parse_iter. simpl.
  destruct (len buf <=? offset st); [discriminate|].
  destruct (index_at buf (offset st)) as [b|]; [|discriminate].
  destruct (byte_val b =? 0); [discriminate|].
  destruct (Z.land (byte_val b) 192 =? 192).
  - destruct (len buf <=? offset st + 1); [discriminate|].
    destruct (index_at buf (offset st + 1)) as [b1|]; [|discriminate].
    intros [= <-]. eexists. split; [reflexivity|]. simpl. lia.
  - destruct (len buf <? offset st + 1 + byte_val b); [discriminate|].
    intros [= <-]. eexists. split; [reflexivity|]. simpl. lia.
Qed.

Lemma parse_loop_endless (buf : list byte) (fuel : nat) (st : pstate) :
  (forall m : nat, follow buf m (offset st) <> None) ->
  0 <= maxJumps st ->
  parse_loop fuel buf st = OutOfFuel \/
  exists st' : pstate,
    parse_loop fuel buf st = Done (Some st') /\ maxJumps st' = 0.
Proof.
  revert st. induction fuel as [|f IH]; intros st Hend Hmax; simpl.
  - destruct (Z.leb_spec (maxJumps st) 0); [|now left].
    right. exists st. split; [reflexivity|lia].
  - destruct (Z.leb_spec (maxJumps st) 0).
    { right. exists st. split; [reflexivity|lia]. }
    destruct (next_offset buf (offset st)) as [o|] eqn:En.
    2:{ exfalso. apply (Hend 1%nat). simpl. now rewrite En. }
    destruct (parse_iter_next_offset _ _ _ En) as (st' & Hit & Hoff & Hm).
    rewrite Hit. apply IH; [|lia].
    intros m Hnone. apply (Hend (S m)). simpl. rewrite En. now rewrite <- Hoff.
Qed.

Lemma parseDNSName_points_to_itself (buf : list byte) (off : Z) :
  points_to_itself buf off ->
  parseDNSName buf off = Done (EmptyString, -1).
Proof.
  intros (n & k & o & Hreach & Hcyc).
  assert (Hend : forall m : nat, follow buf m off <> None).
  { eapply follow_reach_endless; [exact Hreach|].
    eapply follow_cycle_endless; exact Hcyc. }
  unfold parseDNSName, parseDNSName_fuel.
  destruct (parse_loop_endless buf (parse_fuel buf) (parse_init off))
    as [Hout|(st' & Hrun & Hmax)]; [exact Hend|simpl; lia| |].
  - exfalso. revert Hout. now apply parse_init_enough_fuel.
  - rewrite Hrun. simpl. now rewrite Hmax.
Qed.

(** [ten_pointers] holds a name that takes exactly ten jumps. *)
Lemma ten_pointers_name : name_at ten_pointers 0 10 [] 2.
Proof.
  eapply (name_pointer _ 0 xc0 x02); try reflexivity.
  eapply (name_pointer _ 2 xc0 x04); try reflexivity.
  eapply (name_pointer _ 4 xc0 x06); try reflexivity.
  eapply (name_pointer _ 6 xc0 x08); try reflexivity.
  eapply (name_pointer _ 8 xc0 x0a); try reflexivity.
  eapply (name_pointer _ 10 xc0 x0c); try reflexivity.
  eapply (name_pointer _ 12 xc0 x0e); try reflexivity.
  eapply (name_pointer _ 14 xc0 x10); try reflexivity.
  eapply (name_pointer _ 16 xc0 x12); try reflexivity.
  eapply (name_pointer _ 18 xc0 x14); try reflexivity.
  eapply (name_end _ 20 x00); reflexivity.
Qed.

(** ** parseDNSName: termination and the limit on jumps *)

(** C1 (amended): [parseDNSName] terminates on every buffer and start offset
    (the fuel [parse_fuel] is always enough, more fuel changes nothing, and
    from a non-negative offset it returns); on a pointer chain that leads
    back to itself it returns the decode error (empty name, -1); and the
    loop gives up once ten jumps have been taken: the jump counter stays
    between 0 and 10, a well-formed name that needs fewer than ten jumps is
    decoded, one that needs ten or more is a decode error. *)
Theorem parseDNSName_terminates_and_bounds_jumps :
  forall (buf : list byte) (off : Z),
    (parseDNSName buf off <> OutOfFuel /\
     (forall fuel : nat, (parse_fuel buf <= fuel)%nat ->
        parseDNSName_fuel fuel buf off = parseDNSName buf off) /\
     (0 <= off -> exists r : string * Z, parseDNSName buf off = Done r)) /\
    (forall (fuel : nat) (st : pstate),
        parse_loop fuel buf (parse_init off) = Done (Some st) ->
        0 <= maxJumps st <= 10) /\
    (points_to_itself buf off ->
     parseDNSName buf off = Done (EmptyString, -1)) /\
    (forall (j : nat) (ps : list string) (e : Z),
        name_at buf off j ps e ->
        ((j < 10)%nat -> parseDNSName buf off = Done (Join ps ".", e)) /\
        ((10 <= j)%nat -> parseDNSName buf off = Done (EmptyString, -1))).
Proof.
  intros buf off.
  assert (Hfuel : forall fuel : nat, (parse_fuel buf <= fuel)%nat ->
            parse_loop fuel buf (parse_init off) <> OutOfFuel)
    by (intros; now apply parse_init_enough_fuel).
  assert (Hterm : parseDNSName buf off <> OutOfFuel).
  { unfold parseDNSName, parseDNSName_fuel.
    specialize (Hfuel (parse_fuel buf) (Nat.le_refl _)).
    destruct (parse_loop (parse_fuel buf) buf (parse_init off)) as [[st|]| |];
      simpl; try discriminate; [|congruence].
    destruct (maxJumps st =? 0); discriminate. }
  repeat split.
  - exact Hterm.
  - intros fuel Hle. unfold parseDNSName, parseDNSName_fuel. f_equal.
    apply parse_loop_fuel_irrelevant; auto.
  - intros Hoff.
    destruct (parseDNSName buf off) as [r| |] eqn:E; [now exists r| |congruence].
    exfalso. revert E. unfold parseDNSName, parseDNSName_fuel.
    pose proof (parse_loop_no_panic buf (parse_fuel buf) (parse_init off) Hoff)
      as Hnp.
    destruct (parse_loop (parse_fuel buf) buf (parse_init off)) as [[st|]| |];
      simpl; try discriminate; [|congruence].
    destruct (maxJumps st =? 0); discriminate.
  - eapply (parse_loop_jumps_bounded buf fuel (parse_init off) st);
      [simpl; lia|assumption].
  - eapply (parse_loop_jumps_bounded buf fuel (parse_init off) st);
      [simpl; lia|assumption].
  - apply parseDNSName_points_to_itself.
  - intros Hj. eapply parseDNSName_name; eauto.
  - intros Hj. eapply parseDNSName_too_many_jumps; eauto.
Qed.

(** ** encodeDNSName and the round trip *)

Lemma length_list_byte_of_string (s : string) :
  length (list_byte_of_string s) = String.length s.
Proof.
  unfold list_byte_of_string. rewrite length_map.
  induction s as [|c s IH]; simpl; auto.
Qed.

Lemma Split_no_sep (c : ascii) (l : string) :
  has_char c l = false -> Split l c = [l].
Proof.
  induction l as [|a l IH]; simpl; [reflexivity|].
  destruct (Ascii.eqb a c); simpl; [discriminate|].
  intros H. now rewrite IH.
Qed.

Lemma Split_app_sep (c : ascii) (l r : string) :
  has_char c l = false -> Split (l +:+ String c r) c = l :: Split r c.
Proof.
  induction l as [|a l IH]; simpl.
  - now rewrite Ascii.eqb_refl.
  - destruct (Ascii.eqb a c); simpl; [discriminate|].
    intros H. now rewrite IH.
Qed.

Lemma Split_Join (c : ascii) (ls : list string) :
  ls <> [] ->
  Forall (fun l => has_char c l = false) ls ->
  Split (Join ls (String c EmptyString)) c = ls.
Proof.
  intros Hne Hall. induction Hall as [|l ls Hl Hall IH]; [congruence|].
  destruct ls as [|l' ls'].
  - simpl. now apply Split_no_sep.
  - unfold Join in *.
    change (String.concat (String c EmptyString) (l :: l' :: ls'))
      with (l +:+ String c (String.concat (String c EmptyString) (l' :: ls'))).
    rewrite Split_app_sep by assumption. f_equal. now apply IH.
Qed.

Lemma encode_fold (ls : list string) (acc : list byte) :
  Forall (fun l => slen l <> 0) ls ->
  fold_left
    (fun buf part =>
       if slen part =? 0 then buf
       else (buf ++ [byte_of_Z (slen part)]) ++ list_byte_of_string part)
    ls acc = acc ++ encode_labels ls.
Proof.
  intros Hall. revert acc.
  induction Hall as [|l ls Hl Hall IH]; intros acc; simpl.
  - now rewrite app_nil_r.
  - destruct (Z.eqb_spec (slen l) 0); [contradiction|].
    rewrite IH. now rewrite <- !app_assoc.
Qed.

Lemma encodeDNSName_labels (ls : list string) :
  Forall is_label ls ->
  encodeDNSName (Join ls ".") = encode_labels ls ++ [x00].
Proof.
  intros Hall. unfold encodeDNSName. f_equal.
  destruct ls as [|l ls]; [reflexivity|].
  rewrite Split_Join; [|discriminate|].
  - rewrite encode_fold; [reflexivity|].
    eapply Forall_impl; [exact Hall|]. intros x [Hx _]. lia.
  - eapply Forall_impl; [exact Hall|]. now intros x [_ Hx].
Qed.

(** A length below 64 has neither of the two pointer bits. *)
Lemma land_192_small (x : Z) : 0 <= x < 64 -> Z.land x 192 = 0.
Proof.
  intros Hx. apply Z.bits_inj'. intros n Hn.
  rewrite Z.land_spec, Z.bits_0.
  destruct (Z.ltb_spec n 6).
  - replace (Z.testbit 192 n) with false; [apply andb_false_r|].
    assert (Hc : n = 0 \/ n = 1 \/ n = 2 \/ n = 3 \/ n = 4 \/ n = 5) by lia.
    destruct Hc as [->|[->|[->|[->|[->| ->]]]]]; reflexivity.
  - replace (Z.testbit x n) with false; [reflexivity|].
    symmetry. destruct (Z.eq_dec x 0) as [->|Hx0]; [apply Z.bits_0|].
    apply Z.bits_above_log2; [lia|].
    assert (Z.log2 x < 6) by (apply Z.log2_lt_pow2; lia). lia.
Qed.

Lemma name_at_encode_labels (ls : list string) (pre : list byte) :
  Forall is_label ls ->
  name_at (pre ++ encode_labels ls ++ [x00]) (len pre) 0 ls
          (len pre + len (encode_labels ls) + 1).
Proof.
  intros Hall. revert pre.
  induction Hall as [|l ls [Hlen Hdot] Hall IH]; intros pre.
  - simpl. replace (len pre + len (@nil byte) + 1) with (len pre + 1)
      by (unfold len; simpl; lia).
    apply (name_end _ _ x00); [|reflexivity].
    replace (len pre) with (len pre + 0) by lia.
    rewrite index_at_app_r by lia. reflexivity.
  - assert (Hbv : byte_val (byte_of_Z (slen l)) = slen l).
    { rewrite byte_val_of_Z. apply Z.mod_small. lia. }
    assert (Hpre : len (pre ++ byte_of_Z (slen l) :: list_byte_of_string l)
                   = len pre + 1 + slen l).
    { unfold len, slen. rewrite length_app. simpl.
      rewrite length_list_byte_of_string. lia. }
    assert (Hbuf : pre ++ encode_labels (l :: ls) ++ [x00] =
                   (pre ++ byte_of_Z (slen l) :: list_byte_of_string l)
                     ++ encode_labels ls ++ [x00]).
    { simpl. now rewrite <- !app_assoc. }
    assert (Hlbl : string_of_list_byte
                     (slice (pre ++ encode_labels (l :: ls) ++ [x00])
                            (len pre + 1)
                            (len pre + 1 + byte_val (byte_of_Z (slen l)))) = l).
    { rewrite Hbv. rewrite <- Z.add_assoc.
      rewrite slice_app_r by lia. simpl.
      unfold slice. replace (1 + slen l - 1) with (slen l) by lia.
      change (Z.to_nat 1) with 1%nat. simpl. rewrite drop_0.
      unfold slen. rewrite Nat2Z.id, <- length_list_byte_of_string.
      rewrite <- app_assoc, take_app_length.
      apply string_of_list_byte_of_string. }
    specialize (IH (pre ++ byte_of_Z (slen l) :: list_byte_of_string l)).
    rewrite <- Hbuf, Hpre in IH.
    replace (len pre + len (encode_labels (l :: ls)) + 1)
      with (len pre + 1 + slen l + len (encode_labels ls) + 1).
    2:{ unfold len, slen. simpl. rewrite length_app.
        rewrite length_list_byte_of_string. lia. }
    rewrite <- Hlbl at 2.
    apply (name_label _ _ (byte_of_Z (slen l))).
    + replace (len pre) with (len pre + 0) by lia.
      rewrite index_at_app_r by lia. reflexivity.
    + lia.
    + rewrite Hbv, land_192_small by lia. discriminate.
    + rewrite Hbv. unfold len in *. rewrite length_app. simpl.
      rewrite !length_app. rewrite length_list_byte_of_string.
      unfold slen. lia.
    + rewrite Hbv. exact IH.
Qed.

(** C2: for a name made of labels of 1 to 63 bytes joined by single dots,
    decoding the encoding at offset 0 gives the name back, together with the
    length of the encoding. *)
Theorem parseDNSName_encodeDNSName :
  forall ls : list string,
    Forall is_label ls ->
    parseDNSName (encodeDNSName (Join ls ".")) 0 =
      Done (Join ls ".", len (encodeDNSName (Join ls "."))).
Proof.
  intros ls Hall.
  rewrite (encodeDNSName_labels _ Hall).
  pose proof (name_at_encode_labels ls [] Hall) as Hname.
  change (len (@nil byte)) with 0 in Hname. rewrite app_nil_l in Hname.
  rewrite (parseDNSName_name _ _ _ _ _ Hname) by lia.
  do 2 f_equal. unfold len. rewrite length_app. simpl. lia.
Qed.

(** ** The domain index *)

Lemma rebuildIndex_fold_lookup (rs : list Record)
      (idx : gmap string (list Record)) (k : string) :
  default [] (fold_left
                (fun idx r =>
                   let key := ToLower (Domain r) in
                   <[key := default [] (idx !! key) ++ [r]]> idx)
                rs idx !! k)
  = default [] (idx !! k)
      ++ List.filter (fun r => String.eqb (ToLower (Domain r)) k) rs.
Proof.
  revert idx. induction rs as [|r rs IH]; intros idx; simpl.
  - now rewrite app_nil_r.
  - rewrite IH. destruct (String.eqb_spec (ToLower (Domain r)) k) as [->|Hne].
    + rewrite lookup_insert_eq. simpl. now rewrite <- app_assoc.
    + now rewrite lookup_insert_ne.
Qed.

Lemma rebuildIndex_lookup (rs : list Record) (k : string) :
  default [] (rebuildIndex rs !! k)
  = List.filter (fun r => String.eqb (ToLower (Domain r)) k) rs.
Proof.
  unfold rebuildIndex. rewrite rebuildIndex_fold_lookup.
  now rewrite lookup_empty.
Qed.

(** Every store that the program can hold has its index in step with its
    records. *)
Lemma NewStore_index (f : file_state) (s : Store) :
  NewStore f = Some s -> index s = rebuildIndex (records s).
Proof.
  unfold NewStore, load. destruct f as [| |data]; simpl.
  - now intros [= <-].
  - discriminate.
  - destruct (slen data =? 0); now intros [= <-].
Qed.

Lemma apply_op_index (s : Store) (o : op) :
  index s = rebuildIndex (records s) ->
  index (apply_op s o) = rebuildIndex (records (apply_op s o)).
Proof.
  intros Hs. destruct o as [r|id d t v|id]; simpl.
  - reflexivity.
  - unfold Update.
    destruct (update_first (records s) id d t v) as [[rs r']|]; auto.
  - unfold Delete. destruct (delete_first (records s) id); auto.
Qed.

Lemma apply_ops_index (ops : list op) (s : Store) :
  index s = rebuildIndex (records s) ->
  index (apply_ops s ops) = rebuildIndex (records (apply_ops s ops)).
Proof.
  revert s. induction ops as [|o ops IH]; intros s Hs; simpl; [exact Hs|].
  apply IH. now apply apply_op_index.
Qed.

Lemma Resolve_index_lookup (s : Store) (domain : string) :
  index s = rebuildIndex (records s) ->
  default [] (index s !! ToLower domain) = records_for s domain.
Proof.
  intros ->. apply rebuildIndex_lookup.
Qed.

Lemma len_zero_nil {A : Type} (l : list A) : len l = 0 <-> l = [].
Proof.
  unfold len. destruct l; simpl; split; intros H; try reflexivity;
    try discriminate; lia.
Qed.

(** What [Resolve] computes, in terms of the records of the domain. *)
Lemma Resolve_records_for (s : Store) (domain : string) (qtype : Z) :
  index s = rebuildIndex (records s) ->
  Resolve s domain qtype =
    let all := records_for s domain in
    if len all =? 0 then ([], false)
    else if qtype =? 255 then (all, true)
    else
      let result := List.filter (fun r => matchType (Type_ r) qtype) all in
      (if len result =? 0 then first_cname all else result, true).
Proof.
  intros Hs. unfold Resolve. now rewrite (Resolve_index_lookup _ _ Hs).
Qed.

Lemma first_cname_spec (all : list Record) :
  (exists c : Record, In c all /\ Type_ c = "CNAME"%string) ->
  exists c : Record,
    first_cname all = [c] /\ In c all /\ Type_ c = "CNAME"%string.
Proof.
  induction all as [|r rest IH]; intros (c & Hin & Hc); [destruct Hin|].
  simpl. destruct (String.eqb_spec (Type_ r) "CNAME") as [Hr|Hr].
  - exists r. auto.
  - destruct Hin as [->|Hin]; [contradiction|].
    destruct IH as (c' & H1 & H2 & H3); [now exists c|].
    exists c'. auto.
Qed.

(** C5: [Resolve] looks the domain up without regard to case; it returns the
    empty list and not-authoritative exactly when the store holds no record
    for the domain, and authoritative whenever it holds one, whatever the
    query type. *)
Theorem Resolve_authoritative :
  forall (f : file_state) (s0 : Store) (ops : list op)
         (domain : string) (qtype : Z),
    NewStore f = Some s0 ->
    let s := apply_ops s0 ops in
    (forall domain' : string,
        ToLower domain' = ToLower domain ->
        Resolve s domain' qtype = Resolve s domain qtype) /\
    (Resolve s domain qtype = ([], false) <-> records_for s domain = []) /\
    (snd (Resolve s domain qtype) = true <-> records_for s domain <> []).
Proof.
  intros f s0 ops domain qtype Hnew s.
  assert (Hs : index s = rebuildIndex (records s))
    by (apply apply_ops_index; eapply NewStore_index; eauto).
  split; [|split].
  - intros domain' Heq. unfold Resolve. now rewrite Heq.
  - rewrite (Resolve_records_for _ _ _ Hs). cbv zeta.
    destruct (Z.eqb_spec (len (records_for s domain)) 0) as [E|E].
    + apply len_zero_nil in E. tauto.
    + rewrite len_zero_nil in E.
      destruct (qtype =? 255); split; intros H; try congruence;
        inversion H; congruence.
  - rewrite (Resolve_records_for _ _ _ Hs). cbv zeta.
    destruct (Z.eqb_spec (len (records_for s domain)) 0) as [E|E].
    + apply len_zero_nil in E. simpl. split; [discriminate|congruence].
    + rewrite len_zero_nil in E.
      destruct (qtype =? 255); simpl; tauto.
Qed.

(** C6: when the type filter (the loop that [Resolve] runs for every query
    type but ANY, 255) finds nothing for the domain and the domain has a
    CNAME record, [Resolve] returns exactly one record, a CNAME record of that
    domain; a domain whose only record is a CNAME record gets that record for
    a query of type A (fallback) and for a query of type CNAME (match). *)
Theorem Resolve_cname_fallback :
  forall (f : file_state) (s0 : Store) (ops : list op)
         (domain : string) (qtype : Z),
    NewStore f = Some s0 ->
    let s := apply_ops s0 ops in
    let all := records_for s domain in
    (qtype <> 255 ->
     List.filter (fun r => matchType (Type_ r) qtype) all = [] ->
     (exists c : Record, In c all /\ Type_ c = "CNAME"%string) ->
     exists c : Record,
       Resolve s domain qtype = ([c], true) /\
       In c all /\ Type_ c = "CNAME"%string) /\
    (forall c : Record,
        all = [c] -> Type_ c = "CNAME"%string ->
        Resolve s domain 1 = ([c], true) /\
        Resolve s domain 5 = ([c], true)).
Proof.
  intros f s0 ops domain qtype Hnew s all.
  assert (Hs : index s = rebuildIndex (records s))
    by (apply apply_ops_index; eapply NewStore_index; eauto).
  split.
  - intros Hany Hnone Hc.
    destruct (first_cname_spec all Hc) as (c & Hfc & Hin & Hty).
    exists c. split; [|auto].
    rewrite (Resolve_records_for _ _ _ Hs). cbv zeta. fold all.
    destruct (Z.eqb_spec (len all) 0) as [E|E].
    { apply len_zero_nil in E. rewrite E in Hin. destruct Hin. }
    destruct (Z.eqb_spec qtype 255); [contradiction|].
    now rewrite Hnone, Hfc.
  - intros c Hall Hty.
    rewrite !(Resolve_records_for _ _ _ Hs). cbv zeta. fold all.
    rewrite Hall. simpl. unfold matchType. simpl. rewrite Hty. simpl.
    split; reflexivity.
Qed.

(** ** Case normalisation *)

Lemma lower_ascii_idem (c : ascii) : lower_ascii (lower_ascii c) = lower_ascii c.
Proof. destruct c as [[] [] [] [] [] [] [] []]; reflexivity. Qed.

Lemma lower_ascii_ascii (c : ascii) :
  is_ascii_byte (lower_ascii c) = is_ascii_byte c.
Proof. destruct c as [[] [] [] [] [] [] [] []]; reflexivity. Qed.

Lemma isASCII_lower_bytes (s : string) : isASCII (lower_bytes s) = isASCII s.
Proof.
  induction s as [|c s IH]; simpl; [reflexivity|].
  now rewrite lower_ascii_ascii, IH.
Qed.

Lemma lower_bytes_idem (s : string) :
  lower_bytes (lower_bytes s) = lower_bytes s.
Proof.
  induction s as [|c s IH]; simpl; [reflexivity|].
  now rewrite lower_ascii_idem, IH.
Qed.

(** On ASCII text a lower-cased string is left as it is. *)
Lemma ToLower_idem_ascii (s : string) :
  isASCII s = true -> ToLower (ToLower s) = ToLower s.
Proof.
  intros Hs. unfold ToLower. rewrite Hs, isASCII_lower_bytes, Hs.
  apply lower_bytes_idem.
Qed.

Lemma supported_type_upper (t : string) : supported_type t -> ToUpper t = t.
Proof. intros [->|[->| ->]]; reflexivity. Qed.


(** ** Ids *)

Lemma max_id_nonneg (rs : list Record) : 0 <= max_id rs.
Proof. induction rs as [|r rs IH]; simpl; lia. Qed.

Lemma max_id_cons (r : Record) (rs : list Record) :
  max_id (r :: rs) = Z.max (ID r) (max_id rs).
Proof. reflexivity. Qed.

Lemma max_id_app (a b : list Record) :
  max_id (a ++ b) = Z.max (max_id a) (max_id b).
Proof.
  induction a as [|r a IH]; simpl.
  - pose proof (max_id_nonneg b). lia.
  - rewrite IH. lia.
Qed.

Lemma update_first_max_id (rs rs' : list Record) (id : Z)
      (d t v : string) (r' : Record) :
  update_first rs id d t v = Some (rs', r') -> max_id rs' = max_id rs.
Proof.
  revert rs'. induction rs as [|r rs IH]; intros rs'; simpl; [discriminate|].
  destruct (ID r =? id).
  - intros [= <- <-]. reflexivity.
  - destruct (update_first rs id d t v) as [[rest' r1]|]; [|discriminate].
    intros [= <- <-]. simpl. now rewrite (IH rest').
Qed.

Lemma delete_first_max_id (rs rs' : list Record) (id : Z) :
  delete_first rs id = Some rs' -> max_id rs' <= max_id rs.
Proof.
  revert rs'. induction rs as [|r rs IH]; intros rs'; simpl; [discriminate|].
  destruct (ID r =? id).
  - intros [= <-]. lia.
  - destruct (delete_first rs id) as [rest'|]; [|discriminate].
    intros [= <-]. simpl. specialize (IH rest' eq_refl). lia.
Qed.

(** The loop of [load] keeps the lines that parse, in order, and the largest
    id among them. *)
Lemma load_fold (lines : list string) (acc : list Record * Z) :
  0 <= snd acc ->
  fold_left load_step lines acc =
    (fst acc ++ omap load_line lines,
     Z.max (snd acc) (max_id (omap load_line lines))).
Proof.
  revert acc. induction lines as [|l lines IH]; intros [rs m] Hm;
    simpl in Hm; cbn [fold_left].
  - simpl. rewrite app_nil_r. f_equal. lia.
  - unfold load_step at 2. cbn [omap list_omap].
    destruct (load_line l) as [r|]; cbn [fst snd].
    + rewrite IH by (simpl; destruct (Z.ltb_spec m (ID r)); lia).
      cbn [fst snd]. rewrite <- app_assoc. cbn [app]. f_equal.
      rewrite max_id_cons. destruct (Z.ltb_spec m (ID r)); lia.
    + now rewrite IH.
Qed.

Lemma wrap64_small (z : Z) : - 2 ^ 63 <= z < 2 ^ 63 -> wrap64 z = z.
Proof.
  intros H. unfold wrap64. rewrite Z.mod_small; lia.
Qed.

Lemma NewStore_nextID (f : file_state) (s : Store) :
  NewStore f = Some s -> nextID s = wrap64 (max_id (records s) + 1).
Proof.
  unfold NewStore, load. destruct f as [| |data]; simpl.
  - now intros [= <-].
  - discriminate.
  - destruct (slen data =? 0); [now intros [= <-]|].
    intros [= <-]. simpl. rewrite load_fold by (simpl; lia). simpl.
    pose proof (max_id_nonneg
                  (omap load_line (Split (TrimRight data "010") "010"))).
    do 2 f_equal. lia.
Qed.

Lemma count_adds_cons (o : op) (ops : list op) :
  count_adds (o :: ops) = (if is_add o then 1 else 0) + count_adds ops.
Proof.
  unfold count_adds, len. simpl. destruct (is_add o); simpl; lia.
Qed.

Lemma count_adds_nonneg (ops : list op) : 0 <= count_adds ops.
Proof. unfold count_adds, len. lia. Qed.



(** ** Normalised records *)









(** ** Strings: append, Split, TrimRight, Itoa and Atoi *)

Lemma string_app_nil_l (b : string) : EmptyString +:+ b = b.
Proof. reflexivity. Qed.

Lemma string_app_cons (x : ascii) (a b : string) :
  String x a +:+ b = String x (a +:+ b).
Proof. reflexivity. Qed.

Lemma string_app_assoc (a b c : string) : (a +:+ b) +:+ c = a +:+ (b +:+ c).
Proof.
  induction a as [|x a IH]; [reflexivity|].
  rewrite !string_app_cons. now f_equal.
Qed.

Lemma string_app_nil_r (a : string) : a +:+ EmptyString = a.
Proof.
  induction a as [|x a IH]; [reflexivity|].
  rewrite string_app_cons. now f_equal.
Qed.

Lemma string_app_nonempty_r (a b : string) :
  b <> EmptyString -> a +:+ b <> EmptyString.
Proof.
  destruct a; [now rewrite string_app_nil_l|].
  rewrite string_app_cons. discriminate.
Qed.

Lemma has_char_app (c : ascii) (a b : string) :
  has_char c (a +:+ b) = has_char c a || has_char c b.
Proof.
  induction a as [|x a IH]; [reflexivity|].
  rewrite string_app_cons. simpl. rewrite IH. now rewrite orb_assoc.
Qed.

Lemma TrimRight_no_char (c : ascii) (s : string) :
  has_char c s = false -> TrimRight s c = s.
Proof.
  induction s as [|x s IH]; simpl; [reflexivity|].
  destruct (Ascii.eqb x c); simpl; [discriminate|].
  intros H. rewrite (IH H). now destruct s.
Qed.

Lemma TrimRight_cons_keep (c x : ascii) (b : string) :
  b <> EmptyString -> TrimRight b c = b ->
  TrimRight (String x b) c = String x b.
Proof.
  intros Hne Hb. simpl. rewrite Hb. destruct b; [contradiction|reflexivity].
Qed.

Lemma TrimRight_app_keep (c : ascii) (a b : string) :
  b <> EmptyString -> TrimRight b c = b ->
  TrimRight (a +:+ b) c = a +:+ b.
Proof.
  intros Hne Hb. induction a as [|x a IH]; [exact Hb|].
  rewrite string_app_cons. apply TrimRight_cons_keep; [|exact IH].
  now apply string_app_nonempty_r.
Qed.

Lemma TrimRight_app_sep (c : ascii) (s : string) :
  TrimRight (s +:+ String c EmptyString) c = TrimRight s c.
Proof.
  induction s as [|x s IH].
  - simpl. now rewrite Ascii.eqb_refl.
  - rewrite string_app_cons. simpl. now rewrite IH.
Qed.

Lemma lower_ascii_tab (a : ascii) :
  Ascii.eqb (lower_ascii a) "009" = Ascii.eqb a "009".
Proof. destruct a as [[] [] [] [] [] [] [] []]; reflexivity. Qed.

Lemma lower_ascii_nl (a : ascii) :
  Ascii.eqb (lower_ascii a) "010" = Ascii.eqb a "010".
Proof. destruct a as [[] [] [] [] [] [] [] []]; reflexivity. Qed.

Lemma has_char_lower_bytes_tab (s : string) :
  has_char "009" (lower_bytes s) = has_char "009" s.
Proof.
  induction s as [|a s IH]; simpl; [reflexivity|].
  now rewrite lower_ascii_tab, IH.
Qed.

Lemma has_char_lower_bytes_nl (s : string) :
  has_char "010" (lower_bytes s) = has_char "010" s.
Proof.
  induction s as [|a s IH]; simpl; [reflexivity|].
  now rewrite lower_ascii_nl, IH.
Qed.

(** On ASCII text, lower-casing neither brings nor removes a tab or a line
    feed. *)
Lemma no_tab_nl_ToLower_ascii (s : string) :
  isASCII s = true -> (no_tab_nl (ToLower s) <-> no_tab_nl s).
Proof.
  intros Hs. unfold no_tab_nl, ToLower. rewrite Hs.
  now rewrite has_char_lower_bytes_tab, has_char_lower_bytes_nl.
Qed.

(** The decimal digits of [Itoa] hold no other character. *)
Lemma has_char_uint (c : ascii) (u : Decimal.uint) :
  digit_of c = None -> has_char c (NilEmpty.string_of_uint u) = false.
Proof.
  intros Hc. induction u as [|u IH|u IH|u IH|u IH|u IH|u IH|u IH|u IH|u IH|u IH];
    cbn [NilEmpty.string_of_uint has_char]; [reflexivity| | | | | | | | | |];
    rewrite IH, orb_false_r;
    match goal with
    | |- Ascii.eqb ?d c = false =>
        destruct (Ascii.eqb_spec d c) as [<-|]; [discriminate Hc|reflexivity]
    end.
Qed.

Lemma has_char_Itoa (c : ascii) (z : Z) :
  digit_of c = None -> c <> "-"%char -> has_char c (Itoa z) = false.
Proof.
  intros Hc Hm. unfold Itoa.
  destruct z as [|p|p]; cbn [Z.to_int NilEmpty.string_of_int].
  - apply (has_char_uint c (Decimal.D0 Decimal.Nil) Hc).
  - now apply has_char_uint.
  - cbn [has_char]. rewrite has_char_uint by assumption.
    rewrite orb_false_r. destruct (Ascii.eqb_spec "-" c); congruence.
Qed.

Lemma parse_digits_uint_acc (u : Decimal.uint) (acc : positive) :
  parse_digits (NilEmpty.string_of_uint u) (Z.pos acc)
  = Some (Z.pos (Pos.of_uint_acc u acc)).
Proof.
  revert acc.
  induction u as [|u IH|u IH|u IH|u IH|u IH|u IH|u IH|u IH|u IH|u IH];
    intros acc; cbn [NilEmpty.string_of_uint parse_digits Pos.of_uint_acc];
    [reflexivity| | | | | | | | | |];
    match goal with
    | |- match digit_of ?c with _ => _ end = _ =>
        let d := eval vm_compute in (digit_of c) in
        change (digit_of c) with d; cbv iota
    end;
    rewrite <- IH; f_equal; lia.
Qed.

Lemma parse_digits_uint (u : Decimal.uint) :
  parse_digits (NilEmpty.string_of_uint u) 0 = Some (Z.of_N (Pos.of_uint u)).
Proof.
  induction u as [|u IH|u IH|u IH|u IH|u IH|u IH|u IH|u IH|u IH|u IH];
    cbn [NilEmpty.string_of_uint parse_digits Pos.of_uint];
    [reflexivity| | | | | | | | | |];
    match goal with
    | |- match digit_of ?c with _ => _ end = _ =>
        let d := eval vm_compute in (digit_of c) in
        change (digit_of c) with d; cbv iota
    end;
    [exact IH| | | | | | | | |];
    cbn [Z.mul Z.add Z.of_N]; apply parse_digits_uint_acc.
Qed.

Lemma parse_digits_to_uint (p : positive) :
  parse_digits (NilEmpty.string_of_uint (Pos.to_uint p)) 0 = Some (Z.pos p).
Proof.
  rewrite parse_digits_uint, Unsigned.of_to. reflexivity.
Qed.

Lemma in_int64 (v : Z) :
  - 2 ^ 63 <= v < 2 ^ 63 ->
  (- 2 ^ 63 <=? v) && (v <=? 2 ^ 63 - 1) = true.
Proof.
  intros H. apply andb_true_intro. split; apply Z.leb_le; lia.
Qed.

(** [Atoi] reads back what [Itoa] writes. *)
Lemma Atoi_Itoa (z : Z) : - 2 ^ 63 <= z < 2 ^ 63 -> Atoi (Itoa z) = Some z.
Proof.
  intros Hz. destruct z as [|p|p].
  - reflexivity.
  - unfold Itoa. cbn [Z.to_int NilEmpty.string_of_int].
    pose proof (parse_digits_to_uint p) as Hp.
    pose proof (Unsigned.to_uint_nonnil p) as Hnil.
    pose proof (in_int64 _ Hz) as Hr.
    destruct (Pos.to_uint p); [contradiction| | | | | | | | | |];
      cbn [NilEmpty.string_of_uint] in *; unfold Atoi; cbv iota beta;
      rewrite Hp; cbv iota beta; rewrite Hr; reflexivity.
  - unfold Itoa. cbn [Z.to_int NilEmpty.string_of_int].
    pose proof (parse_digits_to_uint p) as Hp.
    pose proof (Unsigned.to_uint_nonnil p) as Hnil.
    pose proof (in_int64 _ Hz) as Hr.
    unfold Atoi. cbv iota beta.
    destruct (Pos.to_uint p); [contradiction| | | | | | | | | |];
      cbn [NilEmpty.string_of_uint] in *;
      rewrite Hp; cbv iota beta; change (- Z.pos p) with (Z.neg p);
      rewrite Hr; reflexivity.
Qed.

(** ** save and load *)

Lemma save_line_line_of (r : Record) :
  save_line r = line_of r +:+ String "010" EmptyString.
Proof.
  unfold save_line, line_of.
  rewrite !string_app_assoc, !string_app_cons.
  rewrite !string_app_assoc, !string_app_cons.
  rewrite !string_app_assoc, !string_app_cons.
  reflexivity.
Qed.

Lemma supported_type_no_tab_nl (t : string) :
  supported_type t -> no_tab_nl t.
Proof. intros [->|[->| ->]]; split; reflexivity. Qed.

Lemma line_of_no_nl (r : Record) :
  clean r -> has_char "010" (line_of r) = false.
Proof.
  intros (_ & Hty & [_ Hd] & [_ Hv] & _).
  destruct (supported_type_no_tab_nl _ Hty) as [_ Ht].
  unfold line_of.
  rewrite has_char_app, has_char_Itoa by (reflexivity || discriminate).
  cbn [has_char orb]. rewrite has_char_app, Hd.
  cbn [has_char orb]. rewrite has_char_app, Ht.
  cbn [has_char orb]. rewrite Hv. reflexivity.
Qed.

Lemma line_of_nonempty (r : Record) : line_of r <> EmptyString.
Proof. unfold line_of. apply string_app_nonempty_r. discriminate. Qed.

Lemma load_line_line_of (r : Record) :
  clean r -> load_line (line_of r) = Some r.
Proof.
  intros (Hid & Hty & [Hd _] & [Hv _] & Hcr).
  destruct (supported_type_no_tab_nl _ Hty) as [Ht _].
  unfold load_line.
  assert (Htrim : TrimRight (line_of r) "013" = line_of r).
  { unfold line_of.
    apply TrimRight_app_keep; [discriminate|].
    apply TrimRight_cons_keep; [apply string_app_nonempty_r; discriminate|].
    apply TrimRight_app_keep; [discriminate|].
    apply TrimRight_cons_keep; [apply string_app_nonempty_r; discriminate|].
    apply TrimRight_app_keep; [discriminate|].
    simpl. rewrite Hcr. now destruct (Value r). }
  rewrite Htrim.
  destruct (String.eqb_spec (line_of r) EmptyString) as [E|_];
    [now apply line_of_nonempty in E|].
  unfold line_of.
  rewrite Split_app_sep by (apply has_char_Itoa; reflexivity || discriminate).
  rewrite Split_app_sep by exact Hd.
  rewrite Split_app_sep by exact Ht.
  rewrite Split_no_sep by exact Hv.
  rewrite Atoi_Itoa by exact Hid.
  destruct r as [id d t v]; simpl in *.
  destruct Hty as [->|[->| ->]]; reflexivity.
Qed.

Lemma save_buf_fold (rs : list Record) (acc : string) :
  fold_left (fun buf r => buf +:+ save_line r) rs acc
  = acc +:+ fold_right (fun r rest => save_line r +:+ rest) EmptyString rs.
Proof.
  revert acc. induction rs as [|r rs IH]; intros acc; simpl.
  - now rewrite string_app_nil_r.
  - rewrite IH. now rewrite string_app_assoc.
Qed.

Lemma save_buf_lines (r : Record) (rs : list Record) :
  save_buf (r :: rs)
  = Join (map line_of (r :: rs)) (String "010" EmptyString)
      +:+ String "010" EmptyString.
Proof.
  unfold save_buf. rewrite save_buf_fold, string_app_nil_l.
  revert r. induction rs as [|r' rs IH]; intros r.
  - simpl. rewrite string_app_nil_r. apply save_line_line_of.
  - change (fold_right (fun r0 rest => save_line r0 +:+ rest) EmptyString
              (r :: r' :: rs))
      with (save_line r +:+
            fold_right (fun r0 rest => save_line r0 +:+ rest) EmptyString
              (r' :: rs)).
    rewrite IH, save_line_line_of. unfold Join.
    change (String.concat (String "010" EmptyString)
              (map line_of (r :: r' :: rs)))
      with (line_of r +:+ String "010" EmptyString +:+
            String.concat (String "010" EmptyString) (map line_of (r' :: rs))).
    now rewrite !string_app_assoc.
Qed.

Lemma TrimRight_Join_lines (ls : list string) :
  ls <> [] ->
  Forall (fun l => l <> EmptyString /\ has_char "010" l = false) ls ->
  TrimRight (Join ls (String "010" EmptyString)) "010"
  = Join ls (String "010" EmptyString) /\
  Join ls (String "010" EmptyString) <> EmptyString.
Proof.
  intros Hne Hall. induction Hall as [|l ls [Hl Hnl] Hall IH]; [congruence|].
  destruct ls as [|l' ls'].
  - simpl. split; [now apply TrimRight_no_char|exact Hl].
  - destruct IH as [IH1 IH2]; [discriminate|].
    unfold Join in *.
    change (String.concat (String "010" EmptyString) (l :: l' :: ls'))
      with (l +:+ String "010" EmptyString +:+
            String.concat (String "010" EmptyString) (l' :: ls')).
    split.
    + apply TrimRight_app_keep.
      * apply string_app_nonempty_r. exact IH2.
      * rewrite string_app_cons, string_app_nil_l.
        now apply TrimRight_cons_keep.
    + apply string_app_nonempty_r, string_app_nonempty_r. exact IH2.
Qed.

Lemma omap_load_line_lines (rs : list Record) :
  Forall clean rs -> omap load_line (map line_of rs) = rs.
Proof.
  induction 1 as [|r rs Hr Hall IH]; [reflexivity|].
  cbn [map omap list_omap]. rewrite (load_line_line_of _ Hr).
  f_equal. exact IH.
Qed.

(** Loading what [save] wrote gives the records back. *)
Lemma load_save_buf (idx : gmap string (list Record)) (r : Record)
      (rs : list Record) :
  Forall clean (r :: rs) ->
  load {| records := []; nextID := 0; index := idx |}
       (Contents (save_buf (r :: rs)))
  = Some {| records := r :: rs;
            nextID := wrap64 (max_id (r :: rs) + 1);
            index := rebuildIndex (r :: rs) |}.
Proof.
  intros Hall.
  assert (Hlines : Forall (fun l => l <> EmptyString /\
                                    has_char "010" l = false)
                          (map line_of (r :: rs))).
  { apply Forall_map. eapply Forall_impl; [exact Hall|].
    intros x Hx. split; [apply line_of_nonempty|now apply line_of_no_nl]. }
  destruct (TrimRight_Join_lines (map line_of (r :: rs))) as [Htrim Hne];
    [discriminate|exact Hlines|].
  unfold load.
  assert (Hlen : (slen (save_buf (r :: rs)) =? 0) = false).
  { apply Z.eqb_neq. rewrite save_buf_lines. unfold slen.
    destruct (Join (map line_of (r :: rs)) (String "010" EmptyString));
      [contradiction|]. rewrite string_app_cons. simpl. lia. }
  rewrite Hlen, save_buf_lines, TrimRight_app_sep, Htrim.
  rewrite Split_Join; [|discriminate|].
  2:{ eapply Forall_impl; [exact Hlines|]. now intros x [_ Hx]. }
  rewrite load_fold by (simpl; lia).
  rewrite (omap_load_line_lines _ Hall). cbn [fst snd app].
  do 3 f_equal. pose proof (max_id_nonneg (r :: rs)). lia.
Qed.

Lemma NewStore_save_buf (s : Store) :
  records s <> [] ->
  Forall clean (records s) ->
  nextID s = max_id (records s) + 1 ->
  nextID s < 2 ^ 63 ->
  index s = rebuildIndex (records s) ->
  NewStore (Contents (save_buf (records s))) = Some s.
Proof.
  destruct s as [recs nid idx]. cbn [records nextID index].
  intros Hne Hclean -> Hov ->. destruct recs as [|r rs]; [congruence|].
  unfold NewStore. rewrite (load_save_buf _ _ _ Hclean). do 2 f_equal.
  apply wrap64_small. pose proof (max_id_nonneg (r :: rs)). lia.
Qed.

(** ** A run of Adds *)

Lemma add_all_cons (w : World) (r : Record) (rs : list Record) :
  add_all w (r :: rs) = add_all (fst (fst (AddAndSave w r true))) rs.
Proof. reflexivity. Qed.

Lemma add_all_spec (rs : list Record) (w : World) :
  - 2 ^ 63 <= nextID (store w) ->
  nextID (store w) + len rs < 2 ^ 63 ->
  records (store (add_all w rs))
    = records (store w) ++ stored_from (nextID (store w)) rs /\
  nextID (store (add_all w rs)) = nextID (store w) + len rs /\
  (rs <> [] ->
   index (store (add_all w rs)) = rebuildIndex (records (store (add_all w rs)))
   /\ disk (add_all w rs)
      = Contents (save_buf (records (store (add_all w rs))))).
Proof.
  revert w. induction rs as [|r rs IH]; intros w Hlo Hhi.
  - simpl. rewrite app_nil_r. unfold len. simpl.
    repeat split; [lia|congruence|congruence].
  - rewrite add_all_cons.
    assert (Hlen : len (r :: rs) = 1 + len rs) by (unfold len; simpl; lia).
    rewrite Hlen in *.
    set (w1 := fst (fst (AddAndSave w r true))).
    assert (Hrec1 : records (store w1) = records (store w) ++
              [{| ID := nextID (store w); Domain := ToLower (Domain r);
                  Type_ := ToUpper (Type_ r); Value := Value r |}])
      by reflexivity.
    assert (Hn1 : nextID (store w1) = nextID (store w) + 1).
    { unfold w1. simpl. apply wrap64_small. unfold len in *. lia. }
    assert (Hidx1 : index (store w1) = rebuildIndex (records (store w1)))
      by reflexivity.
    assert (Hdisk1 : disk w1 = Contents (save_buf (records (store w1))))
      by reflexivity.
    destruct (IH w1) as (H1 & H2 & H3); [lia|lia|].
    split; [|split].
    + rewrite H1, Hrec1, Hn1. cbn [stored_from]. now rewrite <- app_assoc.
    + lia.
    + intros _. destruct rs as [|r2 rs2]; [|apply H3; discriminate].
      simpl. split; reflexivity.
Qed.

Lemma stored_from_clean (rs : list Record) (k : Z) :
  Forall storable rs ->
  - 2 ^ 63 <= k -> k + len rs <= 2 ^ 63 ->
  Forall clean (stored_from k rs).
Proof.
  intros Hall. revert k.
  induction Hall as [|r rs (Hty & [Hd1 Hd2] & Hv & Hcr) Hall IH];
    intros k Hlo Hhi; [constructor|].
  assert (Hlen : len (r :: rs) = 1 + len rs) by (unfold len; simpl; lia).
  assert (0 <= len rs) by (unfold len; lia).
  cbn [stored_from]. constructor.
  - split; [simpl; lia|]. split; [exact Hty|].
    split; [|split; [exact Hv|exact Hcr]].
    split; [exact Hd1|exact Hd2].
  - apply IH; lia.
Qed.

Lemma stored_from_max_id (rs : list Record) (k : Z) :
  1 <= k -> rs <> [] -> max_id (stored_from k rs) = k + len rs - 1.
Proof.
  revert k. induction rs as [|r rs IH]; intros k Hk Hne; [congruence|].
  assert (Hlen : len (r :: rs) = 1 + len rs) by (unfold len; simpl; lia).
  assert (0 <= len rs) by (unfold len; lia).
  cbn [stored_from]. rewrite max_id_cons. cbn [ID].
  destruct rs as [|r2 rs2].
  - simpl. unfold len. simpl. lia.
  - rewrite IH by (lia || discriminate). lia.
Qed.

(** C8 (amended): take a fresh store and [Add] records that the file format
    can hold ([storable]), every [save] succeeding.  A store made from the
    backing file is then equal to the store in memory: the same records with
    the same ids in the same order, the same index and the same counter; and
    the counter is the number of records plus 1, which is one more than the
    largest id that was ever assigned.  (Provided the 64-bit counter does not
    overflow.) *)
Theorem reload_after_adds :
  forall rs : list Record,
    Forall storable rs ->
    len rs + 1 < 2 ^ 63 ->
    let w := add_all new_world rs in
    NewStore (disk w) = Some (store w) /\
    records (store w) = stored_from 1 rs /\
    max_id (records (store w)) = len rs /\
    (forall (s2 : Store) (r : Record),
        NewStore (disk w) = Some s2 -> ID (snd (Add s2 r)) = len rs + 1).
Proof.
  intros rs Hall Hov w.
  destruct (add_all_spec rs new_world) as (Hrec & Hnext & Hrest);
    [simpl; lia|simpl; lia|].
  fold w in Hrec, Hnext, Hrest.
  change (records (store new_world)) with (@nil Record) in Hrec.
  change (nextID (store new_world)) with 1 in Hrec, Hnext.
  rewrite app_nil_l in Hrec.
  assert (Hmax : max_id (records (store w)) = len rs).
  { rewrite Hrec. destruct rs as [|r rs]; [reflexivity|].
    rewrite stored_from_max_id by (lia || discriminate). lia. }
  assert (Hload : NewStore (disk w) = Some (store w)).
  { destruct rs as [|r rs].
    - reflexivity.
    - destruct Hrest as [Hidx Hdisk]; [discriminate|].
      rewrite Hdisk. apply NewStore_save_buf.
      + rewrite Hrec. discriminate.
      + rewrite Hrec. apply stored_from_clean; [exact Hall|lia|lia].
      + lia.
      + lia.
      + exact Hidx. }
  repeat split; [exact Hload|exact Hrec|exact Hmax|].
  intros s2 r Hs2. rewrite Hload in Hs2. injection Hs2 as <-.
  simpl. lia.
Qed.

(** ** Header fields *)

Lemma index_at_lt (buf : list byte) (i : Z) :
  0 <= i < len buf -> exists b : byte, index_at buf i = Some b.
Proof.
  intros Hi. unfold index_at, len in *.
  destruct (Z.ltb_spec i 0); [lia|].
  destruct (buf !! Z.to_nat i) as [b|] eqn:E; [now exists b|].
  apply lookup_ge_None in E. lia.
Qed.

Lemma Uint16_spec (h l : byte) : Uint16 h l = 256 * byte_val h + byte_val l.
Proof.
  unfold Uint16. pose proof (byte_val_range h). pose proof (byte_val_range l).
  assert (Hland : Z.land (Z.shiftl (byte_val h) 8) (byte_val l) = 0).
  { apply Z.bits_inj'. intros n Hn. rewrite Z.land_spec, Z.bits_0.
    destruct (Z.ltb_spec n 8).
    - rewrite Z.shiftl_spec_low by lia. reflexivity.
    - replace (Z.testbit (byte_val l) n) with false; [apply andb_false_r|].
      symmetry. destruct (Z.eq_dec (byte_val l) 0) as [->|Hl0];
        [apply Z.bits_0|].
      apply Z.bits_above_log2; [lia|].
      assert (Z.log2 (byte_val l) < 8) by (apply Z.log2_lt_pow2; lia). lia. }
  rewrite <- Z.lxor_lor by exact Hland.
  rewrite <- Z.add_nocarry_lxor by exact Hland.
  rewrite Z.shiftl_mul_pow2 by lia. lia.
Qed.


Lemma len_app {A : Type} (a b : list A) : len (a ++ b) = len a + len b.
Proof. unfold len. rewrite length_app. lia. Qed.

Lemma len_slice (buf : list byte) (lo hi : Z) :
  0 <= lo <= hi -> hi <= len buf -> len (slice buf lo hi) = hi - lo.
Proof.
  intros H1 H2. unfold len, slice in *.
  rewrite length_take, length_drop. lia.
Qed.

(** ** buildDNSResponse *)

Section ResponseProperties.

Variable ParseIP : string -> option (list byte).


Lemma answer_step_bytes (acc : list byte * Z) (r : Record) :
  answer_step ParseIP acc r =
    (fst acc ++ answer_bytes ParseIP r,
     match answer_data ParseIP r with
     | Some _ => wrap16 (snd acc + 1)
     | None => snd acc
     end).
Proof.
  unfold answer_step, answer_bytes.
  destruct (answer_data ParseIP r) as [[rtype rdata]|].
  - cbv zeta. f_equal. now rewrite <- !app_assoc.
  - rewrite app_nil_r. now destruct acc.
Qed.

Lemma emitted_cons (r : Record) (rs : list Record) :
  emitted ParseIP (r :: rs) =
    match answer_data ParseIP r with
    | Some _ => 1 + emitted ParseIP rs
    | None => emitted ParseIP rs
    end.
Proof.
  unfold emitted, len. simpl.
  destruct (answer_data ParseIP r); simpl; lia.
Qed.


Lemma build_answers_fold (rs : list Record) (acc : list byte * Z) :
  0 <= snd acc < 2 ^ 16 ->
  fold_left (answer_step ParseIP) rs acc =
    (fst acc ++ flat_map (answer_bytes ParseIP) rs,
     wrap16 (snd acc + emitted ParseIP rs)).
Proof.
  revert acc. induction rs as [|r rs IH]; intros acc Hacc.
  - simpl. rewrite app_nil_r. unfold emitted, len, wrap16. simpl.
    rewrite Z.add_0_r, Z.mod_small by lia. now destruct acc.
  - cbn [fold_left flat_map]. rewrite answer_step_bytes, emitted_cons.
    destruct (answer_data ParseIP r) as [a|].
    + rewrite IH by (simpl; unfold wrap16; apply Z.mod_pos_bound; lia).
      cbn [fst snd]. rewrite <- app_assoc. f_equal.
      unfold wrap16. rewrite Z.add_mod_idemp_l by lia. f_equal. lia.
    + rewrite IH by exact Hacc. cbn [fst snd].
      now rewrite <- app_assoc.
Qed.

Lemma build_answers_spec (rs : list Record) :
  build_answers ParseIP rs =
    (flat_map (answer_bytes ParseIP) rs, wrap16 (emitted ParseIP rs)).
Proof.
  unfold build_answers. rewrite build_answers_fold by (simpl; lia).
  reflexivity.
Qed.

(** The message that [buildDNSResponse] assembles. *)
Lemma buildDNSResponse_spec (query : list byte) (questionEnd : Z)
      (rs : list Record) :
  12 <= questionEnd <= len query ->
  exists q0 q1 q2 : byte,
    index_at query 0 = Some q0 /\
    index_at query 1 = Some q1 /\
    index_at query 2 = Some q2 /\
    buildDNSResponse ParseIP query questionEnd rs =
      Some ([q0; q1;
             byte_of_Z (Z.lor 132 (Z.land (byte_val q2) 1)); x80;
             x00; x01;
             byte_of_Z (Z.shiftr (wrap16 (emitted ParseIP rs)) 8);
             byte_of_Z (wrap16 (emitted ParseIP rs));
             x00; x00; x00; x00]
            ++ slice query 12 questionEnd
            ++ flat_map (answer_bytes ParseIP) rs).
Proof.
  intros Hq.
  destruct (index_at_lt query 0) as [q0 H0]; [lia|].
  destruct (index_at_lt query 1) as [q1 H1]; [lia|].
  destruct (index_at_lt query 2) as [q2 H2]; [lia|].
  exists q0, q1, q2. repeat split; auto.
  unfold buildDNSResponse. rewrite build_answers_spec, H0, H1, H2.
  destruct (Z.ltb_spec questionEnd 12); [lia|].
  destruct (Z.ltb_spec (len query) questionEnd); [lia|].
  cbv zeta. now rewrite <- !app_assoc.
Qed.





End ResponseProperties.


(** ** buildServFail and the flags *)

Lemma servfail_flags (q2 : byte) :
  let f := byte_val (byte_of_Z (Z.lor 128 (Z.land (byte_val q2) 1))) in
  Z.testbit f 7 = true /\
  Z.testbit f 2 = false /\
  Z.testbit f 0 = Z.testbit (byte_val q2) 0.
Proof. destruct q2; vm_compute; auto. Qed.

Lemma response_flags (q2 : byte) :
  let f := byte_val (byte_of_Z (Z.lor 132 (Z.land (byte_val q2) 1))) in
  Z.testbit f 7 = true /\
  Z.testbit f 2 = true /\
  Z.testbit f 0 = Z.testbit (byte_val q2) 0.
Proof. destruct q2; vm_compute; auto. Qed.

Lemma buildServFail_spec (query : list byte) (questionEnd : Z) :
  12 <= questionEnd <= len query ->
  exists q0 q1 q2 : byte,
    index_at query 0 = Some q0 /\
    index_at query 1 = Some q1 /\
    index_at query 2 = Some q2 /\
    buildServFail query questionEnd =
      Some ([q0; q1;
             byte_of_Z (Z.lor 128 (Z.land (byte_val q2) 1)); x82;
             x00; x01; x00; x00; x00; x00; x00; x00]
            ++ slice query 12 questionEnd).
Proof.
  intros Hq.
  destruct (index_at_lt query 0) as [q0 H0]; [lia|].
  destruct (index_at_lt query 1) as [q1 H1]; [lia|].
  destruct (index_at_lt query 2) as [q2 H2]; [lia|].
  exists q0, q1, q2. repeat split; auto.
  unfold buildServFail. rewrite H0, H1, H2.
  destruct (Z.ltb_spec questionEnd 0); [lia|].
  destruct (Z.ltb_spec questionEnd 12); [lia|].
  destruct (Z.ltb_spec (len query) questionEnd); [lia|].
  reflexivity.
Qed.

Lemma header_bytes (a0 a1 a2 a3 a4 a5 a6 a7 a8 a9 a10 a11 : byte)
      (rest : list byte) :
  let msg := [a0; a1; a2; a3; a4; a5; a6; a7; a8; a9; a10; a11] ++ rest in
  index_at msg 2 = Some a2 /\ index_at msg 3 = Some a3 /\
  index_at msg 4 = Some a4 /\ index_at msg 5 = Some a5.
Proof. repeat split; reflexivity. Qed.

(** C10: the flag bytes of [buildServFail] have QR set, RD copied from the
    query, RA set and RCODE 2, with AA clear, where [buildDNSResponse] sets
    AA; and QDCOUNT is 1 whatever the question count of the query. *)
Theorem buildServFail_flags :
  forall (ParseIP : string -> option (list byte)) (query : list byte)
         (questionEnd : Z) (rs : list Record) (q2 : byte),
    12 <= questionEnd <= len query ->
    index_at query 2 = Some q2 ->
    exists fail resp : list byte,
      buildServFail query questionEnd = Some fail /\
      buildDNSResponse ParseIP query questionEnd rs = Some resp /\
      flag_bit fail 2 7 = Some true /\
      flag_bit fail 2 0 = Some (Z.testbit (byte_val q2) 0) /\
      flag_bit fail 3 7 = Some true /\
      rcode fail = Some 2 /\
      flag_bit fail 2 2 = Some false /\
      flag_bit resp 2 2 = Some true /\
      field16 fail 4 = Some 1.
Proof.
  intros ParseIP query questionEnd rs q2 Hq H2.
  destruct (buildServFail_spec query questionEnd Hq)
    as (q0 & q1 & q2' & _ & _ & H2' & Hfail).
  destruct (buildDNSResponse_spec ParseIP query questionEnd rs Hq)
    as (p0 & p1 & p2 & _ & _ & H2'' & Hresp).
  assert (q2' = q2) by congruence. assert (p2 = q2) by congruence. subst.
  destruct (servfail_flags q2) as (F7 & F2 & F0).
  destruct (response_flags q2) as (_ & R2 & _).
  eexists. eexists. split; [exact Hfail|]. split; [exact Hresp|].
  match goal with
  | |- context [flag_bit (?hdr ++ ?rest) 2 7] =>
      match hdr with
      | [?a0; ?a1; ?a2; ?a3; ?a4; ?a5; ?a6; ?a7; ?a8; ?a9; ?a10; ?a11] =>
          destruct (header_bytes a0 a1 a2 a3 a4 a5 a6 a7 a8 a9 a10 a11 rest)
            as (I2 & I3 & I4 & I5)
      end
  end.
  match goal with
  | |- context [flag_bit (?hdr ++ ?rest) 2 2 = Some true] =>
      match hdr with
      | [?a0; ?a1; ?a2; ?a3; ?a4; ?a5; ?a6; ?a7; ?a8; ?a9; ?a10; ?a11] =>
          destruct (header_bytes a0 a1 a2 a3 a4 a5 a6 a7 a8 a9 a10 a11 rest)
            as (J2 & _)
      end
  end.
  cbv zeta in *. unfold flag_bit, rcode, field16. change (4 + 1) with 5.
  rewrite I2, I3, I4, I5, J2, F7, F2, F0, R2.
  repeat split; reflexivity.
Qed.

(** ** handleQuery *)

Lemma land_128_testbit (b : byte) :
  negb (Z.land (byte_val b) 128 =? 0) = Z.testbit (byte_val b) 7.
Proof. destruct b; reflexivity. Qed.

Section DispatcherProperties.

Variable ParseIP : string -> option (list byte).
Variable forwardQuery : list byte -> option (list byte).

Lemma handleQuery_cases (s : Store) (buf : list byte) :
  handleQuery ParseIP forwardQuery s buf =
    if (len buf <? 12) || is_response buf || (question_count buf =? 0)
    then Done None
    else answerQuestion ParseIP forwardQuery s buf.
Proof.
  unfold handleQuery, is_response, question_count, field16.
  destruct (Z.ltb_spec (len buf) 12) as [Hlt|Hge]; [reflexivity|].
  destruct (index_at_lt buf 2) as [b2 H2]; [lia|].
  destruct (index_at_lt buf 4) as [b4 H4]; [lia|].
  destruct (index_at_lt buf 5) as [b5 H5]; [lia|].
  change (4 + 1) with 5. rewrite H2, H4, H5. cbn [default orb].
  rewrite land_128_testbit, Uint16_spec.
  destruct (Z.testbit (byte_val b2) 7); reflexivity.
Qed.

(** C9: [handleQuery] writes no response when the datagram is shorter
    than 12 bytes, or has the response bit set, or has a question count of
    0, whatever the store and the upstreams; a datagram that passes the
    three checks is handed to the parsing of the name and the resolution;
    so a response is only ever written for a datagram that passes them. *)
Theorem handleQuery_drops :
  forall (s : Store) (buf : list byte),
    (len buf < 12 \/ is_response buf = true \/ question_count buf = 0 ->
     handleQuery ParseIP forwardQuery s buf = Done None) /\
    (12 <= len buf -> is_response buf = false -> question_count buf <> 0 ->
     handleQuery ParseIP forwardQuery s buf
     = answerQuestion ParseIP forwardQuery s buf) /\
    (forall resp : list byte,
        handleQuery ParseIP forwardQuery s buf = Done (Some resp) ->
        12 <= len buf /\ is_response buf = false /\
        1 <= question_count buf).
Proof.
  intros s buf. rewrite handleQuery_cases.
  destruct (Z.ltb_spec (len buf) 12) as [Hlt|Hge];
    destruct (is_response buf) eqn:Hr;
    destruct (Z.eqb_spec (question_count buf) 0) as [Hq|Hq];
    cbn [orb]; repeat split; try reflexivity; try discriminate;
    try lia; try (intros [?|[?|?]]; (lia || discriminate || congruence)).
  unfold question_count, field16 in *.
  destruct (index_at buf 4) as [h|]; [|simpl in Hq; congruence].
  destruct (index_at buf (4 + 1)) as [l|]; [|simpl in Hq; congruence].
  simpl in *. pose proof (byte_val_range h). pose proof (byte_val_range l).
  lia.
Qed.

End DispatcherProperties.

(** * Further properties of the wire codec *)

(** ** parseDNSName: where the returned offset lies *)

Lemma parse_loop_return_bounds (buf : list byte) (off : Z) (fuel : nat)
      (st st' : pstate) :
  0 <= maxJumps st ->
  (jumped st = false -> off <= offset st) ->
  (jumped st = true -> off < returnOffset st <= len buf) ->
  parse_loop fuel buf st = Done (Some st') ->
  maxJumps st' = 0 \/ off < returnOffset st' <= len buf.
Proof.
  revert st. induction fuel as [|f IH]; intros st Hm Hnj Hj; simpl.
  - destruct (Z.leb_spec (maxJumps st) 0); [|discriminate].
    intros [= <-]. left. lia.
  - destruct (Z.leb_spec (maxJumps st) 0); [intros [= <-]; left; lia|].
    unfold parse_iter.
    destruct (Z.leb_spec (len buf) (offset st)); [discriminate|].
    destruct (index_at buf (offset st)) as [b|] eqn:Eb; [|discriminate].
    pose proof (byte_val_range b) as Hb.
    destruct (Z.eqb_spec (byte_val b) 0).
    + intros [= <-]. right. simpl.
      destruct (jumped st); [now apply Hj|].
      specialize (Hnj eq_refl). lia.
    + destruct (Z.eqb_spec (Z.land (byte_val b) 192) 192).
      * destruct (Z.leb_spec (len buf) (offset st + 1)); [discriminate|].
        destruct (index_at buf (offset st + 1)) as [b1|]; [|discriminate].
        apply IH; simpl; [lia|discriminate|].
        intros _. destruct (jumped st); [now apply Hj|].
        specialize (Hnj eq_refl). lia.
      * destruct (Z.ltb_spec (len buf) (offset st + 1 + byte_val b));
          [discriminate|].
        apply IH; simpl; [lia| |exact Hj].
        intros E. specialize (Hnj E). lia.
Qed.

Lemma parse_loop_negative_offset (buf : list byte) (off : Z) (f : nat) :
  off < 0 -> parse_loop (S f) buf (parse_init off) = Panic.
Proof.
  intros Hneg. simpl. unfold parse_iter. simpl.
  destruct (Z.leb_spec (len buf) off); [unfold len in *; lia|].
  unfold index_at. destruct (Z.ltb_spec off 0); [reflexivity|lia].
Qed.

Lemma parseDNSName_bounds (buf : list byte) (off : Z) (name : string)
      (ret : Z) :
  parseDNSName buf off = Done (name, ret) ->
  (name = EmptyString /\ ret = -1) \/ (0 <= off < ret /\ ret <= len buf).
Proof.
  unfold parseDNSName, parseDNSName_fuel.
  destruct (Z.ltb_spec off 0) as [Hneg|Hpos].
  { destruct (parse_fuel buf) as [|f] eqn:Ef; [unfold parse_fuel in Ef; lia|].
    rewrite parse_loop_negative_offset by exact Hneg. discriminate. }
  destruct (parse_loop (parse_fuel buf) buf (parse_init off))
    as [[st'|]| |] eqn:Hrun; simpl; try discriminate.
  - destruct (Z.eqb_spec (maxJumps st') 0) as [Hz|Hz].
    + intros [= <- <-]. now left.
    + intros [= <- <-]. right.
      destruct (parse_loop_return_bounds buf off (parse_fuel buf)
                  (parse_init off) st') as [H0|H1];
        [simpl; lia|simpl; lia|simpl; discriminate|exact Hrun|lia|lia].
  - intros [= <- <-]. now left.
Qed.

Lemma parseDNSName_returns (buf : list byte) (off : Z) :
  0 <= off -> exists r : string * Z, parseDNSName buf off = Done r.
Proof.
  intros Hoff. unfold parseDNSName, parseDNSName_fuel.
  pose proof (parse_init_enough_fuel buf off (parse_fuel buf) (Nat.le_refl _))
    as Hf.
  pose proof (parse_loop_no_panic buf (parse_fuel buf) (parse_init off) Hoff)
    as Hp.
  destruct (parse_loop (parse_fuel buf) buf (parse_init off)) as [[st|]| |];
    simpl; try congruence; eauto.
  destruct (maxJumps st =? 0); eauto.
Qed.

(** X1: whatever the buffer and the start offset, when it is not negative,
    [parseDNSName] returns, and it returns either the error pair (empty
    name, -1) or an offset that lies after the start offset and within the
    buffer. *)
Theorem parseDNSName_result_in_bounds :
  forall (buf : list byte) (off : Z),
    0 <= off ->
    exists (name : string) (ret : Z),
      parseDNSName buf off = Done (name, ret) /\
      ((name = EmptyString /\ ret = -1) \/
       (off < ret /\ ret <= len buf)).
Proof.
  intros buf off Hoff.
  destruct (parseDNSName_returns buf off Hoff) as [[name ret] Hrun].
  exists name, ret. split; [exact Hrun|].
  destruct (parseDNSName_bounds buf off name ret Hrun) as [H|[[_ H1] H2]];
    [now left|right]. split; assumption.
Qed.

(** ** A name inside a message *)

Lemma index_at_app_l (buf suf : list byte) (i : Z) (b : byte) :
  index_at buf i = Some b -> index_at (buf ++ suf) i = Some b.
Proof.
  unfold index_at. destruct (i <? 0); [discriminate|].
  apply lookup_app_l_Some.
Qed.

Lemma slice_app_l (buf suf : list byte) (lo hi : Z) :
  0 <= lo <= hi -> hi <= len buf ->
  slice (buf ++ suf) lo hi = slice buf lo hi.
Proof.
  intros H1 H2. unfold slice, len in *.
  rewrite drop_app_le by lia. apply take_app_le.
  rewrite length_drop. lia.
Qed.

(** Bytes after a buffer do not change the names inside it. *)
Lemma name_at_app_suffix (buf suf : list byte) (off : Z) (j : nat)
      (ps : list string) (e : Z) :
  name_at buf off j ps e -> name_at (buf ++ suf) off j ps e.
Proof.
  induction 1 as [off b Hb H0
                 |off b j ps e Hb H0 Hp Hle Hrest IH
                 |off b b1 j ps e Hb Hp Hb1 Hrest IH].
  - eapply name_end; eauto using index_at_app_l.
  - pose proof (index_at_Some _ _ _ Hb). pose proof (byte_val_range b).
    rewrite <- (slice_app_l buf suf) by lia.
    eapply name_label; eauto using index_at_app_l.
    rewrite len_app. unfold len at 2. lia.
  - eapply name_pointer; eauto using index_at_app_l.
Qed.

Lemma Split_segments_no_sep (s : string) (c : ascii) :
  Forall (fun l => has_char c l = false) (Split s c).
Proof.
  induction s as [|a s IH]; simpl; [repeat constructor|].
  destruct (Ascii.eqb a c) eqn:E; [constructor; [reflexivity|exact IH]|].
  destruct (Split s c) as [|p ps]; [repeat constructor; simpl; now rewrite E|].
  inversion IH; subst. constructor; [simpl; now rewrite E|assumption].
Qed.

Lemma encode_fold_filter (ls : list string) (acc : list byte) :
  fold_left
    (fun buf part =>
       if slen part =? 0 then buf
       else (buf ++ [byte_of_Z (slen part)]) ++ list_byte_of_string part)
    ls acc
  = acc ++ encode_labels (List.filter (fun l => negb (slen l =? 0)) ls).
Proof.
  revert acc. induction ls as [|l ls IH]; intros acc; simpl.
  - now rewrite app_nil_r.
  - rewrite IH. destruct (slen l =? 0); simpl; [reflexivity|].
    now rewrite <- !app_assoc.
Qed.

Lemma encodeDNSName_labels_of (name : string) :
  encodeDNSName name = encode_labels (labels_of name) ++ [x00].
Proof.
  unfold encodeDNSName, labels_of. now rewrite encode_fold_filter.
Qed.

Lemma labels_of_are_labels (name : string) :
  Forall (fun l => slen l <= 63) (Split name ".") ->
  Forall is_label (labels_of name).
Proof.
  intros Hlen. unfold labels_of.
  pose proof (Split_segments_no_sep name ".") as Hdot.
  induction (Split name ".") as [|l ls IH]; simpl; [constructor|].
  inversion Hlen; subst. inversion Hdot; subst.
  destruct (Z.eqb_spec (slen l) 0); simpl; [now apply IH|].
  constructor; [|now apply IH].
  split; [|assumption]. unfold slen in *. lia.
Qed.

Lemma name_at_embedded (pre suf : list byte) (name : string) :
  Forall (fun l => slen l <= 63) (Split name ".") ->
  name_at (pre ++ encodeDNSName name ++ suf) (len pre) 0 (labels_of name)
          (len pre + len (encodeDNSName name)).
Proof.
  intros Hlen.
  pose proof (labels_of_are_labels name Hlen) as Hlab.
  pose proof (name_at_encode_labels (labels_of name) pre Hlab) as Hname.
  apply (name_at_app_suffix _ suf) in Hname.
  rewrite encodeDNSName_labels_of.
  replace (pre ++ (encode_labels (labels_of name) ++ [x00]) ++ suf)
    with ((pre ++ encode_labels (labels_of name) ++ [x00]) ++ suf)
    by now rewrite <- !app_assoc.
  replace (len pre + len (encode_labels (labels_of name) ++ [x00]))
    with (len pre + len (encode_labels (labels_of name)) + 1);
    [exact Hname|].
  rewrite len_app. change (len [x00]) with 1. lia.
Qed.

(** X2: a name encoded by [encodeDNSName] and placed anywhere in a message
    is read back by [parseDNSName] at that place: the result is the name
    with its empty segments (a trailing dot, doubled dots) left out, and the
    offset just after the encoding, as long as no segment is longer than
    63 bytes. *)
Theorem parseDNSName_encodeDNSName_embedded :
  forall (pre suf : list byte) (name : string),
    Forall (fun l => slen l <= 63) (Split name ".") ->
    parseDNSName (pre ++ encodeDNSName name ++ suf) (len pre)
    = Done (Join (labels_of name) ".", len pre + len (encodeDNSName name)).
Proof.
  intros pre suf name Hlen.
  pose proof (name_at_embedded pre suf name Hlen) as Hname.
  apply (parseDNSName_name _ _ _ _ _ Hname).
  unfold len. lia.
Qed.

(** ** Bytes of a slice *)

Lemma index_at_slice (buf : list byte) (lo hi k : Z) :
  0 <= lo -> 0 <= k < hi - lo ->
  index_at (slice buf lo hi) k = index_at buf (lo + k).
Proof.
  intros Hlo Hk. unfold index_at, slice.
  destruct (Z.ltb_spec k 0); [lia|].
  destruct (Z.ltb_spec (lo + k) 0); [lia|].
  rewrite lookup_take_lt by lia. rewrite lookup_drop. f_equal. lia.
Qed.

Lemma slice_ext (a b : list byte) (lo hi : Z) :
  0 <= lo ->
  (forall i : Z, lo <= i < hi -> index_at a i = index_at b i) ->
  slice a lo hi = slice b lo hi.
Proof.
  intros Hlo Hagree. apply list_eq. intros k. unfold slice.
  destruct (decide (k < Z.to_nat (hi - lo))%nat) as [Hk|Hk].
  - rewrite !lookup_take_lt, !lookup_drop by exact Hk.
    specialize (Hagree (lo + Z.of_nat k) ltac:(lia)).
    unfold index_at in Hagree.
    destruct (Z.ltb_spec (lo + Z.of_nat k) 0); [lia|].
    replace (Z.to_nat (lo + Z.of_nat k)) with (Z.to_nat lo + k)%nat
      in Hagree by lia.
    exact Hagree.
  - rewrite !lookup_take_ge by lia. reflexivity.
Qed.

(** An uncompressed name only depends on its own bytes. *)
Lemma name_at_agree (buf buf' : list byte) (off : Z) (ps : list string)
      (e : Z) :
  name_at buf off 0 ps e ->
  (forall i : Z, off <= i < e -> index_at buf' i = index_at buf i) ->
  name_at buf' off 0 ps e /\ off < e <= len buf.
Proof.
  intros Hname. remember 0%nat as j eqn:Hj. revert Hj.
  induction Hname as [off b Hb H0
                     |off b j ps e Hb H0 Hp Hle Hrest IH
                     |off b b1 j ps e Hb Hp Hb1 Hrest IH];
    intros Hj Hagree; [| |discriminate Hj].
  - pose proof (index_at_Some _ _ _ Hb).
    split; [|lia]. apply (name_end _ _ b); [|exact H0].
    rewrite Hagree by lia. exact Hb.
  - pose proof (index_at_Some _ _ _ Hb). pose proof (byte_val_range b).
    destruct (IH Hj) as [IH1 IH2]; [intros i Hi; apply Hagree; lia|].
    split; [|lia].
    assert (Hlast : index_at buf' (e - 1) = index_at buf (e - 1))
      by (apply Hagree; lia).
    destruct (index_at_lt buf (e - 1)) as [bl Hbl]; [lia|].
    rewrite Hbl in Hlast. apply index_at_Some in Hlast.
    rewrite (slice_ext buf buf') by
      (try lia; intros i Hi; symmetry; apply Hagree; lia).
    apply (name_label _ _ b); auto; [|lia].
    rewrite Hagree by lia. exact Hb.
Qed.

(** ** The messages that buildDNSResponse and buildServFail assemble *)

Lemma header_question_bytes (hdr rest : list byte) (query : list byte)
      (questionEnd : Z) (i : Z) :
  len hdr = 12 ->
  12 <= questionEnd <= len query ->
  12 <= i < questionEnd ->
  index_at (hdr ++ slice query 12 questionEnd ++ rest) i = index_at query i.
Proof.
  intros Hh Hq Hi.
  replace i with (len hdr + (i - 12)) at 1 by lia.
  rewrite index_at_app_r by lia.
  destruct (index_at_lt (slice query 12 questionEnd) (i - 12)) as [b Hb].
  { rewrite len_slice by lia. lia. }
  rewrite (index_at_app_l _ _ _ _ Hb), <- Hb.
  rewrite index_at_slice by lia. f_equal. lia.
Qed.

Lemma header_question_slice (hdr rest : list byte) (query : list byte)
      (questionEnd : Z) :
  len hdr = 12 ->
  12 <= questionEnd <= len query ->
  slice (hdr ++ slice query 12 questionEnd ++ rest) 12 questionEnd
  = slice query 12 questionEnd.
Proof.
  intros Hh Hq. apply slice_ext; [lia|].
  intros i Hi. now apply header_question_bytes.
Qed.

Lemma header_bytes_all (a0 a1 a2 a3 a4 a5 a6 a7 a8 a9 a10 a11 : byte)
      (rest : list byte) :
  let msg := [a0; a1; a2; a3; a4; a5; a6; a7; a8; a9; a10; a11] ++ rest in
  index_at msg 0 = Some a0 /\ index_at msg 1 = Some a1 /\
  index_at msg 2 = Some a2 /\ index_at msg 3 = Some a3 /\
  index_at msg 4 = Some a4 /\ index_at msg 5 = Some a5 /\
  index_at msg 6 = Some a6 /\ index_at msg 7 = Some a7 /\
  index_at msg 8 = Some a8 /\ index_at msg 9 = Some a9 /\
  index_at msg 10 = Some a10 /\ index_at msg 11 = Some a11.
Proof. repeat split; reflexivity. Qed.

Lemma To4_length (ip : option (list byte)) (p : list byte) :
  To4 ip = Some p -> len p = 4.
Proof.
  unfold To4. destruct ip as [q|]; [|discriminate].
  destruct (Z.eqb_spec (len q) 4); [now intros [= <-]|].
  do 16 (destruct q as [|? q]; [discriminate|]).
  destruct q; [|discriminate].
  destruct (_ && _); [|discriminate]. now intros [= <-].
Qed.

Section ResponseShape.

Variable ParseIP : string -> option (list byte).

Lemma answer_bytes_pointer (r : Record) :
  answer_data ParseIP r <> None ->
  exists rest : list byte, answer_bytes ParseIP r = xc0 :: x0c :: rest.
Proof.
  unfold answer_bytes. destruct (answer_data ParseIP r) as [[t d]|];
    [|congruence].
  intros _. eexists. reflexivity.
Qed.

(** X3: in a response to a query whose question name is written without
    compression, the owner name of every answer (the pointer to offset 12)
    is read by [parseDNSName] as the question name. *)
Theorem answer_name_is_question_name :
  forall (query : list byte) (questionEnd : Z)
         (rs1 rs2 : list Record) (r : Record) (ps : list string) (e : Z),
    12 <= questionEnd <= len query ->
    name_at query 12 0 ps e ->
    e <= questionEnd ->
    answer_data ParseIP r <> None ->
    exists resp : list byte,
      buildDNSResponse ParseIP query questionEnd (rs1 ++ r :: rs2)
        = Some resp /\
      parseDNSName resp
        (questionEnd + len (flat_map (answer_bytes ParseIP) rs1))
      = Done (Join ps ".",
              questionEnd + len (flat_map (answer_bytes ParseIP) rs1) + 2).
Proof.
  intros query questionEnd rs1 rs2 r ps e Hq Hname He Hr.
  destruct (buildDNSResponse_spec ParseIP query questionEnd
              (rs1 ++ r :: rs2) Hq) as (q0 & q1 & q2 & _ & _ & _ & Hresp).
  destruct (answer_bytes_pointer r Hr) as [rest Hrest].
  rewrite flat_map_app in Hresp. cbn [flat_map] in Hresp.
  rewrite Hrest in Hresp.
  eexists. split; [exact Hresp|].
  set (hdr := [q0; q1; byte_of_Z (Z.lor 132 (Z.land (byte_val q2) 1)); x80;
               x00; x01;
               byte_of_Z (Z.shiftr (wrap16 (emitted ParseIP
                                              (rs1 ++ r :: rs2))) 8);
               byte_of_Z (wrap16 (emitted ParseIP (rs1 ++ r :: rs2)));
               x00; x00; x00; x00]).
  set (A1 := flat_map (answer_bytes ParseIP) rs1).
  set (tail := flat_map (answer_bytes ParseIP) rs2).
  assert (Hh : len hdr = 12) by reflexivity.
  set (resp := hdr ++ slice query 12 questionEnd
                   ++ A1 ++ (xc0 :: x0c :: rest) ++ tail).
  assert (Hsplit : resp = (hdr ++ slice query 12 questionEnd ++ A1)
                            ++ (xc0 :: x0c :: rest ++ tail)).
  { unfold resp. rewrite <- !app_assoc. reflexivity. }
  assert (Hpl : len (hdr ++ slice query 12 questionEnd ++ A1)
                = questionEnd + len A1).
  { rewrite !len_app, len_slice by lia. lia. }
  assert (Hq12 : name_at resp 12 0 ps e).
  { apply (name_at_agree query resp 12 ps e Hname).
    intros i Hi. unfold resp.
    apply header_question_bytes; [exact Hh|lia|].
    destruct (name_at_agree query query 12 ps e Hname) as [_ ?]; [auto|].
    lia. }
  apply (parseDNSName_name resp _ 1 ps); [|lia].
  apply (name_pointer resp _ xc0 x0c 0 ps e).
  - rewrite Hsplit, <- Hpl.
    replace (len (hdr ++ slice query 12 questionEnd ++ A1))
      with (len (hdr ++ slice query 12 questionEnd ++ A1) + 0) by lia.
    now rewrite index_at_app_r by lia.
  - reflexivity.
  - rewrite Hsplit, <- Hpl. now rewrite index_at_app_r by lia.
  - exact Hq12.
Qed.

(** X4: [buildDNSResponse] panics when [questionEnd] is below 12; when
    [questionEnd] is between 12 and the length of the query it returns a
    response that echoes the transaction id and the question section of the
    query, has QR and RA set, RD copied from the query, RCODE 0, one
    question and no authority or additional record. *)
Theorem buildDNSResponse_header :
  forall (query : list byte) (questionEnd : Z) (rs : list Record),
    (questionEnd < 12 ->
     buildDNSResponse ParseIP query questionEnd rs = None) /\
    (12 <= questionEnd <= len query ->
     exists resp : list byte,
       buildDNSResponse ParseIP query questionEnd rs = Some resp /\
       index_at resp 0 = index_at query 0 /\
       index_at resp 1 = index_at query 1 /\
       flag_bit resp 2 7 = Some true /\
       flag_bit resp 2 0 = flag_bit query 2 0 /\
       flag_bit resp 3 7 = Some true /\
       rcode resp = Some 0 /\
       field16 resp 4 = Some 1 /\
       field16 resp 8 = Some 0 /\
       field16 resp 10 = Some 0 /\
       slice resp 12 questionEnd = slice query 12 questionEnd).
Proof.
  intros query questionEnd rs. split.
  { intros Hlo. unfold buildDNSResponse.
    destruct (build_answers ParseIP rs).
    destruct (Z.ltb_spec questionEnd 12); [reflexivity|lia]. }
  intros Hrange.
  destruct (buildDNSResponse_spec ParseIP query questionEnd rs)
    as (q0 & q1 & q2 & H0 & H1 & H2 & Hresp); [lia|].
  rewrite Hresp. eexists. split; [reflexivity|].
  destruct (response_flags q2) as (F7 & _ & F0). cbv zeta in F7, F0.
  match goal with
  | |- context [index_at ([?a0; ?a1; ?a2; ?a3; ?a4; ?a5; ?a6; ?a7; ?a8; ?a9;
                           ?a10; ?a11] ++ ?rest) 0] =>
      destruct (header_bytes_all a0 a1 a2 a3 a4 a5 a6 a7 a8 a9 a10 a11 rest)
        as (I0 & I1 & I2 & I3 & I4 & I5 & I6 & I7 & I8 & I9 & I10 & I11)
  end.
  cbv zeta in *. unfold flag_bit, rcode, field16.
  change (4 + 1) with 5. change (8 + 1) with 9. change (10 + 1) with 11.
  rewrite I0, I1, I2, I3, I4, I5, I8, I9, I10, I11, H0, H1, H2, F7, F0.
  repeat split; try reflexivity.
  apply header_question_slice; [reflexivity|lia].
Qed.

(** X5: an emitted answer has one of the three supported types with its
    type code; the RDATA of an A answer always has 4 bytes; and when
    [ParseIP] returns 16-byte addresses, as Go's does, the RDATA of an AAAA
    answer is the 16-byte address, which is not an IPv4 address. *)
Theorem answer_data_rdata :
  forall (r : Record) (rtype : Z) (rdata : list byte),
    answer_data ParseIP r = Some (rtype, rdata) ->
    (Type_ r = "A"%string /\ rtype = 1 /\ len rdata = 4) \/
    (Type_ r = "AAAA"%string /\ rtype = 28 /\
     To4 (ParseIP (Value r)) = None /\
     (forall p : list byte,
         ParseIP (Value r) = Some p -> len p = 16 -> rdata = p)) \/
    (Type_ r = "CNAME"%string /\ rtype = 5 /\
     rdata = encodeDNSName (Value r)).
Proof.
  intros r rtype rdata. unfold answer_data.
  destruct (String.eqb_spec (Type_ r) "A") as [HA|HA].
  { destruct (To4 (ParseIP (Value r))) as [ip|] eqn:E4; [|discriminate].
    intros [= <- <-]. left. repeat split; auto. eapply To4_length; eauto. }
  destruct (String.eqb_spec (Type_ r) "AAAA") as [H6|H6].
  { destruct (ParseIP (Value r)) as [p|] eqn:Ep; [|discriminate].
    destruct (To4 (Some p)) as [ip|] eqn:E4; [discriminate|].
    intros [= <- <-]. right. left. repeat split; auto.
    intros p' [= <-] Hlen. clear E4 Ep.
    assert (Hn : length p = 16%nat) by (unfold len in Hlen; lia).
    unfold To16.
    do 16 (destruct p as [|? p]; [discriminate Hn|]).
    destruct p; [reflexivity|discriminate Hn]. }
  destruct (String.eqb_spec (Type_ r) "CNAME") as [HC|HC]; [|discriminate].
  intros [= <- <-]. right. right. auto.
Qed.

End ResponseShape.

(** * Further properties of the dispatcher *)

(** ** buildServFail *)

(** X6: [buildServFail] panics when [questionEnd] is below 12; when
    [questionEnd] is between 12 and the length of the query it returns a
    message that is [questionEnd] bytes long, echoes the transaction id and
    the question section of the query, and has no answer, authority or
    additional record. *)
Theorem buildServFail_shape :
  forall (query : list byte) (questionEnd : Z),
    (questionEnd < 12 -> buildServFail query questionEnd = None) /\
    (12 <= questionEnd <= len query ->
     exists resp : list byte,
       buildServFail query questionEnd = Some resp /\
       len resp = questionEnd /\
       index_at resp 0 = index_at query 0 /\
       index_at resp 1 = index_at query 1 /\
       field16 resp 6 = Some 0 /\
       field16 resp 8 = Some 0 /\
       field16 resp 10 = Some 0 /\
       slice resp 12 questionEnd = slice query 12 questionEnd).
Proof.
  intros query questionEnd. split.
  { intros Hlo. unfold buildServFail.
    destruct (questionEnd <? 0); [reflexivity|].
    destruct (index_at query 0), (index_at query 1), (index_at query 2);
      try reflexivity.
    destruct (Z.ltb_spec questionEnd 12); [reflexivity|lia]. }
  intros Hrange.
  destruct (buildServFail_spec query questionEnd)
    as (q0 & q1 & q2 & H0 & H1 & H2 & Hresp); [lia|].
  rewrite Hresp. eexists. split; [reflexivity|].
  match goal with
  | |- context [index_at ([?a0; ?a1; ?a2; ?a3; ?a4; ?a5; ?a6; ?a7; ?a8; ?a9;
                           ?a10; ?a11] ++ ?rest) 0] =>
      destruct (header_bytes_all a0 a1 a2 a3 a4 a5 a6 a7 a8 a9 a10 a11 rest)
        as (I0 & I1 & I2 & I3 & I4 & I5 & I6 & I7 & I8 & I9 & I10 & I11)
  end.
  cbv zeta in *. unfold field16.
  change (6 + 1) with 7. change (8 + 1) with 9. change (10 + 1) with 11.
  rewrite I0, I1, I6, I7, I8, I9, I10, I11, H0, H1.
  repeat split; try reflexivity.
  - rewrite len_app, len_slice by lia.
    change (len [_; _; _; _; _; _; _; _; _; _; _; _]) with 12. lia.
  - rewrite <- (app_nil_r (slice query 12 questionEnd)) at 1.
    apply header_question_slice; [reflexivity|lia].
Qed.

(** ** forwardQuery *)

Section ForwarderProperties.

Variable Net : Type.
Variable forwardTo : Net -> list byte -> string -> Net * option (list byte).

Lemma forwardQuery_app_fail (net net1 : Net) (pre post : list string)
      (query : list byte) :
  forwardQuery Net forwardTo net pre query = (net1, None) ->
  forwardQuery Net forwardTo net (pre ++ post) query
  = forwardQuery Net forwardTo net1 post query.
Proof.
  revert net. induction pre as [|u pre IH]; intros net; simpl.
  - now intros [= <-].
  - destruct (forwardTo net query u) as [net' [resp|]]; [discriminate|].
    apply IH.
Qed.

(** X7: [forwardQuery] returns the reply of the first upstream that
    answers, after the upstreams before it have been tried in order and have
    failed, and it does not contact the upstreams after it; it returns nil
    exactly when every upstream has been tried and has failed (at once for an
    empty list). *)
Theorem forwardQuery_first_reply :
  forall (net net' : Net) (upstreams : list string) (query : list byte),
    (forall resp : list byte,
        forwardQuery Net forwardTo net upstreams query = (net', Some resp) <->
        exists (pre post : list string) (u : string) (net1 : Net),
          upstreams = pre ++ u :: post /\
          forwardQuery Net forwardTo net pre query = (net1, None) /\
          forwardTo net1 query u = (net', Some resp)) /\
    (forwardQuery Net forwardTo net [] query = (net, None)).
Proof.
  intros net net' upstreams query. split; [|reflexivity].
  intros resp. split.
  - revert net. induction upstreams as [|u us IH]; intros net; simpl;
      [discriminate|].
    destruct (forwardTo net query u) as [n1 [r|]] eqn:E.
    + intros [= <- <-]. exists [], us, u, net. auto.
    + intros H. destruct (IH _ H) as (pre & post & u' & net1 & -> & H1 & H2).
      exists (u :: pre), post, u', net1. simpl. rewrite E. auto.
  - intros (pre & post & u & net1 & -> & H1 & H2).
    rewrite (forwardQuery_app_fail _ _ _ _ _ H1). simpl. now rewrite H2.
Qed.

End ForwarderProperties.

(** ** handleQuery *)

Section DispatcherSafety.

Variable ParseIP : string -> option (list byte).
Variable forwardQuery : list byte -> option (list byte).

(** X8: whatever the datagram, the store and the upstreams,
    [handleQuery] returns: no index is ever out of range and the fuel of
    [parseDNSName] is enough. *)
Theorem handleQuery_never_panics :
  forall (s : Store) (buf : list byte),
    exists r : option (list byte),
      handleQuery ParseIP forwardQuery s buf = Done r.
Proof.
  intros s buf. rewrite handleQuery_cases.
  destruct (Z.ltb_spec (len buf) 12) as [Hlt|Hge]; [now exists None|].
  destruct (is_response buf); [now exists None|].
  destruct (question_count buf =? 0); [now exists None|].
  cbn [orb]. unfold answerQuestion.
  destruct (parseDNSName_returns buf 12) as [[qname off] Hparse]; [lia|].
  rewrite Hparse.
  destruct (Z.ltb_spec off 0) as [Hneg|Hpos]; [now exists None|].
  destruct (Z.ltb_spec (len buf) (off + 4)) as [Hshort|Hfit];
    [now exists None|].
  cbn [orb].
  destruct (parseDNSName_bounds _ _ _ _ Hparse) as [[_ E]|[Hb1 Hb2]]; [lia|].
  destruct (index_at_lt buf off) as [h Hh]; [lia|].
  destruct (index_at_lt buf (off + 1)) as [l Hl]; [lia|].
  rewrite Hh, Hl.
  destruct (Resolve s qname (Uint16 h l)) as [records [|]].
  - destruct (buildDNSResponse_spec ParseIP buf (off + 4) records)
      as (q0 & q1 & q2 & _ & _ & _ & Hresp); [lia|].
    rewrite Hresp. eauto.
  - destruct (forwardQuery buf) as [resp|]; [eauto|].
    destruct (buildServFail_spec buf (off + 4))
      as (q0 & q1 & q2 & _ & _ & _ & Hresp); [lia|].
    rewrite Hresp. eauto.
Qed.

End DispatcherSafety.

Section DispatcherEndToEnd.

Variable ParseIP : string -> option (list byte).
Variable forwardQuery : list byte -> option (list byte).

Lemma answerQuestion_well_formed (s : Store) (hdr extra : list byte)
      (name : string) (th tl ch cl : byte) :
  len hdr = 12 ->
  Forall (fun l => slen l <= 63) (Split name ".") ->
  let buf := hdr ++ encodeDNSName name ++ [th; tl; ch; cl] ++ extra in
  let questionEnd := 12 + len (encodeDNSName name) + 4 in
  answerQuestion ParseIP forwardQuery s buf =
    let '(records, authoritative) :=
      Resolve s (Join (labels_of name) ".") (Uint16 th tl) in
    if authoritative : bool then
      match buildDNSResponse ParseIP buf questionEnd records with
      | Some resp => Done (Some resp)
      | None => Panic
      end
    else
      match forwardQuery buf with
      | Some resp => Done (Some resp)
      | None =>
          match buildServFail buf questionEnd with
          | Some resp => Done (Some resp)
          | None => Panic
          end
      end.
Proof.
  intros Hh Hlen buf questionEnd. unfold answerQuestion.
  assert (Hparse : parseDNSName buf 12
                   = Done (Join (labels_of name) ".",
                           12 + len (encodeDNSName name))).
  { unfold buf. rewrite <- Hh.
    apply (parseDNSName_name _ _ _ _ _ (name_at_embedded hdr _ name Hlen)).
    unfold len. lia. }
  rewrite Hparse.
  assert (Hn : len buf = 12 + len (encodeDNSName name) + 4 + len extra).
  { unfold buf. rewrite !len_app, Hh.
    change (len [th; tl; ch; cl]) with 4. lia. }
  assert (0 <= len (encodeDNSName name)) by (unfold len; lia).
  assert (0 <= len extra) by (unfold len; lia).
  destruct (Z.ltb_spec (12 + len (encodeDNSName name)) 0); [lia|].
  destruct (Z.ltb_spec (len buf) (12 + len (encodeDNSName name) + 4)); [lia|].
  cbn [orb].
  assert (Hsplit : buf = (hdr ++ encodeDNSName name)
                           ++ [th; tl; ch; cl] ++ extra).
  { unfold buf. now rewrite <- app_assoc. }
  assert (Hpl : len (hdr ++ encodeDNSName name)
                = 12 + len (encodeDNSName name))
    by (rewrite len_app; lia).
  assert (Ih : index_at buf (12 + len (encodeDNSName name)) = Some th).
  { rewrite Hsplit, <- Hpl.
    replace (len (hdr ++ encodeDNSName name))
      with (len (hdr ++ encodeDNSName name) + 0) by lia.
    now rewrite index_at_app_r by lia. }
  assert (Il : index_at buf (12 + len (encodeDNSName name) + 1) = Some tl).
  { rewrite Hsplit, <- Hpl. now rewrite index_at_app_r by lia. }
  rewrite Ih, Il. reflexivity.
Qed.

(** X9: a well-formed query (a 12-byte header that passes the checks, an
    encoded name, type and class) for a name of which the store holds a
    record, in any case, is answered with the response that
    [buildDNSResponse] makes of the records that [Resolve] returns, whatever
    the upstreams would say; for a name the store does not hold, the reply
    of the upstreams is relayed as it is, and when there is none the answer
    is a SERVFAIL: RCODE 2, no answer, as long as the question. *)
Theorem handleQuery_well_formed_query :
  forall (f : file_state) (s0 : Store) (ops : list op)
         (hdr extra : list byte) (name : string) (th tl ch cl : byte),
    NewStore f = Some s0 ->
    len hdr = 12 ->
    Forall (fun l => slen l <= 63) (Split name ".") ->
    let s := apply_ops s0 ops in
    let buf := hdr ++ encodeDNSName name ++ [th; tl; ch; cl] ++ extra in
    let questionEnd := 12 + len (encodeDNSName name) + 4 in
    let qname := Join (labels_of name) "." in
    is_response buf = false ->
    question_count buf <> 0 ->
    (records_for s qname <> [] ->
     exists resp : list byte,
       handleQuery ParseIP forwardQuery s buf = Done (Some resp) /\
       buildDNSResponse ParseIP buf questionEnd
         (fst (Resolve s qname (Uint16 th tl))) = Some resp) /\
    (records_for s qname = [] ->
     forall reply : list byte,
       forwardQuery buf = Some reply ->
       handleQuery ParseIP forwardQuery s buf = Done (Some reply)) /\
    (records_for s qname = [] ->
     forwardQuery buf = None ->
     exists resp : list byte,
       handleQuery ParseIP forwardQuery s buf = Done (Some resp) /\
       rcode resp = Some 2 /\
       field16 resp 6 = Some 0 /\
       len resp = questionEnd).
Proof.
  intros f s0 ops hdr extra name th tl ch cl Hnew Hh Hlen s buf questionEnd
         qname Hresp Hqd.
  assert (Hs : index s = rebuildIndex (records s))
    by (apply apply_ops_index; eapply NewStore_index; eauto).
  assert (Hn : len buf = 12 + len (encodeDNSName name) + 4 + len extra).
  { unfold buf. rewrite !len_app, Hh.
    change (len [th; tl; ch; cl]) with 4. lia. }
  assert (0 <= len (encodeDNSName name)) by (unfold len; lia).
  assert (0 <= len extra) by (unfold len; lia).
  assert (Hq : 12 <= questionEnd <= len buf) by (unfold questionEnd; lia).
  assert (Hhq : handleQuery ParseIP forwardQuery s buf
                = answerQuestion ParseIP forwardQuery s buf).
  { rewrite handleQuery_cases, Hresp.
    destruct (Z.ltb_spec (len buf) 12); [lia|].
    destruct (Z.eqb_spec (question_count buf) 0); [contradiction|].
    reflexivity. }
  rewrite Hhq.
  pose proof (answerQuestion_well_formed s hdr extra name th tl ch cl Hh Hlen)
    as Haq.
  cbv zeta in Haq. fold buf questionEnd qname in Haq. rewrite Haq.
  pose proof (Resolve_records_for s qname (Uint16 th tl) Hs) as HR.
  cbv zeta in HR.
  split; [|split].
  - intros Hheld.
    destruct (Z.eqb_spec (len (records_for s qname)) 0) as [E|E];
      [apply len_zero_nil in E; contradiction|].
    destruct (buildDNSResponse_spec ParseIP buf questionEnd
                (fst (Resolve s qname (Uint16 th tl))) Hq)
      as (q0 & q1 & q2 & _ & _ & _ & Hb).
    eexists. split; [|exact Hb].
    destruct (Resolve s qname (Uint16 th tl)) as [records auth] eqn:ER.
    assert (auth = true)
      by (destruct (Uint16 th tl =? 255); congruence).
    subst auth. simpl in Hb. now rewrite Hb.
  - intros Hnone reply Hfw. rewrite Hnone in HR. simpl in HR.
    rewrite HR, Hfw. reflexivity.
  - intros Hnone Hfw. rewrite Hnone in HR. simpl in HR.
    rewrite HR, Hfw.
    destruct (buildServFail_spec buf questionEnd Hq)
      as (q0 & q1 & q2 & _ & _ & _ & Hb).
    rewrite Hb. eexists. split; [reflexivity|].
    match goal with
    | |- context [rcode ([?a0; ?a1; ?a2; ?a3; ?a4; ?a5; ?a6; ?a7; ?a8; ?a9;
                          ?a10; ?a11] ++ ?rest)] =>
        destruct (header_bytes_all a0 a1 a2 a3 a4 a5 a6 a7 a8 a9 a10 a11 rest)
          as (I0 & I1 & I2 & I3 & I4 & I5 & I6 & I7 & I8 & I9 & I10 & I11)
    end.
    cbv zeta in *. unfold rcode, field16. change (6 + 1) with 7.
    rewrite I3, I6, I7. repeat split.
    rewrite len_app, len_slice by lia.
    change (len [_; _; _; _; _; _; _; _; _; _; _; _]) with 12. lia.
Qed.

End DispatcherEndToEnd.

(** * Further properties of the store *)

(** ** Update and Delete act on the first record of the id *)

Lemma update_first_spec (rs : list Record) (id : Z) (d t v : string) :
  match update_first rs id d t v with
  | None => Forall (fun x => ID x <> id) rs
  | Some (rs', r') =>
      exists (pre post : list Record) (r : Record),
        rs = pre ++ r :: post /\ ID r = id /\
        Forall (fun x => ID x <> id) pre /\
        r' = {| ID := id; Domain := ToLower d; Type_ := ToUpper t;
                Value := v |} /\
        rs' = pre ++ r' :: post
  end.
Proof.
  induction rs as [|r rs IH]; simpl; [constructor|].
  destruct (Z.eqb_spec (ID r) id) as [E|E].
  - exists [], rs, r. rewrite E. repeat split; auto.
  - destruct (update_first rs id d t v) as [[rest' r1]|].
    + destruct IH as (pre & post & r0 & -> & H1 & H2 & H3 & ->).
      exists (r :: pre), post, r0. repeat split; auto.
    + constructor; auto.
Qed.

Lemma delete_first_spec (rs : list Record) (id : Z) :
  match delete_first rs id with
  | None => Forall (fun x => ID x <> id) rs
  | Some rs' =>
      exists (pre post : list Record) (r : Record),
        rs = pre ++ r :: post /\ ID r = id /\
        Forall (fun x => ID x <> id) pre /\
        rs' = pre ++ post
  end.
Proof.
  induction rs as [|r rs IH]; simpl; [constructor|].
  destruct (Z.eqb_spec (ID r) id) as [E|E].
  - exists [], rs, r. repeat split; auto.
  - destruct (delete_first rs id) as [rest'|].
    + destruct IH as (pre & post & r0 & -> & H1 & H2 & ->).
      exists (r :: pre), post, r0. repeat split; auto.
    + constructor; auto.
Qed.

(** X10: [Update] reports "not found" exactly when no record has the id;
    otherwise it replaces the first record of that id, in place, by the
    record with the same id, the domain in lower case, the type in upper
    case and the value as given, returns that record, and leaves the other
    records, their order and the id counter as they are. *)
Theorem Update_replaces_first :
  forall (s : Store) (id : Z) (d t v : string),
    (Update s id d t v = None <->
     Forall (fun x => ID x <> id) (records s)) /\
    (forall (s' : Store) (r' : Record),
        Update s id d t v = Some (s', r') ->
        exists (pre post : list Record) (r : Record),
          records s = pre ++ r :: post /\ ID r = id /\
          Forall (fun x => ID x <> id) pre /\
          r' = {| ID := id; Domain := ToLower d; Type_ := ToUpper t;
                  Value := v |} /\
          records s' = pre ++ r' :: post /\
          nextID s' = nextID s /\
          index s' = rebuildIndex (records s')).
Proof.
  intros s id d t v. unfold Update.
  pose proof (update_first_spec (records s) id d t v) as Hspec.
  destruct (update_first (records s) id d t v) as [[rs' r1]|].
  - split.
    + split; [discriminate|]. intros Hall.
      destruct Hspec as (pre & post & r & E & Hid & _).
      rewrite E in Hall. apply Forall_app in Hall. destruct Hall as [_ Hall].
      inversion Hall; subst. contradiction.
    + intros s' r' [= <- <-].
      destruct Hspec as (pre & post & r & E & Hid & Hpre & Hr & Hrs).
      exists pre, post, r. simpl. repeat split; auto.
  - split; [tauto|discriminate].
Qed.

(** X11: [Delete] reports "not found" exactly when no record has the id;
    otherwise it removes the first record of that id and nothing else, and
    leaves the order of the others and the id counter as they are. *)
Theorem Delete_removes_first :
  forall (s : Store) (id : Z),
    (Delete s id = None <-> Forall (fun x => ID x <> id) (records s)) /\
    (forall s' : Store,
        Delete s id = Some s' ->
        exists (pre post : list Record) (r : Record),
          records s = pre ++ r :: post /\ ID r = id /\
          Forall (fun x => ID x <> id) pre /\
          records s' = pre ++ post /\
          nextID s' = nextID s /\
          index s' = rebuildIndex (records s')).
Proof.
  intros s id. unfold Delete.
  pose proof (delete_first_spec (records s) id) as Hspec.
  destruct (delete_first (records s) id) as [rs'|].
  - split.
    + split; [discriminate|]. intros Hall.
      destruct Hspec as (pre & post & r & E & Hid & _).
      rewrite E in Hall. apply Forall_app in Hall. destruct Hall as [_ Hall].
      inversion Hall; subst. contradiction.
    + intros s' [= <-].
      destruct Hspec as (pre & post & r & E & Hid & Hpre & Hrs).
      exists pre, post, r. simpl. repeat split; auto.
  - split; [tauto|discriminate].
Qed.

(** ** Ids are unique *)

Lemma max_id_ge (rs : list Record) (r : Record) :
  In r rs -> ID r <= max_id rs.
Proof.
  induction rs as [|x rs IH]; intros Hin; [destruct Hin|].
  rewrite max_id_cons. destruct Hin as [->|Hin]; [lia|].
  specialize (IH Hin). lia.
Qed.

Lemma update_first_ids (rs rs' : list Record) (id : Z) (d t v : string)
      (r' : Record) :
  update_first rs id d t v = Some (rs', r') -> map ID rs' = map ID rs.
Proof.
  intros H. pose proof (update_first_spec rs id d t v) as Hspec.
  rewrite H in Hspec.
  destruct Hspec as (pre & post & r & -> & Hid & _ & -> & ->).
  rewrite !map_app. simpl. now rewrite Hid.
Qed.

Lemma NoDup_app_remove_middle {A : Type} (pre post : list A) (x : A) :
  NoDup (pre ++ x :: post) -> NoDup (pre ++ post) /\ ~ In x (pre ++ post).
Proof.
  intros H. apply NoDup_app in H. destruct H as (Hpre & Hdisj & Hpost).
  apply NoDup_cons in Hpost. destruct Hpost as [Hx Hpost].
  split.
  - apply NoDup_app. repeat split; auto.
    intros y Hy Hy'. apply (Hdisj y Hy). now right.
  - rewrite in_app_iff. intros [Hin|Hin].
    + apply list_elem_of_In in Hin. apply (Hdisj x Hin). now left.
    + apply Hx. now apply list_elem_of_In.
Qed.

Lemma apply_op_ids_unique (s : Store) (o : op) :
  NoDup (map ID (records s)) ->
  max_id (records s) < nextID s ->
  nextID s + (if is_add o then 1 else 0) < 2 ^ 63 ->
  NoDup (map ID (records (apply_op s o))) /\
  max_id (records (apply_op s o)) < nextID (apply_op s o) /\
  nextID (apply_op s o) = nextID s + (if is_add o then 1 else 0).
Proof.
  intros Hnd Hmax Hov. pose proof (max_id_nonneg (records s)) as Hnn.
  destruct o as [r|id d t v|id]; simpl in *.
  - rewrite wrap64_small by lia. rewrite map_app, max_id_app. simpl.
    split; [|split; lia].
    apply NoDup_app. split; [exact Hnd|split; [|apply NoDup_singleton]].
    intros x Hx Hx'. apply list_elem_of_singleton in Hx'. subst x.
    apply list_elem_of_In, in_map_iff in Hx. destruct Hx as (r0 & E & Hin).
    pose proof (max_id_ge _ _ Hin). lia.
  - unfold Update.
    destruct (update_first (records s) id d t v) as [[rs r']|] eqn:E; simpl.
    + rewrite (update_first_ids _ _ _ _ _ _ _ E).
      rewrite (update_first_max_id _ _ _ _ _ _ _ E).
      split; [exact Hnd|split; lia].
    + split; [exact Hnd|split; lia].
  - unfold Delete.
    destruct (delete_first (records s) id) as [rs|] eqn:E; simpl.
    + pose proof (delete_first_max_id _ _ _ E).
      pose proof (delete_first_spec (records s) id) as Hspec.
      rewrite E in Hspec. destruct Hspec as (pre & post & r & Hrs & _ & _ & ->).
      rewrite Hrs in Hnd. rewrite map_app in *. simpl in Hnd.
      split; [|split; lia].
      now apply NoDup_app_remove_middle in Hnd.
    + split; [exact Hnd|split; lia].
Qed.

Lemma apply_ops_ids_unique (ops : list op) (s : Store) :
  NoDup (map ID (records s)) ->
  max_id (records s) < nextID s ->
  nextID s + count_adds ops < 2 ^ 63 ->
  NoDup (map ID (records (apply_ops s ops))).
Proof.
  revert s. induction ops as [|o ops IH]; intros s Hnd Hmax Hov;
    [exact Hnd|].
  rewrite count_adds_cons in Hov. pose proof (count_adds_nonneg ops).
  change (apply_ops s (o :: ops)) with (apply_ops (apply_op s o) ops).
  destruct (apply_op_ids_unique s o Hnd Hmax) as (H1 & H2 & H3);
    [destruct (is_add o); lia|].
  apply IH; auto. lia.
Qed.

(** X12: the ids of the records of the store stay pairwise distinct under
    [Add], [Update] and [Delete], when they are distinct in the backing file
    (and the 64-bit counter does not overflow). *)
Theorem store_ids_unique :
  forall (f : file_state) (s0 : Store) (ops : list op),
    NewStore f = Some s0 ->
    NoDup (map ID (records s0)) ->
    max_id (records s0) + count_adds ops + 1 < 2 ^ 63 ->
    NoDup (map ID (records (apply_ops s0 ops))).
Proof.
  intros f s0 ops Hnew Hnd Hov.
  pose proof (max_id_nonneg (records s0)).
  pose proof (count_adds_nonneg ops).
  assert (Hn0 : nextID s0 = max_id (records s0) + 1).
  { rewrite (NewStore_nextID _ _ Hnew). apply wrap64_small. lia. }
  apply apply_ops_ids_unique; auto; lia.
Qed.

(** X13: when ids are distinct, a deleted id is gone: a second [Delete] and
    an [Update] of it report "not found". *)
Theorem Delete_then_not_found :
  forall (s s' : Store) (id : Z) (d t v : string),
    NoDup (map ID (records s)) ->
    Delete s id = Some s' ->
    Delete s' id = None /\ Update s' id d t v = None.
Proof.
  intros s s' id d t v Hnd Hdel.
  assert (Hgone : Forall (fun x => ID x <> id) (records s')).
  { unfold Delete in Hdel.
    pose proof (delete_first_spec (records s) id) as Hspec.
    destruct (delete_first (records s) id) as [rs|]; [|discriminate].
    injection Hdel as <-. simpl.
    destruct Hspec as (pre & post & r & Hrs & Hid & _ & ->).
    rewrite Hrs, map_app in Hnd. simpl in Hnd.
    apply NoDup_app_remove_middle in Hnd. destruct Hnd as [_ Hnot].
    apply Forall_forall. intros x Hx Hxid. apply Hnot.
    rewrite <- map_app, Hid, <- Hxid. apply in_map.
    now apply list_elem_of_In. }
  split.
  - unfold Delete. pose proof (delete_first_spec (records s') id) as Hspec.
    destruct (delete_first (records s') id) as [rs|]; [|reflexivity].
    destruct Hspec as (pre & post & r & E & Hid & _).
    rewrite E in Hgone. apply Forall_app in Hgone. destruct Hgone as [_ Hg].
    inversion Hg; subst. contradiction.
  - unfold Update.
    pose proof (update_first_spec (records s') id d t v) as Hspec.
    destruct (update_first (records s') id d t v) as [[rs r']|];
      [|reflexivity].
    destruct Hspec as (pre & post & r & E & Hid & _).
    rewrite E in Hgone. apply Forall_app in Hgone. destruct Hgone as [_ Hg].
    inversion Hg; subst. contradiction.
Qed.

(** ** What Resolve returns *)

Lemma first_cname_in (all : list Record) (r : Record) :
  In r (first_cname all) -> In r all /\ Type_ r = "CNAME"%string.
Proof.
  induction all as [|x all IH]; simpl; [tauto|].
  destruct (String.eqb_spec (Type_ x) "CNAME") as [E|E].
  - intros [<-|[]]. auto.
  - intros H. destruct (IH H). auto.
Qed.

Lemma records_for_in (s : Store) (d : string) (r : Record) :
  In r (records_for s d) ->
  In r (records s) /\ ToLower (Domain r) = ToLower d.
Proof.
  unfold records_for. rewrite filter_In. intros [H1 H2].
  split; [exact H1|]. now apply String.eqb_eq.
Qed.

(** X14: for a store made from a file by [Add], [Update] and [Delete]: a
    query of type ANY gets all the records of the domain, in store order;
    a query of another type gets all the records of the domain whose type
    matches, in store order, when there is one; and every record that
    [Resolve] returns is a record of the store, of the queried domain up to
    case, that matches the type or is a CNAME record. *)
Theorem Resolve_results :
  forall (f : file_state) (s0 : Store) (ops : list op)
         (domain : string) (qtype : Z),
    NewStore f = Some s0 ->
    let s := apply_ops s0 ops in
    let all := records_for s domain in
    let hits := List.filter (fun r => matchType (Type_ r) qtype) all in
    (qtype = 255 -> all <> [] -> Resolve s domain qtype = (all, true)) /\
    (qtype <> 255 -> hits <> [] -> Resolve s domain qtype = (hits, true)) /\
    (forall r : Record,
        In r (fst (Resolve s domain qtype)) ->
        In r (records s) /\ ToLower (Domain r) = ToLower domain /\
        (qtype = 255 \/ matchType (Type_ r) qtype = true \/
         Type_ r = "CNAME"%string)).
Proof.
  intros f s0 ops domain qtype Hnew s all hits.
  assert (Hs : index s = rebuildIndex (records s))
    by (apply apply_ops_index; eapply NewStore_index; eauto).
  rewrite (Resolve_records_for _ _ _ Hs). cbv zeta. fold all. fold hits.
  destruct (Z.eqb_spec (len all) 0) as [E|E].
  { apply len_zero_nil in E. split; [congruence|]. split.
    - intros _ Hh. exfalso. apply Hh. unfold hits. now rewrite E.
    - intros r []. }
  destruct (Z.eqb_spec qtype 255) as [Q|Q].
  { split; [reflexivity|]. split; [contradiction|].
    intros r Hin. simpl in Hin.
    destruct (records_for_in _ _ _ Hin). auto. }
  split; [contradiction|]. split.
  - intros _ Hh. destruct (Z.eqb_spec (len hits) 0) as [E'|E'];
      [apply len_zero_nil in E'; contradiction|reflexivity].
  - intros r Hin. simpl in Hin.
    destruct (Z.eqb_spec (len hits) 0) as [E'|E'].
    + apply first_cname_in in Hin. destruct Hin as [Hin Hc].
      destruct (records_for_in _ _ _ Hin). auto.
    + unfold hits in Hin. apply filter_In in Hin. destruct Hin as [Hin Hm].
      destruct (records_for_in _ _ _ Hin). auto.
Qed.

(** X15: after [Add] of a record, a query of type ANY for the domain of
    the stored record gets the records that the domain had, followed by the
    new record; so does a query for the domain as it was given to [Add],
    when that is ASCII text; queries for other domains are answered as
    before. *)
Theorem Add_then_Resolve :
  forall (f : file_state) (s0 : Store) (ops : list op) (r : Record),
    NewStore f = Some s0 ->
    let s := apply_ops s0 ops in
    let s' := fst (Add s r) in
    let r' := snd (Add s r) in
    Resolve s' (Domain r') 255 = (records_for s (Domain r') ++ [r'], true) /\
    (isASCII (Domain r) = true ->
     Resolve s' (Domain r) 255 = (records_for s (Domain r) ++ [r'], true)) /\
    (forall (domain : string) (qtype : Z),
        ToLower domain <> ToLower (Domain r') ->
        Resolve s' domain qtype = Resolve s domain qtype).
Proof.
  intros f s0 ops r Hnew s s' r'.
  assert (Hs : index s = rebuildIndex (records s))
    by (apply apply_ops_index; eapply NewStore_index; eauto).
  assert (Hs' : index s' = rebuildIndex (records s')) by reflexivity.
  assert (Hfor : forall d : string,
    records_for s' d =
    records_for s d ++
      (if String.eqb (ToLower (Domain r')) (ToLower d) then [r'] else [])).
  { intros d. unfold records_for, s'. cbn [Add fst records].
    now rewrite List.filter_app. }
  assert (Hany : forall d : string,
    ToLower (Domain r') = ToLower d ->
    Resolve s' d 255 = (records_for s d ++ [r'], true)).
  { intros d Hd. rewrite (Resolve_records_for _ _ _ Hs'). cbv zeta.
    rewrite Hfor, Hd, String.eqb_refl.
    destruct (Z.eqb_spec (len (records_for s d ++ [r'])) 0) as [E|E];
      [|reflexivity].
    apply len_zero_nil in E. now destruct (records_for s d). }
  split; [|split].
  - now apply Hany.
  - intros Hascii. apply Hany. now apply ToLower_idem_ascii.
  - intros domain qtype Hne.
    rewrite (Resolve_records_for _ _ _ Hs'), (Resolve_records_for _ _ _ Hs).
    cbv zeta. rewrite Hfor.
    destruct (String.eqb_spec (ToLower (Domain r')) (ToLower domain));
      [congruence|].
    now rewrite app_nil_r.
Qed.

(** ** The store and its file *)

Lemma apply_op_world_store (w : World) (o : op) (io_ok : bool) :
  store (apply_op_world w o io_ok) = apply_op (store w) o.
Proof.
  destruct o as [r|id d t v|id]; simpl.
  - unfold AddAndSave, save. simpl. now destruct io_ok.
  - unfold UpdateAndSave, save.
    destruct (Update (store w) id d t v) as [[s' r']|]; [|reflexivity].
    now destruct io_ok.
  - unfold DeleteAndSave, save.
    destruct (Delete (store w) id) as [s'|]; [|reflexivity].
    now destruct io_ok.
Qed.

Lemma apply_op_world_disk (w : World) (o : op) (io_ok : bool) :
  disk (apply_op_world w o io_ok) =
    if io_ok && mutates (store w) o
    then Contents (save_buf (records (apply_op (store w) o)))
    else disk w.
Proof.
  destruct o as [r|id d t v|id]; simpl.
  - unfold AddAndSave, save. simpl. now destruct io_ok.
  - unfold UpdateAndSave, save, Update.
    pose proof (update_first_spec (records (store w)) id d t v) as Hspec.
    destruct (update_first (records (store w)) id d t v) as [[rs r']|].
    + destruct Hspec as (pre & post & r & E & Hid & _).
      assert (Hex : existsb (fun r => ID r =? id) (records (store w)) = true).
      { apply existsb_exists. exists r. rewrite E, in_app_iff.
        split; [right; now left|now apply Z.eqb_eq]. }
      rewrite Hex. now destruct io_ok.
    + assert (Hex : existsb (fun r => ID r =? id) (records (store w)) = false).
      { apply not_true_is_false. intros H. apply existsb_exists in H.
        destruct H as (x & Hin & Hx). apply Z.eqb_eq in Hx.
        rewrite Forall_forall in Hspec.
        apply (Hspec x); [now apply list_elem_of_In|exact Hx]. }
      rewrite Hex. now rewrite andb_false_r.
  - unfold DeleteAndSave, save, Delete.
    pose proof (delete_first_spec (records (store w)) id) as Hspec.
    destruct (delete_first (records (store w)) id) as [rs|].
    + destruct Hspec as (pre & post & r & E & Hid & _).
      assert (Hex : existsb (fun r => ID r =? id) (records (store w)) = true).
      { apply existsb_exists. exists r. rewrite E, in_app_iff.
        split; [right; now left|now apply Z.eqb_eq]. }
      rewrite Hex. now destruct io_ok.
    + assert (Hex : existsb (fun r => ID r =? id) (records (store w)) = false).
      { apply not_true_is_false. intros H. apply existsb_exists in H.
        destruct H as (x & Hin & Hx). apply Z.eqb_eq in Hx.
        rewrite Forall_forall in Hspec.
        apply (Hspec x); [now apply list_elem_of_In|exact Hx]. }
      rewrite Hex. now rewrite andb_false_r.
Qed.

Lemma run_world_store (steps : list (op * bool)) (w : World) :
  store (run_world w steps) = apply_ops (store w) (map fst steps).
Proof.
  revert w. induction steps as [|[o ok] steps IH]; intros w; [reflexivity|].
  simpl. rewrite IH. simpl. now rewrite apply_op_world_store.
Qed.

(** X16: a failed [save] is not rolled back: whatever the outcome of the
    saves, the store in memory is the one that the operations make; the file
    changes only when an operation that changes the records is saved, and
    then holds all the records of the store, those of earlier failed saves
    included; if every save fails the file stays as it was. *)
Theorem save_failure_keeps_memory :
  forall (w : World) (steps : list (op * bool)),
    store (run_world w steps) = apply_ops (store w) (map fst steps) /\
    (forall (o : op),
        mutates (store (run_world w steps)) o = true ->
        disk (apply_op_world (run_world w steps) o true)
        = Contents (save_buf (records
                      (store (apply_op_world (run_world w steps) o true))))) /\
    (Forall (fun step => snd step = false) steps ->
     disk (run_world w steps) = disk w).
Proof.
  intros w steps. split; [|split].
  - apply run_world_store.
  - intros o Hm. rewrite apply_op_world_disk, apply_op_world_store, Hm.
    reflexivity.
  - revert w. induction steps as [|[o ok] steps IH]; intros w Hall;
      [reflexivity|].
    inversion Hall; subst. simpl in *. subst ok.
    rewrite IH by assumption. now rewrite apply_op_world_disk.
Qed.

(** ** Reloading the store after any operations *)
















(** ** The management API *)

Section ValidationProperties.

Variable ParseIP : string -> option (list byte).

(** X18: [validateRecord] trims the three fields and puts the type in upper
    case; it accepts the record exactly when the domain and the value are
    then not empty, the record is one that [buildDNSResponse] answers with
    (type A with an IPv4 address, type AAAA with an address that is not
    IPv4, or type CNAME), and a CNAME value has no space and no tab.  An
    accepted record is still answered with after [Add]. *)
Theorem validateRecord_accepts_answerable :
  forall (r r' : Record) (msg : string),
    validateRecord ParseIP r = (r', msg) ->
    r' = {| ID := ID r; Domain := TrimSpace (Domain r);
            Type_ := ToUpper (TrimSpace (Type_ r));
            Value := TrimSpace (Value r) |} /\
    (msg = EmptyString <->
     Domain r' <> EmptyString /\ Value r' <> EmptyString /\
     answer_data ParseIP r' <> None /\
     (Type_ r' = "CNAME"%string ->
      has_char " " (Value r') = false /\ has_char "009" (Value r') = false)) /\
    (msg = EmptyString ->
     forall s : Store, answer_data ParseIP (snd (Add s r')) <> None).
Proof.
  intros r r' msg. unfold validateRecord.
  set (r1 := {| ID := ID r; Domain := TrimSpace (Domain r);
                Type_ := ToUpper (TrimSpace (Type_ r));
                Value := TrimSpace (Value r) |}).
  assert (Hup : supported_type (Type_ r1) ->
             forall s : Store,
               answer_data ParseIP (snd (Add s r1)) = answer_data ParseIP r1).
  { intros Hty s. unfold answer_data. cbn [Add snd Type_ Value].
    now rewrite (supported_type_upper _ Hty). }
  assert (Hyes : supported_type (Type_ r1) ->
                 answer_data ParseIP r1 <> None ->
                 Domain r1 <> EmptyString -> Value r1 <> EmptyString ->
                 (Type_ r1 = "CNAME"%string ->
                  has_char " " (Value r1) = false /\
                  has_char "009" (Value r1) = false) ->
                 (r1, EmptyString) = (r', msg) ->
                 r' = r1 /\
                 (msg = EmptyString <->
                  Domain r' <> EmptyString /\ Value r' <> EmptyString /\
                  answer_data ParseIP r' <> None /\
                  (Type_ r' = "CNAME"%string ->
                   has_char " " (Value r') = false /\
                   has_char "009" (Value r') = false)) /\
                 (msg = EmptyString ->
                  forall s : Store,
                    answer_data ParseIP (snd (Add s r')) <> None)).
  { intros Hty Ha Hd Hv Hc [= <- <-]. split; [reflexivity|]. split.
    - split; [intros _; auto|reflexivity].
    - intros _ s. now rewrite Hup. }
  assert (Hno : forall m : string,
             m <> EmptyString ->
             (Domain r1 = EmptyString \/ Value r1 = EmptyString \/
              answer_data ParseIP r1 = None \/
              (Type_ r1 = "CNAME"%string /\
               (has_char " " (Value r1) = true \/
                has_char "009" (Value r1) = true))) ->
             (r1, m) = (r', msg) ->
             r' = r1 /\
             (msg = EmptyString <->
              Domain r' <> EmptyString /\ Value r' <> EmptyString /\
              answer_data ParseIP r' <> None /\
              (Type_ r' = "CNAME"%string ->
               has_char " " (Value r') = false /\
               has_char "009" (Value r') = false)) /\
             (msg = EmptyString ->
              forall s : Store,
                answer_data ParseIP (snd (Add s r')) <> None)).
  { intros m Hm Hbad [= <- <-]. split; [reflexivity|]. split.
    - split; [intros E; contradiction|].
      intros (Hd & Hv & Ha & Hc).
      destruct Hbad as [H|[H|[H|[HC H]]]]; try contradiction.
      destruct (Hc HC) as [H1 H2]. destruct H; congruence.
    - intros E. contradiction. }
  clearbody r1.
  destruct (String.eqb_spec (Domain r1) EmptyString) as [Hd|Hd].
  { apply Hno; [discriminate|auto]. }
  destruct (String.eqb_spec (Value r1) EmptyString) as [Hv|Hv].
  { apply Hno; [discriminate|auto]. }
  destruct (String.eqb_spec (Type_ r1) "A") as [HA|HA].
  { destruct (ParseIP (Value r1)) as [p|] eqn:Ep; cbn [is_nil orb].
    - destruct (To4 (Some p)) as [ip|] eqn:E4; cbn [is_nil].
      + apply Hyes; auto; [now left| |rewrite HA; discriminate].
        unfold answer_data. rewrite HA, Ep, E4. discriminate.
      + apply Hno; [discriminate|]. right. right. left.
        unfold answer_data. now rewrite HA, Ep, E4.
    - apply Hno; [discriminate|]. right. right. left.
      unfold answer_data. now rewrite HA, Ep. }
  destruct (String.eqb_spec (Type_ r1) "AAAA") as [H6|H6].
  { destruct (ParseIP (Value r1)) as [p|] eqn:Ep; cbn [is_nil orb].
    - destruct (To4 (Some p)) as [ip|] eqn:E4; cbn [is_nil negb].
      + apply Hno; [discriminate|]. right. right. left.
        unfold answer_data. now rewrite H6, Ep, E4.
      + apply Hyes; auto; [right; now left| |rewrite H6; discriminate].
        unfold answer_data. rewrite H6, Ep, E4. discriminate.
    - apply Hno; [discriminate|]. right. right. left.
      unfold answer_data. now rewrite H6, Ep. }
  destruct (String.eqb_spec (Type_ r1) "CNAME") as [HC|HC].
  { destruct (has_char " " (Value r1)) eqn:Esp; cbn [orb].
    - apply Hno; [discriminate|]. right. right. right. auto.
    - destruct (has_char "009" (Value r1)) eqn:Etab.
      + apply Hno; [discriminate|]. right. right. right. auto.
      + apply Hyes; auto; [right; now right|].
        unfold answer_data. rewrite HC. discriminate. }
  apply Hno; [discriminate|]. right. right. left.
  unfold answer_data.
  destruct (String.eqb_spec (Type_ r1) "A"); [contradiction|].
  destruct (String.eqb_spec (Type_ r1) "AAAA"); [contradiction|].
  destruct (String.eqb_spec (Type_ r1) "CNAME"); [contradiction|].
  reflexivity.
Qed.

Lemma AddAndSave_spec (w : World) (r : Record) (io_ok : bool) :
  AddAndSave w r io_ok
  = ({| store := fst (Add (store w) r);
        disk := if io_ok
                then Contents (save_buf (records (fst (Add (store w) r))))
                else disk w |},
     snd (Add (store w) r), io_ok).
Proof. unfold AddAndSave, save. simpl. now destruct io_ok. Qed.

Lemma UpdateAndSave_spec (w : World) (id : Z) (d t v : string)
      (io_ok : bool) :
  match Update (store w) id d t v with
  | None =>
      mutates (store w) (OpUpdate id d t v) = false /\
      UpdateAndSave w id d t v io_ok
      = (w, mkRecord 0 EmptyString EmptyString EmptyString, Some ErrNotExist)
  | Some (s', r') =>
      mutates (store w) (OpUpdate id d t v) = true /\
      UpdateAndSave w id d t v io_ok
      = ({| store := s';
            disk := if io_ok then Contents (save_buf (records s'))
                    else disk w |},
         r', if io_ok then None else Some ErrSave)
  end.
Proof.
  unfold UpdateAndSave, save, Update. cbn [mutates].
  pose proof (update_first_spec (records (store w)) id d t v) as Hspec.
  destruct (update_first (records (store w)) id d t v) as [[rs r']|].
  - destruct Hspec as (pre & post & r & E & Hid & _).
    split; [|now destruct io_ok].
    apply existsb_exists. exists r. rewrite E, in_app_iff.
    split; [right; now left|now apply Z.eqb_eq].
  - split; [|reflexivity].
    apply not_true_is_false. intros H. apply existsb_exists in H.
    destruct H as (x & Hin & Hx). apply Z.eqb_eq in Hx.
    rewrite Forall_forall in Hspec.
    apply (Hspec x); [now apply list_elem_of_In|exact Hx].
Qed.

Lemma DeleteAndSave_spec (w : World) (id : Z) (io_ok : bool) :
  match Delete (store w) id with
  | None =>
      mutates (store w) (OpDelete id) = false /\
      DeleteAndSave w id io_ok = (w, Some ErrNotExist)
  | Some s' =>
      mutates (store w) (OpDelete id) = true /\
      DeleteAndSave w id io_ok
      = ({| store := s';
            disk := if io_ok then Contents (save_buf (records s'))
                    else disk w |},
         if io_ok then None else Some ErrSave)
  end.
Proof.
  unfold DeleteAndSave, save, Delete. cbn [mutates].
  pose proof (delete_first_spec (records (store w)) id) as Hspec.
  destruct (delete_first (records (store w)) id) as [rs|].
  - destruct Hspec as (pre & post & r & E & Hid & _).
    split; [|now destruct io_ok].
    apply existsb_exists. exists r. rewrite E, in_app_iff.
    split; [right; now left|now apply Z.eqb_eq].
  - split; [|reflexivity].
    apply not_true_is_false. intros H. apply existsb_exists in H.
    destruct H as (x & Hin & Hx). apply Z.eqb_eq in Hx.
    rewrite Forall_forall in Hspec.
    apply (Hspec x); [now apply list_elem_of_In|exact Hx].
Qed.

(** X19: the status codes of the three handlers that change the store.
    The status is 200, 201, 204, 400, 404 or 500.  With 400 neither the
    store nor the file has changed.  With 200, 201 or 204 the file holds
    the records of the store.  With 500 the change was made to the store in
    memory but the file is as before.  With 404 either nothing has changed,
    or the change was made in memory, the file is as before, and the error
    of [save] was of the kind "no such file or directory". *)
Theorem handler_status_meaning :
  forall (w w' : World) (c : api_call) (io_ok enoent : bool)
         (resp : Response),
    serve ParseIP w c io_ok enoent = (w', resp) ->
    let unsaved :=
      io_ok = false /\ disk w' = disk w /\
      exists o : op,
        mutates (store w) o = true /\ store w' = apply_op (store w) o in
    In (status resp) [200; 201; 204; 400; 404; 500] /\
    (status resp = 400 -> w' = w) /\
    (In (status resp) [200; 201; 204] ->
     io_ok = true /\ disk w' = Contents (save_buf (records (store w')))) /\
    (status resp = 500 -> unsaved) /\
    (status resp = 404 -> w' = w \/ (enoent = true /\ unsaved)).
Proof.
  intros w w' c io_ok enoent resp Hs. cbv zeta.
  destruct c as [decoded|id_text decoded|id_text]; cbn [serve] in Hs.
  - (* handleCreate *)
    unfold handleCreate in Hs.
    destruct decoded as [rec|];
      [|injection Hs as <- <-; cbn; intuition (auto; try discriminate; lia)].
    destruct (validateRecord ParseIP rec) as [rec' err].
    destruct (String.eqb err EmptyString); cbn [negb] in Hs;
      [|injection Hs as <- <-; cbn; intuition (auto; try discriminate; lia)].
    rewrite AddAndSave_spec in Hs.
    destruct io_ok; cbn [negb] in Hs; injection Hs as <- <-; cbn.
    + intuition (auto; try discriminate; lia).
    + split; [auto 10|]. split; [discriminate|].
      split; [intros [H|[H|[H|[]]]]; discriminate|].
      split; [|discriminate].
      intros _. split; [reflexivity|]. split; [reflexivity|].
      exists (OpAdd rec'). split; reflexivity.
  - (* handleUpdate *)
    unfold handleUpdate in Hs.
    destruct (Atoi id_text) as [id|];
      [|injection Hs as <- <-; cbn; intuition (auto; try discriminate; lia)].
    destruct decoded as [rec|];
      [|injection Hs as <- <-; cbn; intuition (auto; try discriminate; lia)].
    destruct (validateRecord ParseIP rec) as [rec' err].
    destruct (String.eqb err EmptyString); cbn [negb] in Hs;
      [|injection Hs as <- <-; cbn; intuition (auto; try discriminate; lia)].
    pose proof (UpdateAndSave_spec w id (Domain rec') (Type_ rec')
                  (Value rec') io_ok) as Hspec.
    assert (Hop : forall s' r',
               Update (store w) id (Domain rec') (Type_ rec') (Value rec')
               = Some (s', r') ->
               s' = apply_op (store w)
                      (OpUpdate id (Domain rec') (Type_ rec') (Value rec'))).
    { intros s' r' E. cbn [apply_op]. now rewrite E. }
    destruct (Update (store w) id (Domain rec') (Type_ rec') (Value rec'))
      as [[s' r']|].
    + destruct Hspec as [Hm Hspec]. rewrite Hspec in Hs.
      specialize (Hop s' r' eq_refl).
      destruct io_ok; cbn [is_not_exist] in Hs.
      * injection Hs as <- <-; cbn.
        intuition (auto; try discriminate; lia).
      * destruct enoent; injection Hs as <- <-; cbn.
        -- split; [auto 10|]. split; [discriminate|].
           split; [intros [H|[H|[H|[]]]]; discriminate|].
           split; [discriminate|].
           intros _. right. split; [reflexivity|].
           split; [reflexivity|]. split; [reflexivity|]. eauto.
        -- split; [auto 10|]. split; [discriminate|].
           split; [intros [H|[H|[H|[]]]]; discriminate|].
           split; [|discriminate].
           intros _. split; [reflexivity|]. split; [reflexivity|]. eauto.
    + destruct Hspec as [Hm Hspec]. rewrite Hspec in Hs.
      cbn [is_not_exist] in Hs. injection Hs as <- <-; cbn.
      split; [auto 10|]. split; [discriminate|].
      split; [intros [H|[H|[H|[]]]]; discriminate|].
      split; [discriminate|]. intros _. now left.
  - (* handleDelete *)
    unfold handleDelete in Hs.
    destruct (Atoi id_text) as [id|];
      [|injection Hs as <- <-; cbn; intuition (auto; try discriminate; lia)].
    pose proof (DeleteAndSave_spec w id io_ok) as Hspec.
    assert (Hop : forall s',
               Delete (store w) id = Some s' ->
               s' = apply_op (store w) (OpDelete id)).
    { intros s' E. cbn [apply_op]. now rewrite E. }
    destruct (Delete (store w) id) as [s'|].
    + destruct Hspec as [Hm Hspec]. rewrite Hspec in Hs.
      specialize (Hop s' eq_refl).
      destruct io_ok; cbn [is_not_exist] in Hs.
      * injection Hs as <- <-; cbn.
        intuition (auto; try discriminate; lia).
      * destruct enoent; injection Hs as <- <-; cbn.
        -- split; [auto 10|]. split; [discriminate|].
           split; [intros [H|[H|[H|[]]]]; discriminate|].
           split; [discriminate|].
           intros _. right. split; [reflexivity|].
           split; [reflexivity|]. split; [reflexivity|]. eauto.
        -- split; [auto 10|]. split; [discriminate|].
           split; [intros [H|[H|[H|[]]]]; discriminate|].
           split; [|discriminate].
           intros _. split; [reflexivity|]. split; [reflexivity|]. eauto.
    + destruct Hspec as [Hm Hspec]. rewrite Hspec in Hs.
      cbn [is_not_exist] in Hs. injection Hs as <- <-; cbn.
      split; [auto 10|]. split; [discriminate|].
      split; [intros [H|[H|[H|[]]]]; discriminate|].
      split; [discriminate|]. intros _. now left.
Qed.

End ValidationProperties.

(** ** The bearer token *)

Lemma HasPrefix_TrimPrefix (s prefix t : string) :
  HasPrefix s prefix = true /\ TrimPrefix s prefix = t <->
  s = prefix +:+ t.
Proof.
  unfold TrimPrefix. revert s. induction prefix as [|p prefix IH]; intros s.
  - rewrite string_app_nil_l. simpl. split; [now intros [_ ->]|auto].
  - rewrite string_app_cons. destruct s as [|c s]; simpl.
    + split; [intros [H _]; discriminate|discriminate].
    + destruct (Ascii.eqb_spec c p) as [->|Hne]; simpl.
      * specialize (IH s). split.
        -- intros [H1 H2]. rewrite H1 in *. f_equal. apply IH. auto.
        -- intros [= E]. apply IH in E. destruct E as [E1 E2].
           rewrite E1 in *. auto.
      * split; [intros [H _]; discriminate|]. intros [= E _]. contradiction.
Qed.

Section AuthProperties.

Variable State : Type.

(** X20: [requireAuth] lets a request through to the wrapped handler when
    its path does not start with [/api/], or when its [Authorization]
    header is exactly the word Bearer, one space and the token; every other
    request gets status 401 and does not reach the wrapped handler. *)
Theorem requireAuth_exact_bearer :
  forall (token : string) (next : Request -> State -> State * Response)
         (r : Request) (st : State),
    (HasPrefix (Path r) "/api/" = false \/
     Authorization r = "Bearer " +:+ token ->
     requireAuth State token next r st = next r st) /\
    (HasPrefix (Path r) "/api/" = true ->
     Authorization r <> "Bearer " +:+ token ->
     requireAuth State token next r st
     = (st, {| status := 401;
               content_type := Some "application/json"%string;
               body := ErrorBody "unauthorized" |})).
Proof.
  intros token next r st. unfold requireAuth.
  pose proof (HasPrefix_TrimPrefix (Authorization r) "Bearer " token) as Hp.
  destruct (HasPrefix (Path r) "/api/"); cbn [negb].
  - destruct (HasPrefix (Authorization r) "Bearer ") eqn:Eb; cbn [negb orb].
    + destruct (String.eqb_spec (TrimPrefix (Authorization r) "Bearer ")
                                token) as [Et|Et]; cbn [negb].
      * split; [reflexivity|]. intros _ Hne. exfalso. apply Hne.
        apply Hp. auto.
      * split; [|reflexivity]. intros [H|H]; [discriminate|].
        apply Hp in H. destruct H. contradiction.
    + split; [|reflexivity]. intros [H|H]; [discriminate|].
      apply Hp in H. destruct H. discriminate.
  - split; [reflexivity|discriminate].
Qed.

End AuthProperties.

(** The hexadecimal digits are ASCII and are not white space. *)
Lemma hex_digits_not_space (v : byte) :
  is_space (hex_digit (Z.shiftr (byte_val v) 4)) = false /\
  is_space (hex_digit (Z.land (byte_val v) 15)) = false.
Proof. destruct v; split; vm_compute; reflexivity. Qed.

Lemma hex_digits_ascii (v : byte) :
  is_ascii_byte (hex_digit (Z.shiftr (byte_val v) 4)) = true /\
  is_ascii_byte (hex_digit (Z.land (byte_val v) 15)) = true.
Proof. destruct v; split; vm_compute; reflexivity. Qed.

Lemma TrimRightSpace_cons (a : ascii) (s : string) :
  is_space a = false ->
  TrimRightSpace (String a s) = String a (TrimRightSpace s).
Proof.
  intros Ha. cbn [TrimRightSpace].
  destruct (TrimRightSpace s); [now rewrite Ha|reflexivity].
Qed.

Lemma ends_outside_ascii_EncodeToString (b : list byte) :
  ends_outside_ascii (EncodeToString b) = false.
Proof.
  induction b as [|v b IH]; [reflexivity|].
  destruct (hex_digits_ascii v) as [_ H2].
  cbn [EncodeToString ends_outside_ascii].
  destruct (EncodeToString b) as [|c rest] eqn:E; [now rewrite H2|exact IH].
Qed.

Lemma TrimSpace_EncodeToString_nl (b : list byte) :
  TrimSpace (EncodeToString b +:+ String "010" EmptyString)
  = EncodeToString b.
Proof.
  assert (Hr : forall b : list byte,
             TrimRightSpace (EncodeToString b +:+ String "010" EmptyString)
             = EncodeToString b).
  { clear b. induction b as [|v b IH]; [reflexivity|].
    destruct (hex_digits_not_space v) as [H1 H2].
    cbn [EncodeToString]. rewrite !string_app_cons.
    rewrite (TrimRightSpace_cons _ _ H1), (TrimRightSpace_cons _ _ H2).
    now rewrite IH. }
  destruct b as [|v b]; [reflexivity|].
  destruct (hex_digits_not_space v) as [H1 _].
  destruct (hex_digits_ascii v) as [A1 _].
  pose proof (Hr (v :: b)) as Hvb.
  cbn [EncodeToString] in Hvb |- *. rewrite !string_app_cons in Hvb |- *.
  cbn [TrimSpace]. rewrite A1, H1. cbn [negb]. unfold trim_end.
  rewrite Hvb.
  change (String (hex_digit (Z.shiftr (byte_val v) 4))
            (String (hex_digit (Z.land (byte_val v) 15)) (EncodeToString b)))
    with (EncodeToString (v :: b)).
  now rewrite ends_outside_ascii_EncodeToString.
Qed.

Lemma slen_EncodeToString (b : list byte) :
  slen (EncodeToString b) = 2 * len b.
Proof.
  unfold slen, len. induction b as [|v b IH]; [reflexivity|].
  cbn [EncodeToString String.length length]. lia.
Qed.

(** X21: [loadOrCreateToken] is stable.  When it returns a token, the token
    is not empty and every later call, whatever the random source and
    whether the file can be written, returns the same token and leaves the
    file as it is.  A token that had to be generated is the 64 hexadecimal
    digits of the 32 random bytes, and the file holds it followed by a line
    feed. *)
Theorem loadOrCreateToken_stable :
  forall (f f' : file_state) (random : option (list byte))
         (write_ok : bool) (token : string),
    (forall b : list byte, random = Some b -> len b = 32) ->
    loadOrCreateToken f random write_ok = Some (f', token) ->
    0 < slen token /\
    (forall (random' : option (list byte)) (write_ok' : bool),
        loadOrCreateToken f' random' write_ok' = Some (f', token)) /\
    (f' = f \/
     exists b : list byte,
       random = Some b /\ write_ok = true /\
       token = EncodeToString b /\ slen token = 64 /\
       f' = Contents (token +:+ String "010" EmptyString)).
Proof.
  intros f f' random write_ok token Hlen.
  assert (Hgen :
    match random with
    | None => None
    | Some b =>
        if write_ok
        then Some (Contents (EncodeToString b +:+ String "010" EmptyString),
                   EncodeToString b)
        else None
    end = Some (f', token) ->
    0 < slen token /\
    (forall (random' : option (list byte)) (write_ok' : bool),
        loadOrCreateToken f' random' write_ok' = Some (f', token)) /\
    (f' = f \/
     exists b : list byte,
       random = Some b /\ write_ok = true /\
       token = EncodeToString b /\ slen token = 64 /\
       f' = Contents (token +:+ String "010" EmptyString))).
  { destruct random as [b|]; [|discriminate].
    destruct write_ok; [|discriminate]. intros [= <- <-].
    assert (H64 : slen (EncodeToString b) = 64).
    { rewrite slen_EncodeToString, (Hlen b eq_refl). reflexivity. }
    split; [lia|]. split.
    - intros random' write_ok'. unfold loadOrCreateToken.
      rewrite TrimSpace_EncodeToString_nl, H64. reflexivity.
    - right. exists b. auto. }
  unfold loadOrCreateToken. destruct f as [| |data]; try exact Hgen.
  destruct (Z.ltb_spec 0 (slen (TrimSpace data))) as [Hpos|Hpos];
    [|exact Hgen].
  intros [= <- <-]. split; [exact Hpos|]. split; [|now left].
  intros random' write_ok'. unfold loadOrCreateToken.
  destruct (Z.ltb_spec 0 (slen (TrimSpace data))); [reflexivity|lia].
Qed.

(** ** The upstream servers *)

Lemma getLocalIPs_grows (ifaces : list (option (list string)))
      (ips : gset string) (x : string) :
  x ∈ ips ->
  x ∈ fold_left
        (fun ips iface =>
           match iface with
           | None => ips
           | Some addrs => fold_left (fun ips a => ips ∪ {[ a ]}) addrs ips
           end)
        ifaces ips.
Proof.
  revert ips. induction ifaces as [|iface ifaces IH]; intros ips Hx;
    [exact Hx|].
  cbn [fold_left]. apply IH. destruct iface as [addrs|]; [|exact Hx].
  clear IH. revert ips Hx. induction addrs as [|a addrs IHa]; intros ips Hx;
    [exact Hx|].
  cbn [fold_left]. apply IHa. set_solver.
Qed.

Lemma getLocalIPs_loopback (ifaces : option (list (option (list string)))) :
  "127.0.0.1"%string ∈ getLocalIPs ifaces /\
  "::1"%string ∈ getLocalIPs ifaces.
Proof.
  unfold getLocalIPs. destruct ifaces as [ifaces|].
  - split; apply getLocalIPs_grows; set_solver.
  - split; set_solver.
Qed.

Lemma resolv_line_servers (L : gset string) (P : string -> Prop)
      (servers : list string) (line : string) :
  (forall ip : string, ip ∉ L -> P (JoinHostPort ip "53")) ->
  List.Forall P servers ->
  List.Forall P (resolv_line L servers line).
Proof.
  intros HP Hs. unfold resolv_line.
  destruct (HasPrefix (TrimSpace line) "nameserver"); cbn [negb];
    [|exact Hs].
  destruct (Fields (TrimSpace line)) as [|f0 [|ip fs]]; try exact Hs.
  destruct (bool_decide_reflect (ip ∈ L)) as [Hin|Hin]; [exact Hs|].
  apply Forall_app. split; [exact Hs|]. constructor; [|constructor].
  now apply HP.
Qed.

Lemma resolv_lines_servers (L : gset string) (P : string -> Prop)
      (lines : list string) (servers : list string) :
  (forall ip : string, ip ∉ L -> P (JoinHostPort ip "53")) ->
  List.Forall P servers ->
  List.Forall P (fold_left (resolv_line L) lines servers).
Proof.
  intros HP. revert servers.
  induction lines as [|l lines IH]; intros servers Hs; [exact Hs|].
  cbn [fold_left]. apply IH. now apply resolv_line_servers.
Qed.

Lemma resolv_files_servers (L : gset string) (P : string -> Prop)
      (files : list file_state) (servers : list string) :
  (forall ip : string, ip ∉ L -> P (JoinHostPort ip "53")) ->
  List.Forall P servers ->
  List.Forall P (resolv_files L files servers).
Proof.
  intros HP. revert servers.
  induction files as [|f files IH]; intros servers Hs; [exact Hs|].
  cbn [resolv_files]. destruct f as [| |data]; try (now apply IH).
  pose proof (resolv_lines_servers L P (Split data "010") servers HP Hs).
  destruct (0 <? len (fold_left (resolv_line L) (Split data "010") servers));
    [assumption|now apply IH].
Qed.

(** X22: the list of upstream servers that [parseResolvConf] returns is
    never empty; it is the two public resolvers of the fallback, or every
    entry of it is [JoinHostPort ip "53"] for an address that is not one of
    the local addresses, and so neither 127.0.0.1 nor ::1; and when the
    first configuration file gives a server, the second file is not used. *)
Theorem parseResolvConf_upstreams :
  forall (ifaces : option (list (option (list string))))
         (etc_resolv systemd_resolv : file_state),
    let servers := parseResolvConf ifaces etc_resolv systemd_resolv in
    servers <> [] /\
    (servers = ["8.8.8.8:53"%string; "1.1.1.1:53"%string] \/
     List.Forall
       (fun srv =>
          exists ip : string,
            srv = JoinHostPort ip "53" /\ (ip ∉ getLocalIPs ifaces) /\
            ip <> "127.0.0.1"%string /\ ip <> "::1"%string)
       servers) /\
    (resolv_files (getLocalIPs ifaces) [etc_resolv] [] <> [] ->
     forall other : file_state,
       parseResolvConf ifaces etc_resolv other = servers).
Proof.
  intros ifaces f1 f2 servers. unfold servers, parseResolvConf.
  set (L := getLocalIPs ifaces).
  split; [|split].
  - destruct (Z.eqb_spec (len (resolv_files L [f1; f2] [])) 0) as [E|E];
      [discriminate|].
    intros H. rewrite H in E. now apply E.
  - destruct (Z.eqb_spec (len (resolv_files L [f1; f2] [])) 0) as [E|E];
      [now left|right].
    apply resolv_files_servers; [|constructor].
    intros ip Hip. exists ip. split; [reflexivity|]. split; [exact Hip|].
    destruct (getLocalIPs_loopback ifaces) as [H4 H6]. fold L in H4, H6.
    split; intros ->; contradiction.
  - intros Hne other. cbn [resolv_files] in *.
    destruct f1 as [| |data]; try (now contradiction Hne).
    assert (Hlen : forall l : list string, l <> [] -> (0 <? len l) = true).
    { intros l Hl. apply Z.ltb_lt. unfold len. destruct l; [contradiction|].
      simpl. lia. }
    destruct (0 <? len (fold_left (resolv_line L) (Split data "010") []))
      eqn:E; [reflexivity|].
    rewrite Hlen in E; [discriminate|]. exact Hne.
Qed.

Lemma TrimRightSpace_no_space (s : string) :
  (forall c : ascii, has_char c s = true -> is_space c = false) ->
  TrimRightSpace s = s.
Proof.
  induction s as [|a s IH]; intros Hs; [reflexivity|].
  rewrite TrimRightSpace_cons.
  - rewrite IH; [reflexivity|]. intros c Hc. apply Hs. simpl.
    rewrite Hc. apply orb_true_r.
  - apply Hs. simpl. now rewrite Ascii.eqb_refl.
Qed.

Lemma TrimRightSpace_cons_keep (a : ascii) (b : string) :
  b <> EmptyString -> TrimRightSpace b = b ->
  TrimRightSpace (String a b) = String a b.
Proof.
  intros Hne Hb. cbn [TrimRightSpace]. rewrite Hb.
  destruct b; [contradiction|reflexivity].
Qed.

Lemma TrimRightSpace_app_keep (a b : string) :
  b <> EmptyString -> TrimRightSpace b = b ->
  TrimRightSpace (a +:+ b) = a +:+ b.
Proof.
  intros Hne Hb. induction a as [|x a IH]; [exact Hb|].
  rewrite string_app_cons. apply TrimRightSpace_cons_keep; [|exact IH].
  now apply string_app_nonempty_r.
Qed.

Lemma HasPrefix_app (p t : string) : HasPrefix (p +:+ t) p = true.
Proof.
  induction p as [|x p IH]; [reflexivity|].
  rewrite string_app_cons. cbn [HasPrefix]. now rewrite Ascii.eqb_refl.
Qed.

Lemma fields_go_word (w : string) (cur : option string) :
  (forall c : ascii, has_char c w = true -> is_space c = false) ->
  w <> EmptyString \/ cur <> None ->
  fields_go w cur = [default EmptyString cur +:+ w].
Proof.
  revert cur. induction w as [|a w IH]; intros cur Hw Hne.
  - destruct cur as [f|]; [|destruct Hne; contradiction].
    simpl. now rewrite string_app_nil_r.
  - cbn [fields_go]. rewrite (Hw a) by (simpl; now rewrite Ascii.eqb_refl).
    rewrite IH.
    + cbn [default]. unfold id. now rewrite string_app_assoc.
    + intros c Hc. apply Hw. simpl. rewrite Hc. apply orb_true_r.
    + right. discriminate.
Qed.

Lemma fields_go_word_space (w rest : string) (cur : option string) :
  (forall c : ascii, has_char c w = true -> is_space c = false) ->
  w <> EmptyString \/ cur <> None ->
  fields_go (w +:+ String " " rest) cur
  = (default EmptyString cur +:+ w) :: fields_go rest None.
Proof.
  revert cur. induction w as [|a w IH]; intros cur Hw Hne.
  - destruct cur as [f|]; [|destruct Hne; contradiction].
    rewrite string_app_nil_l. cbn [fields_go default].
    change (is_space " ") with true. cbn iota.
    now rewrite string_app_nil_r.
  - rewrite string_app_cons. cbn [fields_go].
    rewrite (Hw a) by (simpl; now rewrite Ascii.eqb_refl).
    rewrite IH.
    + cbn [default]. unfold id. now rewrite string_app_assoc.
    + intros c Hc. apply Hw. simpl. rewrite Hc. apply orb_true_r.
    + right. discriminate.
Qed.

Lemma isASCII_app (a b : string) :
  isASCII (a +:+ b) = isASCII a && isASCII b.
Proof.
  induction a as [|x a IH]; [reflexivity|].
  rewrite string_app_cons. cbn [isASCII]. rewrite IH. apply andb_assoc.
Qed.

Lemma ends_outside_ascii_isASCII (s : string) :
  isASCII s = true -> ends_outside_ascii s = false.
Proof.
  induction s as [|c s IH]; [reflexivity|].
  cbn [isASCII]. intros H. apply andb_true_iff in H. destruct H as [Hc Hs].
  cbn [ends_outside_ascii]. destruct s; [now rewrite Hc|now apply IH].
Qed.

(** X23: a configuration file with one line, the word nameserver, a space
    and an address in ASCII text that holds no white space and is not a
    local address, gives that address with port 53 as the only upstream
    server, whatever the second file holds. *)
Theorem parseResolvConf_reads_nameserver :
  forall (ifaces : option (list (option (list string)))) (ip : string)
         (systemd_resolv : file_state),
    ip <> EmptyString ->
    isASCII ip = true ->
    (forall c : ascii, has_char c ip = true -> is_space c = false) ->
    ip ∉ getLocalIPs ifaces ->
    parseResolvConf ifaces
      (Contents ("nameserver " +:+ ip +:+ String "010" EmptyString))
      systemd_resolv
    = [JoinHostPort ip "53"].
Proof.
  intros ifaces ip f2 Hne Hascii Hsp Hloc.
  assert (Hword : forall c : ascii,
             has_char c "nameserver" = true -> is_space c = false).
  { intros c H. cbn [has_char] in H.
    repeat (apply orb_true_iff in H; destruct H as [H|H];
            [apply Ascii.eqb_eq in H; subst c; reflexivity|]).
    discriminate. }
  assert (Hnl : has_char "010" ("nameserver " +:+ ip) = false).
  { rewrite has_char_app.
    change (has_char "010" "nameserver ") with false. cbn [orb].
    destruct (has_char "010" ip) eqn:E; [|reflexivity].
    now apply Hsp in E. }
  assert (Hall : isASCII ("nameserver " +:+ ip) = true).
  { rewrite isASCII_app, Hascii. reflexivity. }
  assert (Htrim : TrimSpace ("nameserver " +:+ ip) = "nameserver " +:+ ip).
  { change ("nameserver " +:+ ip) with (String "n" ("ameserver " +:+ ip)) at 1.
    cbn [TrimSpace].
    change (is_ascii_byte "n") with true. change (is_space "n") with false.
    cbn [negb]. unfold trim_end.
    change (String "n" ("ameserver " +:+ ip)) with ("nameserver " +:+ ip).
    rewrite TrimRightSpace_app_keep;
      [|exact Hne|now apply TrimRightSpace_no_space].
    now rewrite ends_outside_ascii_isASCII. }
  assert (Hline : resolv_line (getLocalIPs ifaces) []
                    ("nameserver " +:+ ip) = [JoinHostPort ip "53"]).
  { unfold resolv_line. rewrite Htrim.
    unfold Fields. rewrite Hall.
    change ("nameserver " +:+ ip) with ("nameserver" +:+ String " " ip).
    rewrite HasPrefix_app. cbn [negb].
    rewrite (fields_go_word_space "nameserver" ip None Hword)
      by (left; discriminate).
    rewrite (fields_go_word ip None Hsp) by (now left).
    cbn [default]. rewrite !string_app_nil_l.
    destruct (bool_decide_reflect (ip ∈ getLocalIPs ifaces)) as [H|_];
      [contradiction|].
    reflexivity. }
  unfold parseResolvConf. cbn [resolv_files].
  rewrite <- string_app_assoc.
  rewrite (Split_app_sep "010" _ EmptyString Hnl).
  cbn [Split fold_left]. rewrite Hline.
  reflexivity.
Qed.

End WithUnicode.

(** * Samples

    The statements above at concrete inputs, and the inputs on which a
    statement of the specification fails.  The data is ASCII text; the
    Unicode side of the [strings] package is [unicode_untouched]. *)

#[global] Existing Instance unicode_untouched.

(** C1, counterexample: the name in [ten_pointers] needs exactly ten jumps,
    which does not exceed the maximum of ten, and yet [parseDNSName] reports
    a decode error. *)
Lemma parseDNSName_ten_jumps_rejected :
  name_at ten_pointers 0 10 [] 2 /\
  ~ (10 < 10)%nat /\
  parseDNSName ten_pointers 0 = Done (EmptyString, -1).
Proof.
  split; [exact ten_pointers_name|]. split; [lia|]. reflexivity.
Qed.

(** The self-referencing pointer of the test suite: offset 12 points to
    offset 12. *)
Lemma parseDNSName_terminates_and_bounds_jumps_witness :
  parseDNSName (repeat x00 12 ++ [xc0; x0c]) 12 = Done (EmptyString, -1) /\
  parseDNSName [x01; x61; x00] 0 = Done ("a"%string, 3) /\
  exists r : string * Z, parseDNSName [x01; x61; x00] 0 = Done r.
Proof.
  split; [|split].
  - apply (proj1 (proj2 (proj2 (parseDNSName_terminates_and_bounds_jumps
                                  (repeat x00 12 ++ [xc0; x0c]) 12)))).
    exists 0%nat, 0%nat, 12. split; reflexivity.
  - apply (proj1 (proj2 (proj2 (proj2
                    (parseDNSName_terminates_and_bounds_jumps
                       [x01; x61; x00] 0))) 0%nat ["a"%string] 3
                    (name_label [x01; x61; x00] 0 x01 0 [] 3 eq_refl
                       ltac:(vm_compute; discriminate)
                       ltac:(vm_compute; discriminate)
                       ltac:(vm_compute; discriminate)
                       (name_end [x01; x61; x00] 2 x00 eq_refl eq_refl)))).
    lia.
  - apply (proj2 (proj2 (proj1 (parseDNSName_terminates_and_bounds_jumps
                                  [x01; x61; x00] 0)))).
    lia.
Defined.

Lemma parseDNSName_encodeDNSName_witness :
  parseDNSName (encodeDNSName "app.my.local") 0 =
    Done ("app.my.local"%string, 14).
Proof.
  apply (parseDNSName_encodeDNSName
           ["app"%string; "my"%string; "local"%string]).
  repeat constructor; vm_compute; congruence.
Defined.

Lemma Resolve_authoritative_witness :
  exists s : Store,
    NewStore NotExist = Some s /\
    Resolve (apply_ops s [OpAdd (mkRecord 0 "App.My.Local" "a" "10.0.0.1")])
            "APP.my.local" 28 <> ([], false).
Proof.
  eexists. split; [reflexivity|].
  intros H.
  apply (proj1 (proj2 (Resolve_authoritative NotExist _
           [OpAdd (mkRecord 0 "App.My.Local" "a" "10.0.0.1")]
           "APP.my.local" 28 eq_refl))) in H.
  vm_compute in H. discriminate H.
Defined.

Lemma Resolve_cname_fallback_witness :
  exists (s : Store) (c : Record),
    NewStore NotExist = Some s /\
    Resolve (apply_ops s [OpAdd (mkRecord 0 "alias.local" "CNAME" "t.local")])
            "alias.local" 1 = ([c], true) /\
    Resolve (apply_ops s [OpAdd (mkRecord 0 "alias.local" "CNAME" "t.local")])
            "alias.local" 28 = ([c], true).
Proof.
  eexists. eexists. split; [reflexivity|]. split.
  - apply (proj2 (Resolve_cname_fallback NotExist _
             [OpAdd (mkRecord 0 "alias.local" "CNAME" "t.local")]
             "alias.local" 1 eq_refl)
             (mkRecord 1 "alias.local" "CNAME" "t.local")); reflexivity.
  - destruct (proj1 (Resolve_cname_fallback NotExist _
             [OpAdd (mkRecord 0 "alias.local" "CNAME" "t.local")]
             "alias.local" 28 eq_refl)) as (c & Hc & _).
    + lia.
    + reflexivity.
    + exists (mkRecord 1 "alias.local" "CNAME" "t.local").
      split; [left|]; reflexivity.
    + rewrite Hc. vm_compute in Hc. congruence.
Defined.





(** C8, counterexample: a record whose domain has a tab inside (the
    management layer lets it through) is written as a line of five fields,
    which [load] skips. *)
Lemma reload_loses_domain_with_tab :
  exists s2 : Store,
    NewStore (disk (add_all new_world [tabbed_record])) = Some s2 /\
    records (store (add_all new_world [tabbed_record])) <> [] /\
    records s2 = [].
Proof.
  eexists. split; [vm_compute; reflexivity|].
  split; [discriminate|reflexivity].
Qed.

Lemma reload_after_adds_witness :
  NewStore (disk (add_all new_world two_records))
  = Some (store (add_all new_world two_records)).
Proof.
  apply (proj1 (reload_after_adds two_records
    ltac:(repeat constructor; vm_compute; auto)
    ltac:(vm_compute; reflexivity))).
Defined.



Lemma buildServFail_flags_witness :
  exists fail : list byte,
    buildServFail ([x12; x34; x01; x00; x00; x05; x00; x00; x00; x00; x00; x00]
                     ++ [x00; x00; x01; x00; x01]) 17 = Some fail /\
    flag_bit fail 2 2 = Some false /\
    field16 fail 4 = Some 1.
Proof.
  destruct (buildServFail_flags (fun _ => None)
              ([x12; x34; x01; x00; x00; x05; x00; x00; x00; x00; x00; x00]
                 ++ [x00; x00; x01; x00; x01]) 17 [] x01
              ltac:(vm_compute; split; discriminate) eq_refl)
    as (fail & resp & Hfail & _ & _ & _ & _ & _ & HAA & _ & Hqd).
  exists fail. auto.
Defined.

Lemma handleQuery_drops_witness :
  handleQuery (fun _ => None) (fun _ => None) empty_store
    [x12; x34; x81; x80; x00; x01; x00; x00; x00; x00; x00; x00; x00; x00;
     x01; x00; x01] = Done None.
Proof.
  apply (proj1 (handleQuery_drops (fun _ => None) (fun _ => None) empty_store
    [x12; x34; x81; x80; x00; x01; x00; x00; x00; x00; x00; x00; x00; x00;
     x01; x00; x01])).
  right. left. reflexivity.
Defined.

Lemma parseDNSName_result_in_bounds_witness :
  exists (name : string) (ret : Z),
    parseDNSName (repeat x00 12 ++ [x01; x61; x00]) 12 = Done (name, ret) /\
    ((name = EmptyString /\ ret = -1) \/
     (12 < ret /\ ret <= len (repeat x00 12 ++ [x01; x61; x00]))).
Proof.
  apply (parseDNSName_result_in_bounds (repeat x00 12 ++ [x01; x61; x00]) 12).
  lia.
Defined.

Lemma parseDNSName_encodeDNSName_embedded_witness :
  parseDNSName (repeat x00 12 ++ encodeDNSName "app..local." ++ [x00; x01])
               (len (repeat x00 12))
  = Done ("app.local"%string, 23).
Proof.
  apply (parseDNSName_encodeDNSName_embedded (repeat x00 12) [x00; x01]
           "app..local.").
  repeat constructor; vm_compute; discriminate.
Defined.

Lemma answer_name_is_question_name_witness :
  exists resp : list byte,
    buildDNSResponse (fun _ => None) sample_query 19
      ([] ++ mkRecord 1 "a" "CNAME" "b" :: []) = Some resp /\
    parseDNSName resp (19 + len (flat_map (answer_bytes (fun _ => None)) []))
    = Done (Join ["a"%string] ".",
            19 + len (flat_map (answer_bytes (fun _ => None)) []) + 2).
Proof.
  apply (answer_name_is_question_name (fun _ => None) sample_query 19
           [] [] (mkRecord 1 "a" "CNAME" "b") ["a"%string] 15).
  - vm_compute. split; discriminate.
  - apply (name_label sample_query 12 x01 0 [] 15 eq_refl);
      [vm_compute; discriminate|vm_compute; discriminate
      |vm_compute; discriminate|].
    apply (name_end sample_query 14 x00); reflexivity.
  - lia.
  - discriminate.
Defined.

Lemma buildDNSResponse_header_witness :
  exists resp : list byte,
    buildDNSResponse (fun _ => None) sample_query 17 [] = Some resp /\
    index_at resp 0 = index_at sample_query 0 /\
    index_at resp 1 = index_at sample_query 1 /\
    flag_bit resp 2 7 = Some true /\
    flag_bit resp 2 0 = flag_bit sample_query 2 0 /\
    flag_bit resp 3 7 = Some true /\
    rcode resp = Some 0 /\
    field16 resp 4 = Some 1 /\
    field16 resp 8 = Some 0 /\
    field16 resp 10 = Some 0 /\
    slice resp 12 17 = slice sample_query 12 17.
Proof.
  apply (proj2 (buildDNSResponse_header (fun _ => None) sample_query 17 [])).
  vm_compute. split; discriminate.
Defined.

Lemma answer_data_rdata_witness :
  ("A"%string = "A"%string /\ 1 = 1 /\ len [x0a; x00; x00; x01] = 4) \/
  (("A"%string = "AAAA"%string /\ 1 = 28 /\
    To4 (Some [x0a; x00; x00; x01]) = None /\
    (forall p : list byte,
        Some [x0a; x00; x00; x01] = Some p -> len p = 16 ->
        [x0a; x00; x00; x01] = p)) \/
   ("A"%string = "CNAME"%string /\ 1 = 5 /\
    [x0a; x00; x00; x01] = encodeDNSName "10.0.0.1")).
Proof.
  apply (answer_data_rdata (fun _ => Some [x0a; x00; x00; x01])
           (mkRecord 1 "app.my.local" "A" "10.0.0.1") 1
           [x0a; x00; x00; x01]).
  reflexivity.
Defined.

Lemma buildServFail_shape_witness :
  exists resp : list byte,
    buildServFail sample_query 19 = Some resp /\
    len resp = 19 /\
    index_at resp 0 = index_at sample_query 0 /\
    index_at resp 1 = index_at sample_query 1 /\
    field16 resp 6 = Some 0 /\
    field16 resp 8 = Some 0 /\
    field16 resp 10 = Some 0 /\
    slice resp 12 19 = slice sample_query 12 19.
Proof.
  apply (proj2 (buildServFail_shape sample_query 19)).
  vm_compute. split; discriminate.
Defined.

Lemma forwardQuery_first_reply_witness :
  forwardQuery nat
    (fun n q u => (S n, if String.eqb u "b" then Some q else None))
    0%nat ["a"%string; "b"%string; "c"%string] [x01]
  = (2%nat, Some [x01]).
Proof.
  apply (proj1 (forwardQuery_first_reply nat
           (fun n q u => (S n, if String.eqb u "b" then Some q else None))
           0%nat 2%nat ["a"%string; "b"%string; "c"%string] [x01]) [x01]).
  exists ["a"%string], ["c"%string], "b"%string, 1%nat.
  repeat split.
Defined.

(** The integration test of the repository: the store holds an A record
    for [app.my.local], the query asks for it, no upstream is needed. *)
Lemma handleQuery_well_formed_query_witness :
  exists resp : list byte,
    handleQuery (fun _ => Some [x64; x46; x1e; x01]) (fun _ => None)
      (apply_ops empty_store
         [OpAdd (mkRecord 0 "app.my.local" "A" "100.70.30.1")])
      ([x12; x34; x01; x00; x00; x01; x00; x00; x00; x00; x00; x00]
         ++ encodeDNSName "APP.my.local" ++ [x00; x01; x00; x01] ++ [])
    = Done (Some resp) /\
    buildDNSResponse (fun _ => Some [x64; x46; x1e; x01])
      ([x12; x34; x01; x00; x00; x01; x00; x00; x00; x00; x00; x00]
         ++ encodeDNSName "APP.my.local" ++ [x00; x01; x00; x01] ++ [])
      (12 + len (encodeDNSName "APP.my.local") + 4)
      (fst (Resolve (apply_ops empty_store
                       [OpAdd (mkRecord 0 "app.my.local" "A" "100.70.30.1")])
                    (Join (labels_of "APP.my.local") ".")
                    (Uint16 x00 x01)))
    = Some resp.
Proof.
  apply (proj1 (handleQuery_well_formed_query
           (fun _ => Some [x64; x46; x1e; x01]) (fun _ => None)
           NotExist empty_store
           [OpAdd (mkRecord 0 "app.my.local" "A" "100.70.30.1")]
           [x12; x34; x01; x00; x00; x01; x00; x00; x00; x00; x00; x00] []
           "APP.my.local" x00 x01 x00 x01 eq_refl eq_refl
           ltac:(repeat constructor; vm_compute; discriminate)
           eq_refl ltac:(vm_compute; discriminate))).
  vm_compute. discriminate.
Defined.

Lemma Update_replaces_first_witness :
  Update (apply_ops empty_store [OpAdd example_record]) 7 "x" "a" "y" = None.
Proof.
  apply (proj1 (Update_replaces_first
                  (apply_ops empty_store [OpAdd example_record])
                  7 "x" "a" "y")).
  repeat constructor. simpl. lia.
Defined.

Lemma Delete_removes_first_witness :
  Delete (apply_ops empty_store [OpAdd example_record]) 7 = None.
Proof.
  apply (proj1 (Delete_removes_first
                  (apply_ops empty_store [OpAdd example_record]) 7)).
  repeat constructor. simpl. lia.
Defined.

Lemma store_ids_unique_witness :
  NoDup (map ID (records (apply_ops empty_store
                            [OpAdd example_record; OpDelete 1;
                             OpAdd example_record; OpAdd example_record]))).
Proof.
  apply (store_ids_unique NotExist empty_store
           [OpAdd example_record; OpDelete 1;
            OpAdd example_record; OpAdd example_record] eq_refl).
  - constructor.
  - vm_compute. reflexivity.
Defined.

Lemma Delete_then_not_found_witness :
  exists s' : Store,
    Delete (apply_ops empty_store [OpAdd example_record]) 1 = Some s' /\
    Delete s' 1 = None /\ Update s' 1 "x" "a" "y" = None.
Proof.
  eexists. split; [reflexivity|].
  apply (Delete_then_not_found
           (apply_ops empty_store [OpAdd example_record]) _ 1 "x" "a" "y").
  - repeat constructor. intros H. apply list_elem_of_In in H. destruct H.
  - reflexivity.
Defined.

Lemma Resolve_results_witness :
  Resolve (apply_ops empty_store
             [OpAdd (mkRecord 0 "app.my.local" "A" "10.0.0.1");
              OpAdd (mkRecord 0 "app.my.local" "A" "10.0.0.2")])
          "app.my.local" 1
  = ([mkRecord 1 "app.my.local" "A" "10.0.0.1";
      mkRecord 2 "app.my.local" "A" "10.0.0.2"], true).
Proof.
  apply (proj1 (proj2 (Resolve_results NotExist empty_store
           [OpAdd (mkRecord 0 "app.my.local" "A" "10.0.0.1");
            OpAdd (mkRecord 0 "app.my.local" "A" "10.0.0.2")]
           "app.my.local" 1 eq_refl))).
  - lia.
  - discriminate.
Defined.

Lemma Add_then_Resolve_witness :
  Resolve (fst (Add (apply_ops empty_store [OpAdd example_record])
                    (mkRecord 0 "APP.my.local" "aaaa" "fd00::1")))
          "APP.my.local" 255
  = (records_for (apply_ops empty_store [OpAdd example_record])
                 "APP.my.local"
       ++ [snd (Add (apply_ops empty_store [OpAdd example_record])
                    (mkRecord 0 "APP.my.local" "aaaa" "fd00::1"))], true).
Proof.
  apply (proj1 (proj2 (Add_then_Resolve NotExist empty_store
                         [OpAdd example_record]
                         (mkRecord 0 "APP.my.local" "aaaa" "fd00::1")
                         eq_refl))).
  reflexivity.
Defined.

Lemma save_failure_keeps_memory_witness :
  disk (apply_op_world
          (run_world new_world [(OpAdd example_record, false)])
          (OpAdd tabbed_record) true)
  = Contents (save_buf (records (store (apply_op_world
                (run_world new_world [(OpAdd example_record, false)])
                (OpAdd tabbed_record) true)))).
Proof.
  apply (proj1 (proj2 (save_failure_keeps_memory new_world
                         [(OpAdd example_record, false)]))
           (OpAdd tabbed_record)).
  reflexivity.
Defined.


Lemma validateRecord_accepts_answerable_witness :
  answer_data (fun _ => Some [x0a; x00; x00; x01])
    (snd (Add empty_store
            (fst (validateRecord (fun _ => Some [x0a; x00; x00; x01])
                    (mkRecord 0 " App.my.local " "a" "10.0.0.1")))))
  <> None.
Proof.
  apply (proj2 (proj2 (validateRecord_accepts_answerable
                         (fun _ => Some [x0a; x00; x00; x01])
                         (mkRecord 0 " App.my.local " "a" "10.0.0.1")
                         _ EmptyString eq_refl))).
  reflexivity.
Defined.

Lemma handler_status_meaning_witness :
  disk (fst (serve (fun _ => Some [x0a; x00; x00; x01]) new_world
               (CreateCall (Some example_record)) false false))
  = disk new_world.
Proof.
  exact (proj1 (proj2
    (proj1 (proj2 (proj2 (proj2
       (handler_status_meaning (fun _ => Some [x0a; x00; x00; x01])
          new_world
          (fst (serve (fun _ => Some [x0a; x00; x00; x01]) new_world
                  (CreateCall (Some example_record)) false false))
          (CreateCall (Some example_record)) false false
          (snd (serve (fun _ => Some [x0a; x00; x00; x01]) new_world
                  (CreateCall (Some example_record)) false false))
          eq_refl))))
       eq_refl))).
Defined.

Lemma requireAuth_exact_bearer_witness :
  requireAuth World "s3cret"
    (fun _ w => handleList w)
    (mkRequest "/api/records" "Bearer s3cre") new_world
  = (new_world, {| status := 401;
                   content_type := Some "application/json"%string;
                   body := ErrorBody "unauthorized" |}).
Proof.
  apply (proj2 (requireAuth_exact_bearer World "s3cret"
                  (fun _ w => handleList w)
                  (mkRequest "/api/records" "Bearer s3cre") new_world)).
  - reflexivity.
  - discriminate.
Defined.

Lemma loadOrCreateToken_stable_witness :
  loadOrCreateToken
    (Contents (EncodeToString (repeat xa7 32) +:+ String "010" EmptyString))
    None false
  = Some (Contents (EncodeToString (repeat xa7 32)
                      +:+ String "010" EmptyString),
          EncodeToString (repeat xa7 32)).
Proof.
  refine (proj1 (proj2 (loadOrCreateToken_stable NotExist _
                          (Some (repeat xa7 32)) true _ _ eq_refl))
            None false).
  intros b [= <-]. reflexivity.
Defined.

Lemma parseResolvConf_upstreams_witness :
  parseResolvConf None
    (Contents ("nameserver 127.0.0.1" +:+ String "010" "nameserver 9.9.9.9"))
    ReadError
  = parseResolvConf None
      (Contents ("nameserver 127.0.0.1" +:+ String "010" "nameserver 9.9.9.9"))
      NotExist.
Proof.
  apply (proj2 (proj2 (parseResolvConf_upstreams None
           (Contents ("nameserver 127.0.0.1"
                        +:+ String "010" "nameserver 9.9.9.9"))
           NotExist))).
  vm_compute. discriminate.
Defined.

Lemma parseResolvConf_reads_nameserver_witness :
  parseResolvConf None
    (Contents ("nameserver " +:+ "fd00::53" +:+ String "010" EmptyString))
    NotExist
  = [JoinHostPort "fd00::53" "53"].
Proof.
  apply (parseResolvConf_reads_nameserver None "fd00::53" NotExist).
  - discriminate.
  - reflexivity.
  - intros c H. cbn [has_char] in H.
    repeat (apply orb_true_iff in H; destruct H as [H|H];
            [apply Ascii.eqb_eq in H; subst c; reflexivity|]).
    discriminate.
  - unfold getLocalIPs. intros H. apply elem_of_union in H.
    destruct H as [H|H]; apply elem_of_singleton in H; discriminate.
Defined.
